(* ===== verification/_CoqProject ===== *)
-Q . S2P
Prelude.v
Monad.v
GoFmt.v
Sdk.v
Runtime.v
Mock.v
Helpers.v
Startup.v
Provision.v
Main.v
Traces.v
Workflow.v
Refinement.v
Properties.v
Transitions.v
Conduct.v
Output.v
Input.v
Redesign.v
Success.v
Cloud.v
Outage.v
