(* ===== verification/Prelude.v ===== *)
(** * Verification of the Service Bus management sample (src/example.go)

    ** The program

    src/example.go is a sequential Go script against the Azure management
    API.  Package initialisation ([init], lines 38-51) reads
    AZURE_SUBSCRIPTION_ID and AZURE_TENANT_ID, resolves the OAuth
    configuration of the tenant, reads AZURE_CLIENT_ID and
    AZURE_CLIENT_SECRET, builds a service principal token and hands it to
    [createClients] (lines 156-171), which fills five package-level client
    variables (lines 22-27).  [main] (lines 53-67) then creates a resource
    group, a Service Bus namespace, an authorization rule, lists the keys
    of the rule, creates a queue, a topic and a subscription (lines
    69-148), prints a prompt, reads a line, and deletes the resource group
    (lines 150-154).  The two helpers [getEnvVarOrExit] (lines 173-182) and
    [onErrorFail] (lines 184-190) are the only places that end the process:
    a missing variable or an error of the SDK prints one line and exits
    with status 1.

    ** The model

    The script is embedded as statements of a process monad, one Rocq
    definition per Go function, with the same name and the same sequence
    of calls.

    - Prelude.v (this file): the hint database [sb], strings ([nl], [tab],
      [contains]), order of occurrence in a list ([precedes], with its
      boolean test), and the lemmas on lists the components share.
    - Monad.v: [proc S A], a statement over a world [S] whose [Outcome] is
      [Returned], [Exited code] ([os.Exit]) or [Panicked] (a nil
      dereference); the monad laws up to pointwise equivalence; a Hoare
      triple over outcomes ([hoare]), the total triples of a statement
      that returns ([returns]) and of one that ends the process
      ([exits]), and relations kept by every run ([stable]).
    - GoFmt.v: [Sprintf], the fragment of [fmt.Sprintf] the script uses
      ([%s], [%%], missing and extra operands).
    - Sdk.v: the data the script passes to the SDK (parameters, clients,
      tokens, [Request], [Reply]); Go pointers are options.  The class
      [Sdk R] is the interface to the remote service with state [R]: what
      the two authentication entry points and a management call answer.
    - Runtime.v: [World R] (environment, standard input as a list of
      lines, the five client variables, the state of the service, and the
      log of [Event]s, oldest first) and the library calls as statements
      ([Getenv], [Printf], [Print], [Scanln], [OAuthConfigForTenant],
      [NewServicePrincipalToken], [call]).  The log is the observable
      behaviour of a run.
    - Mock.v: two instances of [Sdk] on which runs evaluate: a scripted
      one that hands out replies fixed in advance, and one that never
      fails.
    - Helpers.v: [getEnvVarOrExit], [onErrorFail].
    - Startup.v: [createClients], [init].
    - Provision.v: the constants (lines 29-35), the parameters and the
      eight steps; [Step] and [script_steps] are the steps as data, and
      [perform] the shape seven of them share.
    - Main.v: [main], [program] ([init] then [main]) and [run], a run of
      the process from an environment, a standard input and a state of the
      service.

    ** The specification and the theorems

    - Workflow.v is the abstract specification: a state machine over a
      plan of actions that aborts at the first failure and crashes at a
      nil dereference, with its step relation [wf_step], its executable
      version and the properties of its runs by rule induction.
    - Refinement.v proves that the script implements it: [run_refines]
      shows, for every instance of [Sdk], that the visible events of a run
      are a run of the machine ending in a final stage whose status is the
      exit status of the process.  The proof composes one conformance
      lemma per Go function along the text of [init] and [main].
    - Properties.v draws the consequences for every run: the requests
      issued are a prefix of the eight of the script, parents come before
      children, events occur in the order of the plan (the deletion after
      the read of standard input), the first failure is the last
      interaction and gives status 1, the status is 1 exactly when the
      log holds a failure and 2 exactly when it holds a nil pointer that
      the script dereferences and no failure, status 0 means the eight
      requests were issued, and the status is 0, 1 or 2.
    - Transitions.v is the process as a transition system: [move] is one
      interaction with the world (a read of the environment, a print, a
      read of standard input, an assignment to a client variable, one of
      the three SDK entry points), every function of the source is shown
      to proceed by moves, and the invariant [consistent] of the worlds a
      run goes through is proved by rule induction: the environment is
      never written, standard input is consumed from the front, each
      client variable holds a client of its declared type, the log
      records the answers the service really gave, and the service is
      changed by the calls of the log only.  The invariant is a fact of
      the runtime, true of any program written with its primitives; the
      theorems that rest on it are about the script: a run interacts at
      most fifteen times with its world, and a failed call is never
      cleaned up after.
    - Traces.v gives the shape of the log of [main], with its print-outs:
      a sequence of blocks (progress line, call through the client
      variable of the step's type, output of the step; prompt, read).
    - Conduct.v reads properties of single events off that shape: every
      call follows a complete handshake and carries the subscription of
      the environment and the token obtained; every call comes right
      after its progress line; a missing variable means no call, no token
      and a non-zero status; an error of the tenant resolution ends the
      run before the client id and the secret are read.
    - Output.v classifies what is printed: every line of every run has
      one of five forms (progress line, line of the keys, prompt, failure
      line, missing variable).
    - Input.v shows that standard input is not heeded: [main] throws
      away what [Scanln] returns, so two runs that differ in their
      standard input only are the same run, the lines read apart; at end
      of input the resource group is deleted as after a key press.
    - Redesign.v writes the redesign that the design notes of the
      specification ask for (the clients in an immutable context passed
      to each step; a failure returned as a value, the sequence
      short-circuiting and one place reporting it) and proves it
      equivalent to the script: same outcome, same log, same service, the
      client variables apart.  [settle], which reports a failure and ends
      the process, takes the sequencing of results to the sequencing of
      statements.
    - Success.v proves the converse direction: against a service that
      does not fail ([Reliable], an assumption on the answers of the
      service along the script, indexed by the requests served so far),
      with the four variables set, the process returns with status 0, has
      issued the eight requests and has printed exactly the expected
      fourteen lines.
    - Cloud.v is a reference model of the service, written from its
      description and not from code of this repository: a directory of
      service principals and subscriptions, and a store of resources
      addressed by path in which a resource needs its parent, a body is
      of the type of its path and the deletion of a group removes all
      that is below it.  It is an instance of [Sdk] and, for a registered
      credential, of [Reliable].  On it the run is followed to the end:
      it leaves nothing of the script's resource group, touches no other
      group, and gives back the very cloud it started from when the group
      was not there before; an unknown credential or a foreign
      subscription stops it at the token or at the first request with the
      cloud unchanged.  The service keeps its store well formed whatever
      is asked of it.
    - Outage.v puts the reference service behind a front that gives out
      after a number of calls and follows the run that is interrupted:
      status 1 at the step that is refused, and the cloud left with what
      the earlier steps created, since the script has no cleanup.
    - The component files carry the behaviour of each function on every
      branch: [getEnvVarOrExit_behaviour], [onErrorFail_behaviour],
      [createClients_behaviour], [init_returns_iff], [perform_behaviour],
      [listKeys_panics], [listKeys_prints].

    Every theorem with a hypothesis is applied to a concrete run, on an
    instance of Mock.v or on a sample cloud of Cloud.v, by a lemma named
    after it with the suffix [_witness].

    ** Bounds

    All definitions are structurally recursive or not recursive at all:
    the script has no loop, so no fuel is needed and every run terminates
    by construction; [run_bounded] gives the number of its interactions.
    Exit statuses are integers ([Z]); the only ones that occur are 0, 1
    and 2 (the status of the Go runtime after a panic).  Strings are
    unbounded.

    ** Not modelled

    What the SDK does behind its entry points (the OAuth2 token exchange,
    HTTP, long-running operation polling, the [cancel] channel, which the
    script always passes as nil) is not modelled: the theorems quantify
    over every behaviour of the interface [Sdk] instead.  The reference
    service of Cloud.v answers at once: asynchronous provisioning (a
    namespace that is not yet active when the queue is requested), quotas,
    name validation, regions and token expiry are not modelled.  Standard
    output is
    assumed writable, and [fmt.Scanln] is modelled on whole lines: the
    text of the line is discarded by the script, and end of input makes
    the read return at once.  Fields of the SDK's structs that the script
    never sets are omitted from the records.  The five client types of
    the SDK, which differ in their methods only, are one record type
    with a tag for the type ([client_kind]), and their methods are the
    constructors of [Request]; that a variable holds a client of its own
    type is then an invariant of the runtime where Go has a typing
    rule. *)

From stdpp Require Export base tactics option list strings gmap.

(** The hint database of the development. *)
Create HintDb sb discriminated.

(** ** Characters and strings *)

(** The two control characters the script prints. *)
Definition nl : string := String (Ascii.ascii_of_nat 10) EmptyString.
Definition tab : string := String (Ascii.ascii_of_nat 9) EmptyString.

(** [contains needle hay]: [needle] occurs verbatim inside [hay]. *)
Definition contains (needle hay : string) : Prop :=
  ∃ before after, hay = before +:+ needle +:+ after.

(** ** Order of occurrence in a list *)

(** [precedes a b l]: every occurrence of [b] in [l] comes after an
    occurrence of [a]. *)
Definition precedes {A} (a b : A) (l : list A) : Prop :=
  ∀ j, l !! j = Some b → ∃ i, i < j ∧ l !! i = Some a.

(** A boolean test for [precedes]: scan the list, remembering whether [a]
    has been seen. *)
Fixpoint precedes_from `{EqDecision A} (seen : bool) (a b : A) (l : list A) : bool :=
  match l with
  | [] => true
  | x :: l' =>
      (if decide (x = b) then seen else true)
      && precedes_from (seen || bool_decide (x = a)) a b l'
  end.

Definition precedesb `{EqDecision A} (a b : A) (l : list A) : bool :=
  precedes_from false a b l.

(** ** Lemmas on strings *)

Lemma string_app_nil_l (s : string) : "" +:+ s = s.
Proof. reflexivity. Qed.

Lemma string_app_cons (c : Ascii.ascii) (s t : string) :
  String c s +:+ t = String c (s +:+ t).
Proof. reflexivity. Qed.

Lemma string_app_nil_r (s : string) : s +:+ "" = s.
Proof. induction s as [|c s IH]; [done|by rewrite string_app_cons, IH]. Qed.

Lemma string_app_assoc (s1 s2 s3 : string) :
  (s1 +:+ s2) +:+ s3 = s1 +:+ (s2 +:+ s3).
Proof. induction s1 as [|c s1 IH]; [done|by rewrite !string_app_cons, IH]. Qed.

Lemma string_app_length (s1 s2 : string) :
  String.length (s1 +:+ s2) = String.length s1 + String.length s2.
Proof.
  induction s1 as [|c s1 IH]; [done|].
  by rewrite string_app_cons; simpl; rewrite IH.
Qed.

(** Appending is injective on both sides. *)
Lemma string_app_inv_l (s t1 t2 : string) : s +:+ t1 = s +:+ t2 → t1 = t2.
Proof. induction s as [|c s IH]; [done|]. rewrite !string_app_cons. by intros [= ?%IH]. Qed.

Lemma string_app_inv_r (s1 s2 t : string) : s1 +:+ t = s2 +:+ t → s1 = s2.
Proof.
  revert s2. induction s1 as [|c s1 IH]; intros [|c2 s2] H; [done| | |].
  - apply (f_equal String.length) in H.
    rewrite string_app_nil_l, !string_app_length in H. simpl in H. lia.
  - apply (f_equal String.length) in H.
    rewrite string_app_nil_l, !string_app_length in H. simpl in H. lia.
  - rewrite !string_app_cons in H. injection H as -> H. f_equal. by apply IH.
Qed.

Lemma contains_refl (s : string) : contains s s.
Proof. exists "", "". by rewrite string_app_nil_r. Qed.

Lemma contains_app_l (n s t : string) : contains n s → contains n (s +:+ t).
Proof.
  intros (b & a & ->). exists b, (a +:+ t).
  by rewrite !string_app_assoc.
Qed.

Lemma contains_app_r (n s t : string) : contains n t → contains n (s +:+ t).
Proof.
  intros (b & a & ->). exists (s +:+ b), a.
  by rewrite !string_app_assoc.
Qed.

Lemma contains_trans (a b c : string) :
  contains a b → contains b c → contains a c.
Proof.
  intros (b1 & a1 & ->) (b2 & a2 & ->). exists (b2 +:+ b1), (a1 +:+ a2).
  by rewrite !string_app_assoc.
Qed.

#[export] Hint Resolve contains_refl contains_app_l contains_app_r : sb.

(** ** Lemmas on [precedes] *)

Lemma precedes_prefix {A} (a b : A) (l1 l2 : list A) :
  l1 `prefix_of` l2 → precedes a b l2 → precedes a b l1.
Proof.
  intros Hp H j Hj.
  destruct (H j (prefix_lookup_Some _ _ _ _ Hj Hp)) as (i & Hi & Hai).
  exists i. split; [done|].
  destruct (lookup_lt_is_Some_2 l1 i) as [x Hx].
  { apply lookup_lt_Some in Hj. lia. }
  pose proof (prefix_lookup_Some _ _ _ _ Hx Hp). congruence.
Qed.

Lemma precedes_from_spec `{EqDecision A} (a b : A) (l : list A) (seen : bool) :
  precedes_from seen a b l = true →
  ∀ j, l !! j = Some b → seen = true ∨ ∃ i, i < j ∧ l !! i = Some a.
Proof.
  revert seen. induction l as [|x l IH]; intros seen H j Hj; [done|].
  simpl in H. apply andb_true_iff in H as [Hx Hl].
  destruct j as [|j]; simpl in Hj.
  - simplify_eq. rewrite decide_True in Hx by done. by left.
  - destruct (IH _ Hl j Hj) as [Hs|(i & Hi & Hai)].
    + apply orb_true_iff in Hs as [->|Hs]; [by left|].
      right. exists 0. split; [lia|]. apply bool_decide_eq_true in Hs. by subst.
    + right. exists (S i). split; [lia|done].
Qed.

Lemma precedesb_sound `{EqDecision A} (a b : A) (l : list A) :
  precedesb a b l = true → precedes a b l.
Proof.
  intros H j Hj. by destruct (precedes_from_spec a b l false H j Hj).
Qed.

Lemma precedes_elem_of {A} (a b : A) (l : list A) :
  precedes a b l → b ∈ l → a ∈ l.
Proof.
  intros H (j & Hj)%list_elem_of_lookup.
  destruct (H j Hj) as (i & _ & Hi). by eapply list_elem_of_lookup_2.
Qed.

(** Order among the images under a partial map is order among the
    originals: an element mapped to [b] comes after one mapped to [a]. *)
Lemma precedes_omap {A B} (f : A → option B) (a b : B) (l : list A) (j : nat) (x : A) :
  precedes a b (omap f l) → l !! j = Some x → f x = Some b →
  ∃ i y, i < j ∧ l !! i = Some y ∧ f y = Some a.
Proof.
  intros Hp Hj Hx. rewrite <- (take_drop_middle l j x Hj), omap_app in Hp.
  simpl in Hp. rewrite Hx in Hp.
  destruct (Hp (length (omap f (take j l)))) as (i' & Hi' & Ha).
  { by rewrite lookup_app_r, Nat.sub_diag by lia. }
  rewrite lookup_app_l in Ha by done.
  apply list_elem_of_lookup_2, list_elem_of_omap in Ha as (y & Hy & Hfy).
  apply list_elem_of_lookup in Hy as (i & Hi). exists i, y.
  pose proof (lookup_lt_Some _ _ _ Hi) as Hlt. rewrite length_take in Hlt.
  rewrite lookup_take_lt in Hi by lia. split_and!; [lia|done..].
Qed.

(** The four elements of a list of four that all satisfy [P]. *)
Lemma Forall_cons_1_4 {A} (P : A → Prop) (a b c d : A) :
  Forall P [a; b; c; d] → P a ∧ P b ∧ P c ∧ P d ∧ True.
Proof. rewrite !Forall_cons. tauto. Qed.

(** ** Lemmas on prefixes *)

Lemma prefix_snoc_inv {A} (l k : list A) (x : A) :
  l `prefix_of` k ++ [x] → l `prefix_of` k ∨ l = k ++ [x].
Proof.
  intros [m Hm]. destruct m as [|y m _] using rev_ind.
  - right. by rewrite app_nil_r in Hm.
  - left. rewrite app_assoc in Hm. apply app_inj_tail in Hm as [-> _].
    by apply prefix_app_r.
Qed.

Lemma prefix_take {A} (l : list A) (n : nat) : take n l `prefix_of` l.
Proof. exists (drop n l). by rewrite take_drop. Qed.

#[export] Hint Resolve prefix_take : sb.
