(* ===== verification/Monad.v ===== *)
(** * The process monad

    A Go process either runs a statement to its end, or leaves through
    [os.Exit], or dies of a run-time panic; whichever happens, what it did
    to the world before stays done.  [proc S A] is the type of a statement
    over a world of type [S] that yields an [A]: a function from the world
    to an [Outcome] and the world it leaves.  Sequencing stops at the first
    [Exited] or [Panicked].

    The file gives the monad through stdpp's [MRet]/[MBind]/[FMap]
    classes (so the script reads [x ← m; k] and [m;; k]), pointwise
    equivalence of statements with its [Proper] instances, the run
    equations that step through a bind, a Hoare triple over outcomes
    ([hoare]), the total triples of a statement that returns ([returns])
    and of one that ends the process with a given status ([exits]), each
    with its sequencing rules, and [stable] for relations between the
    world before and after that every run keeps. *)

From S2P Require Import Prelude.

(** ** Outcomes *)

Inductive Outcome (A : Type) : Type :=
| Returned (a : A)
| Exited (code : Z)
| Panicked (msg : string).
Arguments Returned {A} a.
Arguments Exited {A} code.
Arguments Panicked {A} msg.

#[export] Instance Outcome_eq_dec `{EqDecision A} : EqDecision (Outcome A).
Proof. solve_decision. Defined.

(** The status the operating system sees: 0 for a normal return, the
    argument of [os.Exit], 2 for a panic (the Go runtime's status). *)
Definition exit_status {A} (o : Outcome A) : Z :=
  match o with
  | Returned _ => 0
  | Exited code => code
  | Panicked _ => 2
  end.

Definition returned {A} (o : Outcome A) : bool :=
  match o with Returned _ => true | _ => false end.

(** ** Statements *)

Definition proc (S A : Type) : Type := S → Outcome A * S.

#[export] Instance proc_ret {S} : MRet (proc S) := λ A a s, (Returned a, s).

#[export] Instance proc_bind {S} : MBind (proc S) := λ A B f m s,
  match m s with
  | (Returned a, s') => f a s'
  | (Exited code, s') => (Exited code, s')
  | (Panicked msg, s') => (Panicked msg, s')
  end.

#[export] Instance proc_fmap {S} : FMap (proc S) := λ A B f m s,
  match m s with
  | (Returned a, s') => (Returned (f a), s')
  | (Exited code, s') => (Exited code, s')
  | (Panicked msg, s') => (Panicked msg, s')
  end.

(** Reading and changing the world. *)
Definition gets {S A} (f : S → A) : proc S A := λ s, (Returned (f s), s).
Definition modify {S} (f : S → S) : proc S () := λ s, (Returned (), f s).

(** [os.Exit(code)]: the process ends at once with that status. *)
Definition Exit {S A} (code : Z) : proc S A := λ s, (Exited code, s).

(** A run-time panic, which nothing in the script recovers from. *)
Definition panic {S A} (msg : string) : proc S A := λ s, (Panicked msg, s).

(** Dereference of a Go pointer, [*p]: a nil pointer panics. *)
Definition nil_dereference : string :=
  "runtime error: invalid memory address or nil pointer dereference".

Definition deref {S A} (p : option A) : proc S A :=
  match p with
  | Some a => mret a
  | None => panic nil_dereference
  end.

(** Outcome and final world of a run. *)
Definition outcome {S A} (m : proc S A) (s : S) : Outcome A := (m s).1.
Definition final {S A} (m : proc S A) (s : S) : S := (m s).2.

(** ** Equivalence of statements *)

(** Two statements are equivalent when they agree on every world. *)
#[export] Instance proc_equiv {S A} : Equiv (proc S A) := λ m1 m2, ∀ s, m1 s = m2 s.

(** ** Hoare triples over outcomes *)

(** [hoare P m Q]: from a world satisfying [P], the outcome and the final
    world of [m] satisfy [Q], whether [m] returns, exits or panics. *)
Definition hoare {S A} (P : S → Prop) (m : proc S A)
    (Q : Outcome A → S → Prop) : Prop :=
  ∀ s, P s → Q (outcome m s) (final m s).

(** [returns P m Q]: from a world satisfying [P], [m] returns (it neither
    exits nor panics) a value and a world satisfying [Q]. *)
Definition returns {S A} (P : S → Prop) (m : proc S A) (Q : A → S → Prop) : Prop :=
  ∀ s, P s → ∃ a s', m s = (Returned a, s') ∧ Q a s'.

(** [exits P m code Q]: from a world satisfying [P], [m] ends the process
    with the status [code], in a world satisfying [Q]. *)
Definition exits {S A} (P : S → Prop) (m : proc S A) (code : Z) (Q : S → Prop) : Prop :=
  ∀ s, P s → ∃ s', m s = (Exited code, s') ∧ Q s'.

(** [stable R m]: every run of [m] takes the world to an [R]-related one. *)
Definition stable {S A} (R : relation S) (m : proc S A) : Prop :=
  ∀ s, R s (final m s).

(** ** Run equations *)

Section run.
Context {S A B : Type}.
Implicit Types (m : proc S A) (f : A → proc S B) (s : S).

Lemma run_ret (a : A) s : mret (M := proc S) a s = (Returned a, s).
Proof. done. Qed.

Lemma run_bind m f s :
  (m ≫= f) s =
  match m s with
  | (Returned a, s') => f a s'
  | (Exited code, s') => (Exited code, s')
  | (Panicked msg, s') => (Panicked msg, s')
  end.
Proof. done. Qed.

Lemma bind_returned m f s a s' :
  m s = (Returned a, s') → (m ≫= f) s = f a s'.
Proof. intros H. by rewrite run_bind, H. Qed.

Lemma bind_exited m f s code s' :
  m s = (Exited code, s') → (m ≫= f) s = (Exited code, s').
Proof. intros H. by rewrite run_bind, H. Qed.

Lemma bind_panicked m f s msg s' :
  m s = (Panicked msg, s') → (m ≫= f) s = (Panicked msg, s').
Proof. intros H. by rewrite run_bind, H. Qed.

Lemma run_gets (g : S → A) f s : (gets g ≫= f) s = f (g s) s.
Proof. done. Qed.

Lemma run_exit (code : Z) f s : (Exit code ≫= f) s = (Exited code, s).
Proof. done. Qed.

Lemma run_panic (msg : string) f s : (panic msg ≫= f) s = (Panicked msg, s).
Proof. done. Qed.

Lemma run_deref_some (a : A) f s : (deref (Some a) ≫= f) s = f a s.
Proof. done. Qed.

Lemma run_deref_none f s :
  (deref None ≫= f) s = (Panicked nil_dereference, s).
Proof. done. Qed.

(** A bind returns only if both of its parts do. *)
Lemma bind_returned_inv m f s b s2 :
  (m ≫= f) s = (Returned b, s2) →
  ∃ a s1, m s = (Returned a, s1) ∧ f a s1 = (Returned b, s2).
Proof.
  rewrite run_bind. destruct (m s) as [[a|code|msg] s1]; [eauto|done..].
Qed.

End run.

Lemma run_modify {S B} (g : S → S) (f : () → proc S B) (s : S) :
  (modify g ≫= f) s = f () (g s).
Proof. done. Qed.

(** ** The monad laws, up to equivalence *)

Section laws.
Context {S : Type}.

#[export] Instance proc_equivalence {A} : Equivalence (≡@{proc S A}).
Proof.
  split; [by intros m s|by intros m1 m2 H s|].
  intros m1 m2 m3 H1 H2 s. by rewrite H1.
Qed.

#[export] Instance proc_bind_proper {A B} :
  Proper (pointwise_relation A (≡) ==> (≡) ==> (≡@{proc S B})) mbind.
Proof.
  intros f g Hfg m1 m2 Hm s. rewrite !run_bind, Hm.
  destruct (m2 s) as [[a|code|msg] s']; [apply Hfg|done..].
Qed.

Lemma proc_left_id {A B} (a : A) (f : A → proc S B) : mret a ≫= f ≡ f a.
Proof. done. Qed.

Lemma proc_right_id {A} (m : proc S A) : m ≫= mret ≡ m.
Proof. intros s. rewrite run_bind. by destruct (m s) as [[a|code|msg] s']. Qed.

Lemma proc_assoc {A B C} (m : proc S A) (f : A → proc S B) (g : B → proc S C) :
  (m ≫= f) ≫= g ≡ m ≫= (λ a, f a ≫= g).
Proof.
  intros s. rewrite !run_bind. by destruct (m s) as [[a|code|msg] s'].
Qed.

(** Nothing runs after [Exit] or a panic. *)
Lemma exit_absorbs {A B} (code : Z) (f : A → proc S B) :
  Exit code ≫= f ≡ Exit code.
Proof. done. Qed.

Lemma panic_absorbs {A B} (msg : string) (f : A → proc S B) :
  panic msg ≫= f ≡ panic msg.
Proof. done. Qed.

End laws.

(** ** Rules of the Hoare triple *)

Section hoare.
Context {S : Type}.

Lemma hoare_ret {A} (a : A) (Q : Outcome A → S → Prop) :
  hoare (Q (Returned a)) (mret a) Q.
Proof. by intros s. Qed.

Lemma hoare_consequence {A} (P P' : S → Prop) (Q Q' : Outcome A → S → Prop)
    (m : proc S A) :
  (∀ s, P' s → P s) → (∀ o s, Q o s → Q' o s) → hoare P m Q → hoare P' m Q'.
Proof. intros HP HQ H s Hs. apply HQ, H, HP, Hs. Qed.

(** Sequencing: the continuation is only met by a returned value; an exit
    or a panic of the first part is the outcome of the whole. *)
Lemma hoare_bind {A B} (P : S → Prop) (Q1 : Outcome A → S → Prop)
    (Q : Outcome B → S → Prop) (m : proc S A) (f : A → proc S B) :
  hoare P m Q1 →
  (∀ a, hoare (Q1 (Returned a)) (f a) Q) →
  (∀ code s, Q1 (Exited code) s → Q (Exited code) s) →
  (∀ msg s, Q1 (Panicked msg) s → Q (Panicked msg) s) →
  hoare P (m ≫= f) Q.
Proof.
  intros Hm Hf He Hp s Hs. specialize (Hm s Hs).
  unfold outcome, final in *. rewrite run_bind.
  destruct (m s) as [[a|code|msg] s1]; simpl in *; [by apply Hf|by apply He|by apply Hp].
Qed.

(** *** Rules of [returns] *)

Lemma returns_ret {A} (a : A) (Q : A → S → Prop) : returns (Q a) (mret a) Q.
Proof. intros s Hs. by exists a, s. Qed.

Lemma returns_bind {A B} (P : S → Prop) (Q1 : A → S → Prop) (Q : B → S → Prop)
    (m : proc S A) (f : A → proc S B) :
  returns P m Q1 → (∀ a, returns (Q1 a) (f a) Q) → returns P (m ≫= f) Q.
Proof.
  intros Hm Hf s Hs. destruct (Hm s Hs) as (a & s1 & Hrun & Ha).
  rewrite run_bind, Hrun. by apply Hf.
Qed.

Lemma returns_bind_seq {A B C} (P : S → Prop) (Q1 : B → S → Prop) (Q : C → S → Prop)
    (m1 : proc S A) (m2 : proc S B) (f : B → proc S C) :
  returns P (m1;; m2) Q1 → (∀ b, returns (Q1 b) (f b) Q) → returns P (m1;; (m2 ≫= f)) Q.
Proof.
  intros H12 Hf s Hs. rewrite <- (proc_assoc m1 (λ _, m2) f s).
  by apply (returns_bind P Q1 Q).
Qed.

Lemma returns_consequence {A} (P P' : S → Prop) (Q Q' : A → S → Prop) (m : proc S A) :
  (∀ s, P' s → P s) → (∀ a s, Q a s → Q' a s) → returns P m Q → returns P' m Q'.
Proof.
  intros HP HQ Hm s Hs. destruct (Hm s (HP s Hs)) as (a & s' & Hrun & Ha). eauto.
Qed.

Lemma returns_pure {A} (φ : Prop) (P : S → Prop) (Q : A → S → Prop) (m : proc S A) :
  (φ → returns P m Q) → returns (λ s, φ ∧ P s) m Q.
Proof. intros Hm s [Hφ Hs]. by apply Hm. Qed.

(** A statement that returns and leaves the world as it is. *)
Lemma returns_same {A} (P : S → Prop) (m : proc S A) (a : A) :
  (∀ s, m s = (Returned a, s)) → returns P m (λ _, P).
Proof. intros Hm s Hs. exists a, s. by rewrite Hm. Qed.

Lemma returns_exists {A X} (P : X → S → Prop) (Q : A → S → Prop) (m : proc S A) :
  (∀ x, returns (P x) m Q) → returns (λ s, ∃ x, P x s) m Q.
Proof. intros Hm s [x Hs]. by eapply Hm. Qed.

(** A sequence exits where its first statement does, or where the rest
    does after the first has returned. *)
Lemma exits_here {A B} (P Q : S → Prop) (m : proc S A) (f : A → proc S B) code :
  exits P m code Q → exits P (m ≫= f) code Q.
Proof.
  intros Hm s Hs. destruct (Hm s Hs) as (s' & Hrun & Hq).
  exists s'. split; [by apply bind_exited|done].
Qed.

Lemma exits_bind {A B} (P : S → Prop) (Q1 : A → S → Prop) (Q : S → Prop)
    (m : proc S A) (f : A → proc S B) code :
  returns P m Q1 → (∀ a, exits (Q1 a) (f a) code Q) → exits P (m ≫= f) code Q.
Proof.
  intros Hm Hf s Hs. destruct (Hm s Hs) as (a & s1 & Hrun & H1).
  destruct (Hf a s1 H1) as (s' & Hrun' & Hq). exists s'.
  split; [by rewrite (bind_returned _ _ _ _ _ Hrun)|done].
Qed.

Lemma exits_bind_seq {A B C} (P : S → Prop) (Q1 : B → S → Prop) (Q : S → Prop)
    (m1 : proc S A) (m2 : proc S B) (f : B → proc S C) code :
  returns P (m1;; m2) Q1 → (∀ b, exits (Q1 b) (f b) code Q) →
  exits P (m1;; (m2 ≫= f)) code Q.
Proof.
  intros H12 Hf s Hs. rewrite <- (proc_assoc m1 (λ _, m2) f s).
  by apply (exits_bind P Q1 Q).
Qed.

Lemma exits_consequence {A} (P Q Q' : S → Prop) (m : proc S A) code :
  exits P m code Q → (∀ s, Q s → Q' s) → exits P m code Q'.
Proof. intros Hm HQ s Hs. destruct (Hm s Hs) as (s' & Hrun & Hq). eauto. Qed.

Lemma exits_pure {A} (φ : Prop) (P Q : S → Prop) (m : proc S A) code :
  (φ → exits P m code Q) → exits (λ s, φ ∧ P s) m code Q.
Proof. intros H s [Hφ Hs]. by apply H. Qed.

Lemma exits_exists {A X} (P : X → S → Prop) (Q : S → Prop) (m : proc S A) code :
  (∀ x, exits (P x) m code Q) → exits (λ s, ∃ x, P x s) m code Q.
Proof. intros H s [x Hs]. by apply (H x). Qed.

Lemma stable_ret {A} (R : relation S) `{!Reflexive R} (a : A) : stable R (mret a).
Proof. by intros s. Qed.

Lemma stable_bind {A B} (R : relation S) `{!Transitive R}
    (m : proc S A) (f : A → proc S B) :
  stable R m → (∀ a, stable R (f a)) → stable R (m ≫= f).
Proof.
  intros Hm Hf s. specialize (Hm s). unfold final in *. rewrite run_bind.
  destruct (m s) as [[a|code|msg] s1]; simpl in *; [|done..].
  etrans; [done|apply Hf].
Qed.

(** The first two statements of a sequence taken as one. *)
Lemma stable_bind_seq {A B C} (R : relation S) `{!Transitive R}
    (m1 : proc S A) (m2 : proc S B) (f : B → proc S C) :
  stable R (m1;; m2) → (∀ b, stable R (f b)) → stable R (m1;; (m2 ≫= f)).
Proof.
  intros H12 Hf s. unfold final.
  rewrite <- (proc_assoc m1 (λ _, m2) f s). by apply (stable_bind R).
Qed.

Lemma stable_gets {A} (R : relation S) `{!Reflexive R} (g : S → A) : stable R (gets g).
Proof. by intros s. Qed.

Lemma stable_exit {A} (R : relation S) `{!Reflexive R} (code : Z) :
  stable R (Exit (A := A) code).
Proof. by intros s. Qed.

Lemma stable_deref {A} (R : relation S) `{!Reflexive R} (p : option A) :
  stable R (deref p).
Proof. by intros s; destruct p. Qed.

End hoare.

#[export] Hint Resolve stable_ret stable_gets stable_exit stable_deref : sb.
