(* ===== verification/GoFmt.v ===== *)
(** * Format strings of Go's fmt package

    The script writes every line through [fmt.Printf] with the verb [%s]
    and string (or error) operands.  [Sprintf] is the formatter restricted
    to what such calls can reach: literal text, [%%], a verb with its
    operand, a verb with no operand left ([%!v(MISSING)]), a lone [%] at the
    end ([%!(NOVERB)]), operands left over ([%!(EXTRA ...)]).  Operands are
    strings; [%s] and [%v] print them as they are, any other verb is
    rendered as Go renders a verb that does not fit its operand.  Flags,
    widths and the verbs [%q], [%x], [%X], [%T] are outside the fragment;
    [simple_format] recognises the formats made of text and [%s] alone,
    which is what every format of the script is.

    The file is modelled on the documented behaviour of the library: the
    package is not part of the repository's sources. *)

From Stdlib Require Import Ascii.
From S2P Require Import Prelude.

Definition percent : ascii := "%"%char.

(** One operand under one verb. *)
Definition render (verb : ascii) (arg : string) : string :=
  if decide (verb = "s"%char ∨ verb = "v"%char) then arg
  else "%!" +:+ String verb ("(string=" +:+ arg +:+ ")").

(** The operands that no verb consumed. *)
Fixpoint extra_args (args : list string) : string :=
  match args with
  | [] => ""
  | [a] => "string=" +:+ a
  | a :: args' => "string=" +:+ a +:+ ", " +:+ extra_args args'
  end.

Definition extra (args : list string) : string :=
  match args with
  | [] => ""
  | _ => "%!(EXTRA " +:+ extra_args args +:+ ")"
  end.

(** [fmt.Sprintf(format, args...)]. *)
Fixpoint Sprintf (format : string) (args : list string) : string :=
  match format with
  | EmptyString => extra args
  | String c rest =>
      if decide (c = percent) then
        match rest with
        | EmptyString => "%!(NOVERB)" +:+ extra args
        | String verb rest' =>
            if decide (verb = percent) then String percent (Sprintf rest' args)
            else match args with
                 | [] => "%!" +:+ String verb ("(MISSING)" +:+ Sprintf rest' [])
                 | a :: args' => render verb a +:+ Sprintf rest' args'
                 end
        end
      else String c (Sprintf rest args)
  end.

(** [fmt.Sprint(s)] of one string operand. *)
Definition Sprint (s : string) : string := s.

(** Text without a percent sign. *)
Fixpoint no_percent (s : string) : bool :=
  match s with
  | EmptyString => true
  | String c rest => bool_decide (c ≠ percent) && no_percent rest
  end.

(** Number of operands a format consumes. *)
Fixpoint verbs (format : string) : nat :=
  match format with
  | EmptyString => 0
  | String c rest =>
      if decide (c = percent) then
        match rest with
        | EmptyString => 0
        | String verb rest' =>
            if decide (verb = percent) then verbs rest' else S (verbs rest')
        end
      else verbs rest
  end.

(** Formats made of literal text and [%s] only. *)
Fixpoint simple_format (format : string) : bool :=
  match format with
  | EmptyString => true
  | String c rest =>
      if decide (c = percent) then
        match rest with
        | EmptyString => false
        | String verb rest' => bool_decide (verb = "s"%char) && simple_format rest'
        end
      else simple_format rest
  end.

(** ** Induction along the formatter's recursion *)

Lemma format_ind (P : string → Prop) :
  P "" →
  (∀ c rest, c ≠ percent → P rest → P (String c rest)) →
  P (String percent "") →
  (∀ verb rest, P rest → P (String percent (String verb rest))) →
  ∀ format, P format.
Proof.
  intros Hnil Hlit Hlone Hverb format.
  cut (P format ∧ ∀ c, P (String c format)); [tauto|].
  induction format as [|d rest [IH1 IH2]].
  - split; [done|]. intros c. destruct (decide (c = percent)) as [->|]; auto.
  - split; [done|]. intros c. destruct (decide (c = percent)) as [->|]; auto.
Qed.

(** ** Unfolding equations *)

Lemma Sprintf_nil args : Sprintf "" args = extra args.
Proof. done. Qed.

Lemma Sprintf_literal c rest args :
  c ≠ percent → Sprintf (String c rest) args = String c (Sprintf rest args).
Proof. intros. simpl. by rewrite decide_False. Qed.

Lemma Sprintf_verb verb rest a args :
  verb ≠ percent →
  Sprintf (String percent (String verb rest)) (a :: args)
  = render verb a +:+ Sprintf rest args.
Proof. intros. simpl. by rewrite decide_False. Qed.

Lemma Sprintf_verb_s rest a args :
  Sprintf ("%s" +:+ rest) (a :: args) = a +:+ Sprintf rest args.
Proof. done. Qed.

Lemma Sprintf_percent rest args :
  Sprintf ("%%" +:+ rest) args = "%" +:+ Sprintf rest args.
Proof. done. Qed.

Lemma verbs_literal c rest : c ≠ percent → verbs (String c rest) = verbs rest.
Proof. intros. cbn [verbs]. by rewrite decide_False. Qed.

Lemma verbs_verb verb rest :
  verb ≠ percent → verbs (String percent (String verb rest)) = S (verbs rest).
Proof. intros. cbn [verbs]. by rewrite decide_True, decide_False. Qed.

Lemma simple_format_literal c rest :
  c ≠ percent → simple_format (String c rest) = simple_format rest.
Proof. intros. cbn [simple_format]. by rewrite decide_False. Qed.

Lemma simple_format_verb verb rest :
  simple_format (String percent (String verb rest)) = true ↔
  verb = "s"%char ∧ simple_format rest = true.
Proof.
  cbn [simple_format]. rewrite decide_True, andb_true_iff by done.
  by rewrite bool_decide_eq_true.
Qed.

(** ** Properties *)

(** Literal text is printed as it is. *)
Lemma Sprintf_no_percent s : no_percent s = true → Sprintf s [] = s.
Proof.
  induction s as [|c s IH]; [done|]. cbn [no_percent].
  intros [Hc Hs]%andb_true_iff. apply bool_decide_eq_true in Hc.
  by rewrite Sprintf_literal, IH.
Qed.

(** Literal text at the head of a format is copied out. *)
Lemma Sprintf_app_literal s format args :
  no_percent s = true → Sprintf (s +:+ format) args = s +:+ Sprintf format args.
Proof.
  induction s as [|c s IH]; [done|]. cbn [no_percent].
  intros [Hc Hs]%andb_true_iff. apply bool_decide_eq_true in Hc.
  by rewrite !string_app_cons, Sprintf_literal, IH.
Qed.

(** A simple format given as many operands as it has verbs prints each
    operand verbatim. *)
Lemma Sprintf_contains format :
  ∀ args a, simple_format format = true → verbs format = length args →
    a ∈ args → contains a (Sprintf format args).
Proof.
  induction format as [|c rest Hc IH| |verb rest IH] using format_ind;
    intros args a Hs Hv Ha.
  - destruct args; [by apply elem_of_nil in Ha|done].
  - rewrite Sprintf_literal by done.
    rewrite simple_format_literal in Hs by done. rewrite verbs_literal in Hv by done.
    apply (contains_app_r a (String c "")). eauto.
  - done.
  - apply simple_format_verb in Hs as [-> Hs]. rewrite verbs_verb in Hv by done.
    destruct args as [|b args]; [done|]. injection Hv as Hv.
    change (contains a (b +:+ Sprintf rest args)).
    apply elem_of_cons in Ha as [->|Ha]; [|by eauto with sb].
    apply contains_app_l, contains_refl.
Qed.

(** With the right number of operands a simple format prints no error
    marker: the output is the format with each [%s] replaced, so its length
    is determined. *)
Lemma Sprintf_length format :
  ∀ args, simple_format format = true → verbs format = length args →
    String.length (Sprintf format args) + 2 * length args
    = String.length format + sum_list (String.length <$> args).
Proof.
  induction format as [|c rest Hc IH| |verb rest IH] using format_ind;
    intros args Hs Hv.
  - by destruct args.
  - rewrite Sprintf_literal by done.
    rewrite simple_format_literal in Hs by done. rewrite verbs_literal in Hv by done.
    simpl. by rewrite <- IH.
  - done.
  - apply simple_format_verb in Hs as [-> Hs]. rewrite verbs_verb in Hv by done.
    destruct args as [|b args]; [done|]. injection Hv as Hv.
    change (Sprintf _ _) with (b +:+ Sprintf rest args).
    rewrite string_app_length, fmap_cons. specialize (IH args Hs Hv).
    cbn [length String.length sum_list sum_list_with]. unfold id in *. lia.
Qed.

Example Sprintf_missing :
  Sprintf "%s: %s" ["Group create failed"] = "Group create failed: %!s(MISSING)".
Proof. reflexivity. Qed.

Example Sprintf_extra :
  Sprintf "%s" ["a"; "b"; "c"] = "a%!(EXTRA string=b, string=c)".
Proof. reflexivity. Qed.
