(* ===== verification/Sdk.v ===== *)
(** * The Azure SDK as the script sees it

    The data the script builds and passes to the SDK (request parameters,
    clients, tokens), the requests it can issue, the replies it reads, and
    the interface [Sdk] through which every call leaves the process.

    Go pointers are options ([nil] is [None]); a struct is a record with the
    fields the script sets, every other field of the SDK's struct being left
    at its zero value by the script and omitted here.  The [cancel] channel
    the long-running calls take is always [nil] in the script and is not
    modelled.  The script's theorems are proved for an arbitrary instance of
    [Sdk], that is, whatever the remote service answers; Mock.v gives the
    instances on which runs are evaluated. *)

From S2P Require Import Prelude.

(** ** Helpers of package [to] *)

Module to.
Definition StringPtr (s : string) : option string := Some s.
Definition BoolPtr (b : bool) : option bool := Some b.
End to.

(** ** Errors *)

(** A non-nil Go [error]; [Error e] is the text of [e.Error()]. *)
Record goerror := mkError { Error : string }.

(** ** Request parameters *)

(** [resources.Group]. *)
Record Group := { group_Location : option string }.

(** [servicebus.SkuName], [servicebus.SkuTier], [servicebus.Sku]. *)
Inductive SkuName := Basic | Premium | Standard.
Inductive SkuTier := SkuTierBasic | SkuTierPremium | SkuTierStandard.
Record Sku := { sku_Name : SkuName; sku_Tier : SkuTier }.

(** [servicebus.NamespaceCreateOrUpdateParameters]. *)
Record NamespaceCreateOrUpdateParameters := {
  ns_Location : option string;
  ns_Sku : option Sku
}.

(** [servicebus.AccessRights]. *)
Inductive AccessRights := Listen | Manage | Send.

(** [servicebus.SharedAccessAuthorizationRuleProperties] and the parameters
    that carry it. *)
Record SharedAccessAuthorizationRuleProperties := {
  rule_Rights : option (list AccessRights)
}.
Record SharedAccessAuthorizationRuleCreateOrUpdateParameters := {
  rule_Properties : option SharedAccessAuthorizationRuleProperties
}.

(** [servicebus.QueueProperties], [servicebus.QueueCreateOrUpdateParameters]. *)
Record QueueProperties := { queue_EnablePartitioning : option bool }.
Record QueueCreateOrUpdateParameters := {
  queue_Location : option string;
  queue_Properties : option QueueProperties
}.

(** [servicebus.TopicProperties], [servicebus.TopicCreateOrUpdateParameters]. *)
Record TopicProperties := { topic_EnablePartitioning : option bool }.
Record TopicCreateOrUpdateParameters := {
  topic_Location : option string;
  topic_Properties : option TopicProperties
}.

(** [servicebus.SubscriptionCreateOrUpdateParameters]. *)
Record SubscriptionCreateOrUpdateParameters := {
  sub_Location : option string
}.

(** [servicebus.ResourceListKeys]: what [ListKeys] returns. *)
Record ResourceListKeys := {
  KeyName : option string;
  PrimaryKey : option string;
  SecondaryKey : option string;
  PrimaryConnectionString : option string;
  SecondaryConnectionString : option string
}.

(** ** Authentication *)

(** [azure.Environment], with the endpoints the script and the token use. *)
Record Environment := {
  env_Name : string;
  ActiveDirectoryEndpoint : string;
  ResourceManagerEndpoint : string
}.

(** [azure.PublicCloud]. *)
Definition PublicCloud : Environment := {|
  env_Name := "AzurePublicCloud";
  ActiveDirectoryEndpoint := "https://login.microsoftonline.com/";
  ResourceManagerEndpoint := "https://management.azure.com/"
|}.

(** [azure.OAuthConfig]. *)
Record OAuthConfig := {
  AuthorizeEndpoint : string;
  TokenEndpoint : string;
  DeviceCodeEndpoint : string
}.

(** [azure.ServicePrincipalToken]: the credential a client presents. *)
Record ServicePrincipalToken := {
  spt_oauthConfig : OAuthConfig;
  spt_clientID : string;
  spt_secret : string;
  spt_resource : string
}.

(** ** Clients *)

(** The five client types of the script. *)
Inductive ClientKind := Groups | Namespaces | Queues | Topics | Subscriptions.

(** A management client: which API it speaks, the subscription it
    addresses, and the authorizer attached to it ([None] until one is
    assigned). *)
Record ManagementClient := {
  client_kind : ClientKind;
  SubscriptionID : string;
  Authorizer : option ServicePrincipalToken
}.

(** The constructors [resources.NewGroupsClient],
    [servicebus.NewNamespacesClient], ...: a client for the subscription,
    with no authorizer yet. *)
Definition NewClient (kind : ClientKind) (subscriptionID : string) : ManagementClient :=
  {| client_kind := kind; SubscriptionID := subscriptionID; Authorizer := None |}.

(** The assignment [client.Authorizer = token]. *)
Definition with_Authorizer (token : option ServicePrincipalToken)
    (c : ManagementClient) : ManagementClient :=
  {| client_kind := client_kind c; SubscriptionID := SubscriptionID c;
     Authorizer := token |}.

(** The zero value of a client variable. *)
Definition zero_client (kind : ClientKind) : ManagementClient := NewClient kind "".

(** ** Requests and replies *)

(** The management calls of the script, with their arguments. *)
Inductive Request :=
| GroupsCreateOrUpdate (resourceGroupName : string) (parameters : Group)
| GroupsDelete (resourceGroupName : string)
| NamespacesCreateOrUpdate (resourceGroupName namespaceName : string)
    (parameters : NamespaceCreateOrUpdateParameters)
| NamespacesCreateOrUpdateAuthorizationRule
    (resourceGroupName namespaceName authorizationRuleName : string)
    (parameters : SharedAccessAuthorizationRuleCreateOrUpdateParameters)
| NamespacesListKeys (resourceGroupName namespaceName authorizationRuleName : string)
| QueuesCreateOrUpdate (resourceGroupName namespaceName queueName : string)
    (parameters : QueueCreateOrUpdateParameters)
| TopicsCreateOrUpdate (resourceGroupName namespaceName topicName : string)
    (parameters : TopicCreateOrUpdateParameters)
| SubscriptionsCreateOrUpdate
    (resourceGroupName namespaceName topicName subscriptionName : string)
    (parameters : SubscriptionCreateOrUpdateParameters).

(** The client type a request is a method of. *)
Definition request_kind (r : Request) : ClientKind :=
  match r with
  | GroupsCreateOrUpdate _ _ | GroupsDelete _ => Groups
  | NamespacesCreateOrUpdate _ _ _
  | NamespacesCreateOrUpdateAuthorizationRule _ _ _ _
  | NamespacesListKeys _ _ _ => Namespaces
  | QueuesCreateOrUpdate _ _ _ _ => Queues
  | TopicsCreateOrUpdate _ _ _ _ => Topics
  | SubscriptionsCreateOrUpdate _ _ _ _ _ => Subscriptions
  end.

(** What a call returns to the script: the error, and the keys, which only
    [ListKeys] fills.  The other result values are discarded by the script
    and not modelled. *)
Record Reply := {
  reply_keys : ResourceListKeys;
  reply_err : option goerror
}.

Definition no_keys : ResourceListKeys :=
  {| KeyName := None; PrimaryKey := None; SecondaryKey := None;
     PrimaryConnectionString := None; SecondaryConnectionString := None |}.

Definition reply_ok : Reply := {| reply_keys := no_keys; reply_err := None |}.
Definition reply_error (e : goerror) : Reply :=
  {| reply_keys := no_keys; reply_err := Some e |}.
Definition reply_with_keys (k : ResourceListKeys) : Reply :=
  {| reply_keys := k; reply_err := None |}.

(** ** The interface *)

(** What the process relies on: each SDK entry point is a function of the
    state [R] of the world outside the process. *)
Class Sdk (R : Type) := {
  sdk_OAuthConfigForTenant :
    Environment → string → R → (option OAuthConfig * option goerror) * R;
  sdk_NewServicePrincipalToken :
    OAuthConfig → string → string → string → R →
    (option ServicePrincipalToken * option goerror) * R;
  sdk_perform : ManagementClient → Request → R → Reply * R
}.

(** ** Decidable equality *)

#[export] Instance goerror_eq_dec : EqDecision goerror.
Proof. solve_decision. Defined.
#[export] Instance Group_eq_dec : EqDecision Group.
Proof. solve_decision. Defined.
#[export] Instance SkuName_eq_dec : EqDecision SkuName.
Proof. solve_decision. Defined.
#[export] Instance SkuTier_eq_dec : EqDecision SkuTier.
Proof. solve_decision. Defined.
#[export] Instance Sku_eq_dec : EqDecision Sku.
Proof. solve_decision. Defined.
#[export] Instance NamespaceParameters_eq_dec :
  EqDecision NamespaceCreateOrUpdateParameters.
Proof. solve_decision. Defined.
#[export] Instance AccessRights_eq_dec : EqDecision AccessRights.
Proof. solve_decision. Defined.
#[export] Instance RuleProperties_eq_dec :
  EqDecision SharedAccessAuthorizationRuleProperties.
Proof. solve_decision. Defined.
#[export] Instance RuleParameters_eq_dec :
  EqDecision SharedAccessAuthorizationRuleCreateOrUpdateParameters.
Proof. solve_decision. Defined.
#[export] Instance QueueProperties_eq_dec : EqDecision QueueProperties.
Proof. solve_decision. Defined.
#[export] Instance QueueParameters_eq_dec : EqDecision QueueCreateOrUpdateParameters.
Proof. solve_decision. Defined.
#[export] Instance TopicProperties_eq_dec : EqDecision TopicProperties.
Proof. solve_decision. Defined.
#[export] Instance TopicParameters_eq_dec : EqDecision TopicCreateOrUpdateParameters.
Proof. solve_decision. Defined.
#[export] Instance SubscriptionParameters_eq_dec :
  EqDecision SubscriptionCreateOrUpdateParameters.
Proof. solve_decision. Defined.
#[export] Instance ResourceListKeys_eq_dec : EqDecision ResourceListKeys.
Proof. solve_decision. Defined.
#[export] Instance Environment_eq_dec : EqDecision Environment.
Proof. solve_decision. Defined.
#[export] Instance OAuthConfig_eq_dec : EqDecision OAuthConfig.
Proof. solve_decision. Defined.
#[export] Instance ServicePrincipalToken_eq_dec : EqDecision ServicePrincipalToken.
Proof. solve_decision. Defined.
#[export] Instance ClientKind_eq_dec : EqDecision ClientKind.
Proof. solve_decision. Defined.
#[export] Instance ManagementClient_eq_dec : EqDecision ManagementClient.
Proof. solve_decision. Defined.
#[export] Instance Request_eq_dec : EqDecision Request.
Proof. solve_decision. Defined.
#[export] Instance Reply_eq_dec : EqDecision Reply.
Proof. solve_decision. Defined.

(** ** Facts on clients *)

Lemma NewClient_kind kind sub : client_kind (NewClient kind sub) = kind.
Proof. done. Qed.

Lemma with_Authorizer_kind token c :
  client_kind (with_Authorizer token c) = client_kind c.
Proof. done. Qed.

Lemma with_Authorizer_sub token c :
  SubscriptionID (with_Authorizer token c) = SubscriptionID c.
Proof. done. Qed.

Lemma with_Authorizer_token token c : Authorizer (with_Authorizer token c) = token.
Proof. done. Qed.

(** Assigning the authorizer twice keeps the last one. *)
Lemma with_Authorizer_idemp t1 t2 c :
  with_Authorizer t2 (with_Authorizer t1 c) = with_Authorizer t2 c.
Proof. done. Qed.
