(* ===== verification/Runtime.v ===== *)
(** * The process and its world

    [World R] is everything a run of the script can read or change: the
    environment variables, the lines waiting on standard input, the five
    package-level client variables of example.go, the state [R] of the
    world behind the SDK, and the log of what the process did, oldest event
    first.  The log is the observable behaviour: every environment read,
    every write to standard output, every read of standard input and every
    SDK call appends one [Event] to it, in the order the process performs
    them.

    The primitives are the library calls of the script ([os.Getenv],
    [fmt.Printf], [fmt.Print], [fmt.Scanln], the SDK entry points) as
    statements of the process monad.  Standard input is a list of lines;
    [fmt.Scanln] consumes one line, or nothing at end of input, and the
    script discards what it read. *)

From S2P Require Import Prelude Monad GoFmt Sdk.

(** ** Package-level variables (example.go, lines 22-27) *)

Record Clients := {
  groupsClient : ManagementClient;
  namespaceClient : ManagementClient;
  queuesClient : ManagementClient;
  topicsClient : ManagementClient;
  subClient : ManagementClient
}.

(** Before [init] runs every variable holds the zero value of its type. *)
Definition zero_clients : Clients := {|
  groupsClient := zero_client Groups;
  namespaceClient := zero_client Namespaces;
  queuesClient := zero_client Queues;
  topicsClient := zero_client Topics;
  subClient := zero_client Subscriptions
|}.

Definition set_groupsClient (c : ManagementClient) (cs : Clients) : Clients :=
  {| groupsClient := c; namespaceClient := namespaceClient cs;
     queuesClient := queuesClient cs; topicsClient := topicsClient cs;
     subClient := subClient cs |}.
Definition set_namespaceClient (c : ManagementClient) (cs : Clients) : Clients :=
  {| groupsClient := groupsClient cs; namespaceClient := c;
     queuesClient := queuesClient cs; topicsClient := topicsClient cs;
     subClient := subClient cs |}.
Definition set_queuesClient (c : ManagementClient) (cs : Clients) : Clients :=
  {| groupsClient := groupsClient cs; namespaceClient := namespaceClient cs;
     queuesClient := c; topicsClient := topicsClient cs;
     subClient := subClient cs |}.
Definition set_topicsClient (c : ManagementClient) (cs : Clients) : Clients :=
  {| groupsClient := groupsClient cs; namespaceClient := namespaceClient cs;
     queuesClient := queuesClient cs; topicsClient := c;
     subClient := subClient cs |}.
Definition set_subClient (c : ManagementClient) (cs : Clients) : Clients :=
  {| groupsClient := groupsClient cs; namespaceClient := namespaceClient cs;
     queuesClient := queuesClient cs; topicsClient := topicsClient cs;
     subClient := c |}.

(** The variable of a given client type. *)
Definition client_of (kind : ClientKind) (cs : Clients) : ManagementClient :=
  match kind with
  | Groups => groupsClient cs
  | Namespaces => namespaceClient cs
  | Queues => queuesClient cs
  | Topics => topicsClient cs
  | Subscriptions => subClient cs
  end.

(** ** Events *)

Inductive Event :=
| EvGetenv (name value : string)
| EvPrint (text : string)
| EvScanln (line : option string)
| EvOAuthConfig (env : Environment) (tenantID : string)
    (config : option OAuthConfig) (err : option goerror)
| EvNewToken (config : OAuthConfig) (clientID secret resource : string)
    (token : option ServicePrincipalToken) (err : option goerror)
| EvCall (client : ManagementClient) (request : Request) (reply : Reply).

#[export] Instance Clients_eq_dec : EqDecision Clients.
Proof. solve_decision. Defined.
#[export] Instance Event_eq_dec : EqDecision Event.
Proof. solve_decision. Defined.

(** ** The world *)

Record World (R : Type) := mkWorld {
  w_env : gmap string string;
  w_stdin : list string;
  w_clients : Clients;
  w_remote : R;
  w_trace : list Event
}.
Arguments mkWorld {R}.
Arguments w_env {R}.
Arguments w_stdin {R}.
Arguments w_clients {R}.
Arguments w_remote {R}.
Arguments w_trace {R}.

Section world.
Context {R : Type}.
Implicit Types (w : World R).

(** The world a process starts in. *)
Definition initial_world (env : gmap string string) (stdin : list string)
    (remote : R) : World R :=
  mkWorld env stdin zero_clients remote [].

Definition add_event (e : Event) w : World R :=
  mkWorld (w_env w) (w_stdin w) (w_clients w) (w_remote w) (w_trace w ++ [e]).
Definition set_remote (r : R) w : World R :=
  mkWorld (w_env w) (w_stdin w) (w_clients w) r (w_trace w).
Definition set_stdin (lines : list string) w : World R :=
  mkWorld (w_env w) lines (w_clients w) (w_remote w) (w_trace w).
Definition upd_clients (f : Clients → Clients) w : World R :=
  mkWorld (w_env w) (w_stdin w) (f (w_clients w)) (w_remote w) (w_trace w).

(** Several events, the first of the list first. *)
Definition add_events (evs : list Event) w : World R :=
  foldl (λ w e, add_event e w) w evs.

(** ** Projections of the log *)

(** What was written to standard output, write by write. *)
Definition printed_of (e : Event) : option string :=
  match e with EvPrint text => Some text | _ => None end.
Definition stdout w : list string := omap printed_of (w_trace w).

(** The text on standard output. *)
Definition stdout_text w : string := foldr String.append "" (stdout w).

(** The management requests issued, in order. *)
Definition request_of (e : Event) : option Request :=
  match e with EvCall _ request _ => Some request | _ => None end.
Definition requests_in (evs : list Event) : list Request := omap request_of evs.
Definition requests w : list Request := requests_in (w_trace w).

(** Whether an event is an interaction with the SDK. *)
Definition is_sdk_event (e : Event) : bool :=
  match e with
  | EvOAuthConfig _ _ _ _ | EvNewToken _ _ _ _ _ _ | EvCall _ _ _ => true
  | _ => false
  end.

(** Whether an event is one of the second phase of the script: a
    management call or a read of standard input. *)
Definition interactive (e : Event) : bool :=
  match e with
  | EvCall _ _ _ | EvScanln _ => true
  | _ => false
  end.

(** Whether an event is the construction of a token. *)
Definition is_token (e : Event) : bool :=
  match e with EvNewToken _ _ _ _ _ _ => true | _ => false end.

(** ** Statements *)

Local Abbreviation Proc := (proc (World R)).

Definition emit (e : Event) : Proc () := modify (add_event e).

(** [os.Getenv(name)]: the value, or the empty string when unset. *)
Definition Getenv (name : string) : Proc string :=
  value ← gets (λ w, default "" (w_env w !! name));
  emit (EvGetenv name value);;
  mret value.

(** [fmt.Printf(format, args...)] and [fmt.Print(s)]. *)
Definition Printf (format : string) (args : list string) : Proc () :=
  emit (EvPrint (Sprintf format args)).
Definition Print (s : string) : Proc () := emit (EvPrint (Sprint s)).

(** [fmt.Scanln(&input)]: one line of standard input, if there is one. *)
Definition Scanln : Proc (option string) :=
  lines ← gets w_stdin;
  match lines with
  | [] => emit (EvScanln None);; mret None
  | line :: rest => modify (set_stdin rest);; emit (EvScanln (Some line));; mret (Some line)
  end.

(** Reading and assigning the package-level variables. *)
Definition global {A} (var : Clients → A) : Proc A := gets (λ w, var (w_clients w)).
Definition assign (set : ManagementClient → Clients → Clients)
    (c : ManagementClient) : Proc () :=
  modify (upd_clients (set c)).
Definition assign_Authorizer (var : Clients → ManagementClient)
    (set : ManagementClient → Clients → Clients)
    (token : option ServicePrincipalToken) : Proc () :=
  modify (upd_clients (λ cs, set (with_Authorizer token (var cs)) cs)).

Context `{!Sdk R}.

(** [env.OAuthConfigForTenant(tenantID)]. *)
Definition OAuthConfigForTenant (env : Environment) (tenantID : string)
    : Proc (option OAuthConfig * option goerror) :=
  r ← gets w_remote;
  let '(res, r') := sdk_OAuthConfigForTenant env tenantID r in
  modify (set_remote r');;
  emit (EvOAuthConfig env tenantID res.1 res.2);;
  mret res.

(** [azure.NewServicePrincipalToken(config, clientID, secret, resource)]. *)
Definition NewServicePrincipalToken (config : OAuthConfig)
    (clientID secret resource : string)
    : Proc (option ServicePrincipalToken * option goerror) :=
  r ← gets w_remote;
  let '(res, r') := sdk_NewServicePrincipalToken config clientID secret resource r in
  modify (set_remote r');;
  emit (EvNewToken config clientID secret resource res.1 res.2);;
  mret res.

(** A method call on a client value. *)
Definition invoke (c : ManagementClient) (request : Request) : Proc Reply :=
  r ← gets w_remote;
  let '(reply, r') := sdk_perform c request r in
  modify (set_remote r');;
  emit (EvCall c request reply);;
  mret reply.

(** A method call on one of the package-level clients, read when the call
    is made. *)
Definition call (var : Clients → ManagementClient) (request : Request) : Proc Reply :=
  c ← global var;
  invoke c request.

End world.

Abbreviation Proc R := (proc (World R)).

(** ** The log only grows *)

(** [extends w w']: [w'] is [w] after some more events; the environment is
    the same. *)
Definition extends {R} (w w' : World R) : Prop :=
  w_trace w `prefix_of` w_trace w' ∧ w_env w' = w_env w.

#[export] Instance extends_preorder {R} : PreOrder (@extends R).
Proof.
  split.
  - by intros w.
  - intros w1 w2 w3 [H1 E1] [H2 E2]. split; [by etrans|congruence].
Qed.

(** [grows P w w']: the log of [w'] is the log of [w] followed by events
    that all satisfy [P]. *)
Definition grows {R} (P : Event → Prop) (w w' : World R) : Prop :=
  ∃ evs, w_trace w' = w_trace w ++ evs ∧ Forall P evs.

#[export] Instance grows_preorder {R} (P : Event → Prop) : PreOrder (@grows R P).
Proof.
  split.
  - intros w. exists []. by rewrite app_nil_r.
  - intros w1 w2 w3 (evs1 & H1 & P1) (evs2 & H2 & P2). exists (evs1 ++ evs2).
    rewrite H2, H1, app_assoc. split; [done|by apply Forall_app].
Qed.

Section facts.
Context {R : Type}.
Implicit Types (w : World R) (e : Event).

Lemma add_event_trace e w : w_trace (add_event e w) = w_trace w ++ [e].
Proof. done. Qed.

Lemma extends_add_event e w : extends w (add_event e w).
Proof. split; [by apply prefix_app_r|done]. Qed.

Lemma add_events_trace evs w : w_trace (add_events evs w) = w_trace w ++ evs.
Proof.
  revert w. induction evs as [|e evs IH]; intros w; simpl.
  - by rewrite app_nil_r.
  - by rewrite IH, add_event_trace, <- app_assoc.
Qed.

Lemma add_events_env evs w : w_env (add_events evs w) = w_env w.
Proof. revert w. induction evs as [|e evs IH]; intros w; [done|]. exact (IH (add_event e w)). Qed.

Lemma add_events_remote evs w : w_remote (add_events evs w) = w_remote w.
Proof. revert w. induction evs as [|e evs IH]; intros w; [done|]. exact (IH (add_event e w)). Qed.

Lemma add_events_clients evs w : w_clients (add_events evs w) = w_clients w.
Proof. revert w. induction evs as [|e evs IH]; intros w; [done|]. exact (IH (add_event e w)). Qed.

Lemma add_events_app evs1 evs2 w :
  add_events (evs1 ++ evs2) w = add_events evs2 (add_events evs1 w).
Proof. apply foldl_app. Qed.

Lemma extends_add_events evs w : extends w (add_events evs w).
Proof. split; [rewrite add_events_trace; by apply prefix_app_r|apply add_events_env]. Qed.

Lemma requests_in_app (evs1 evs2 : list Event) :
  requests_in (evs1 ++ evs2) = requests_in evs1 ++ requests_in evs2.
Proof. apply omap_app. Qed.

Lemma extends_requests w w' : extends w w' → requests w `prefix_of` requests w'.
Proof.
  intros [[evs Hevs] _]. unfold requests. rewrite Hevs, requests_in_app.
  by apply prefix_app_r.
Qed.

(** [grows] through the ways a world changes. *)
Lemma grows_add_event (P : Event → Prop) e w w' :
  P e → grows P w w' → grows P w (add_event e w').
Proof.
  intros He (evs & Hevs & HP). exists (evs ++ [e]). simpl.
  rewrite Hevs, app_assoc. split; [done|]. apply Forall_app. by repeat constructor.
Qed.

Lemma grows_set_remote (P : Event → Prop) r w w' :
  grows P w w' → grows P w (set_remote r w').
Proof. done. Qed.

Lemma grows_upd_clients (P : Event → Prop) f w w' :
  grows P w w' → grows P w (upd_clients f w').
Proof. done. Qed.

(** Standard output and the requests after more events. *)
Lemma stdout_app w w' evs :
  w_trace w' = w_trace w ++ evs → stdout w' = stdout w ++ omap printed_of evs.
Proof. unfold stdout. intros ->. apply omap_app. Qed.

Lemma requests_app w w' evs :
  w_trace w' = w_trace w ++ evs → requests w' = requests w ++ requests_in evs.
Proof. unfold requests. intros ->. apply requests_in_app. Qed.

Lemma printed_prints (lines : list string) : omap printed_of (EvPrint <$> lines) = lines.
Proof. induction lines as [|l lines IH]; [done|]. simpl. by f_equal. Qed.

Lemma requests_in_prints (lines : list string) : requests_in (EvPrint <$> lines) = [].
Proof. by induction lines. Qed.

Lemma requests_in_quiet (evs : list Event) :
  Forall (λ e, interactive e = false) evs → requests_in evs = [].
Proof. unfold requests_in. induction 1 as [|e evs' He _ IH]; [done|]. by destruct e. Qed.

Lemma grows_requests w w' :
  grows (λ e, interactive e = false) w w' → requests w' = requests w.
Proof.
  intros (evs & Hevs & HP). unfold requests.
  rewrite Hevs, requests_in_app, (requests_in_quiet evs) by done. apply app_nil_r.
Qed.

(** *** Run equations of the primitives *)

Lemma run_emit {B} e (k : () → Proc R B) w : (emit e ≫= k) w = k () (add_event e w).
Proof. done. Qed.

Lemma run_Getenv {B} name (k : string → Proc R B) w :
  (Getenv name ≫= k) w
  = k (default "" (w_env w !! name))
      (add_event (EvGetenv name (default "" (w_env w !! name))) w).
Proof. done. Qed.

Lemma run_Printf {B} format args (k : () → Proc R B) w :
  (Printf format args ≫= k) w = k () (add_event (EvPrint (Sprintf format args)) w).
Proof. done. Qed.

Lemma run_Print {B} s (k : () → Proc R B) w :
  (Print s ≫= k) w = k () (add_event (EvPrint s) w).
Proof. done. Qed.

Lemma Scanln_eq w :
  Scanln w
  = (Returned (head (w_stdin w)),
     add_event (EvScanln (head (w_stdin w))) (set_stdin (tail (w_stdin w)) w)).
Proof. unfold Scanln. rewrite run_gets. by destruct w as [env [|line rest] cs r tr]. Qed.

Lemma run_Scanln {B} (k : option string → Proc R B) w :
  (Scanln ≫= k) w
  = k (head (w_stdin w))
      (add_event (EvScanln (head (w_stdin w))) (set_stdin (tail (w_stdin w)) w)).
Proof. by rewrite run_bind, Scanln_eq. Qed.

Lemma run_global {A B} (var : Clients → A) (k : A → Proc R B) w :
  (global var ≫= k) w = k (var (w_clients w)) w.
Proof. done. Qed.

Lemma run_assign {B} set c (k : () → Proc R B) w :
  (assign set c ≫= k) w = k () (upd_clients (set c) w).
Proof. done. Qed.

Lemma run_assign_Authorizer {B} var set token (k : () → Proc R B) w :
  (assign_Authorizer var set token ≫= k) w
  = k () (upd_clients (λ cs, set (with_Authorizer token (var cs)) cs) w).
Proof. done. Qed.

Lemma stable_emit e : stable extends (emit (R := R) e).
Proof. intros w. apply extends_add_event. Qed.

Lemma stable_modify_clients (f : Clients → Clients) :
  stable extends (modify (upd_clients (R := R) f)).
Proof. by intros w. Qed.

Lemma stable_Printf format args : stable extends (Printf (R := R) format args).
Proof. apply stable_emit. Qed.

Lemma stable_Print s : stable extends (Print (R := R) s).
Proof. apply stable_emit. Qed.

Lemma stable_Getenv name : stable extends (Getenv (R := R) name).
Proof. intros w. apply extends_add_event. Qed.

Lemma stable_Scanln : stable extends (Scanln (R := R)).
Proof.
  intros w. unfold final. rewrite Scanln_eq. split; [by apply prefix_app_r|done].
Qed.

Context `{!Sdk R}.

(** The world after an SDK call: the remote state the call leaves and the
    event that records it. *)
Definition after_call (c : ManagementClient) (request : Request) w : World R :=
  add_event (EvCall c request (sdk_perform c request (w_remote w)).1)
    (set_remote (sdk_perform c request (w_remote w)).2 w).

Definition reply_to (c : ManagementClient) (request : Request) w : Reply :=
  (sdk_perform c request (w_remote w)).1.

Lemma extends_after_call c request w : extends w (after_call c request w).
Proof. split; [by apply prefix_app_r|done]. Qed.

Lemma invoke_eq c request w :
  invoke c request w = (Returned (reply_to c request w), after_call c request w).
Proof.
  unfold invoke, reply_to, after_call. rewrite run_gets.
  by destruct (sdk_perform c request (w_remote w)).
Qed.

Lemma run_invoke {B} c request (k : Reply → Proc R B) w :
  (invoke c request ≫= k) w = k (reply_to c request w) (after_call c request w).
Proof. by rewrite run_bind, invoke_eq. Qed.

Lemma run_call {B} var request (k : Reply → Proc R B) w :
  (call var request ≫= k) w
  = k (reply_to (var (w_clients w)) request w)
      (after_call (var (w_clients w)) request w).
Proof. by rewrite run_bind; unfold call; rewrite run_global, invoke_eq. Qed.

(** The answers of the two authentication entry points in a world, and the
    worlds they leave. *)
Definition config_answer (env : Environment) (tenantID : string) w
    : option OAuthConfig * option goerror :=
  (sdk_OAuthConfigForTenant env tenantID (w_remote w)).1.

Definition after_config (env : Environment) (tenantID : string) w : World R :=
  add_event (EvOAuthConfig env tenantID (config_answer env tenantID w).1
               (config_answer env tenantID w).2)
    (set_remote (sdk_OAuthConfigForTenant env tenantID (w_remote w)).2 w).

Definition token_answer (config : OAuthConfig) (clientID secret resource : string) w
    : option ServicePrincipalToken * option goerror :=
  (sdk_NewServicePrincipalToken config clientID secret resource (w_remote w)).1.

Definition after_token (config : OAuthConfig) (clientID secret resource : string) w
    : World R :=
  add_event (EvNewToken config clientID secret resource
               (token_answer config clientID secret resource w).1
               (token_answer config clientID secret resource w).2)
    (set_remote (sdk_NewServicePrincipalToken config clientID secret resource
                   (w_remote w)).2 w).

Lemma OAuthConfigForTenant_eq env tenantID w :
  OAuthConfigForTenant env tenantID w
  = (Returned (config_answer env tenantID w), after_config env tenantID w).
Proof.
  unfold OAuthConfigForTenant, config_answer, after_config, config_answer.
  rewrite run_gets. by destruct (sdk_OAuthConfigForTenant env tenantID (w_remote w)).
Qed.

Lemma run_OAuthConfigForTenant {B} env tenantID
    (k : option OAuthConfig * option goerror → Proc R B) w :
  (OAuthConfigForTenant env tenantID ≫= k) w
  = k (config_answer env tenantID w) (after_config env tenantID w).
Proof. by rewrite run_bind, OAuthConfigForTenant_eq. Qed.

Lemma NewServicePrincipalToken_eq config clientID secret resource w :
  NewServicePrincipalToken config clientID secret resource w
  = (Returned (token_answer config clientID secret resource w),
     after_token config clientID secret resource w).
Proof.
  unfold NewServicePrincipalToken, token_answer, after_token, token_answer.
  rewrite run_gets. by destruct (sdk_NewServicePrincipalToken _ _ _ _ (w_remote w)).
Qed.

Lemma run_NewServicePrincipalToken {B} config clientID secret resource
    (k : option ServicePrincipalToken * option goerror → Proc R B) w :
  (NewServicePrincipalToken config clientID secret resource ≫= k) w
  = k (token_answer config clientID secret resource w)
      (after_token config clientID secret resource w).
Proof. by rewrite run_bind, NewServicePrincipalToken_eq. Qed.

Lemma extends_after_config env tenantID w : extends w (after_config env tenantID w).
Proof. split; [by apply prefix_app_r|done]. Qed.

Lemma extends_after_token config clientID secret resource w :
  extends w (after_token config clientID secret resource w).
Proof. split; [by apply prefix_app_r|done]. Qed.

Lemma stable_invoke c request : stable extends (invoke c request).
Proof. intros w. unfold final. rewrite invoke_eq. apply extends_after_call. Qed.

Lemma stable_call var request : stable extends (call var request).
Proof. intros w. apply (stable_invoke _ _ w). Qed.

Lemma stable_OAuthConfigForTenant env tenantID :
  stable extends (OAuthConfigForTenant env tenantID).
Proof.
  intros w. unfold final. rewrite OAuthConfigForTenant_eq. apply extends_after_config.
Qed.

Lemma stable_NewServicePrincipalToken config clientID secret resource :
  stable extends (NewServicePrincipalToken config clientID secret resource).
Proof.
  intros w. unfold final. rewrite NewServicePrincipalToken_eq. apply extends_after_token.
Qed.

End facts.

#[export] Hint Resolve stable_emit stable_modify_clients stable_Printf stable_Print
  stable_Getenv stable_Scanln stable_invoke stable_call
  stable_OAuthConfigForTenant stable_NewServicePrincipalToken : sb.
