(* ===== verification/Mock.v ===== *)
(** * Stand-ins for the remote service

    Two instances of [Sdk] on which runs of the script can be evaluated,
    so that the theorems proved for every SDK can be applied to concrete
    runs.

    [Script] is the mock client of a test: its answers are fixed in
    advance, what the tenant resolution returns, what the token
    construction returns, and the replies to the management calls, handed
    out one per call in order ([reply_ok] once the list is used up).
    [Steady] is a service that accepts every tenant, credential and
    request and answers [ListKeys] with the same keys each time. *)

From S2P Require Import Prelude Sdk Runtime.

Record Script := {
  config_reply : option OAuthConfig * option goerror;
  token_reply : option ServicePrincipalToken * option goerror;
  replies : list Reply
}.

Definition next_reply (s : Script) : Reply * Script :=
  (default reply_ok (head (replies s)),
   {| config_reply := config_reply s; token_reply := token_reply s;
      replies := tail (replies s) |}).

#[export] Instance mock_sdk : Sdk Script := {|
  sdk_OAuthConfigForTenant _ _ s := (config_reply s, s);
  sdk_NewServicePrincipalToken _ _ _ _ s := (token_reply s, s);
  sdk_perform _ _ s := next_reply s
|}.

(** ** Sample data *)

Definition sample_config : OAuthConfig := {|
  AuthorizeEndpoint := "https://login.microsoftonline.com/contoso/oauth2/authorize";
  TokenEndpoint := "https://login.microsoftonline.com/contoso/oauth2/token";
  DeviceCodeEndpoint := "https://login.microsoftonline.com/contoso/oauth2/devicecode"
|}.

Definition sample_token : ServicePrincipalToken := {|
  spt_oauthConfig := sample_config;
  spt_clientID := "client";
  spt_secret := "secret";
  spt_resource := ResourceManagerEndpoint PublicCloud
|}.

Definition sample_keys : ResourceListKeys := {|
  KeyName := Some "k1";
  PrimaryKey := Some "p1";
  SecondaryKey := Some "s1";
  PrimaryConnectionString := Some "Endpoint=sb://primary";
  SecondaryConnectionString := Some "Endpoint=sb://secondary"
|}.

(** Keys as a stub would give them that sets only the name and the two
    keys. *)
Definition partial_keys : ResourceListKeys := {|
  KeyName := Some "k1";
  PrimaryKey := Some "p1";
  SecondaryKey := Some "s1";
  PrimaryConnectionString := None;
  SecondaryConnectionString := None
|}.

(** An environment with the four variables set. *)
Definition sample_env : gmap string string :=
  <["AZURE_SUBSCRIPTION_ID" := "sub-0001"]>
  (<["AZURE_TENANT_ID" := "contoso"]>
  (<["AZURE_CLIENT_ID" := "client"]>
  (<["AZURE_CLIENT_SECRET" := "secret"]> ∅))).

(** Every answer is a success. *)
Definition all_succeed : Script := {|
  config_reply := (Some sample_config, None);
  token_reply := (Some sample_token, None);
  replies := [reply_ok; reply_ok; reply_ok; reply_with_keys sample_keys]
|}.

(** The [n]-th management call (from 0) fails with [e]; the calls before
    it succeed. *)
Definition fails_at (n : nat) (e : goerror) : Script := {|
  config_reply := (Some sample_config, None);
  token_reply := (Some sample_token, None);
  replies :=
    take n [reply_ok; reply_ok; reply_ok; reply_with_keys sample_keys;
            reply_ok; reply_ok; reply_ok; reply_ok]
    ++ [reply_error e]
|}.

(** The identity provider rejects the tenant, or the credentials. *)
Definition bad_tenant (e : goerror) : Script := {|
  config_reply := (None, Some e);
  token_reply := (Some sample_token, None);
  replies := []
|}.

Definition bad_credentials (e : goerror) : Script := {|
  config_reply := (Some sample_config, None);
  token_reply := (None, Some e);
  replies := []
|}.

(** [ListKeys] answers with keys some of whose fields are nil. *)
Definition keys_partial : Script := {|
  config_reply := (Some sample_config, None);
  token_reply := (Some sample_token, None);
  replies := [reply_ok; reply_ok; reply_ok; reply_with_keys partial_keys]
|}.

(** ** A service that never fails *)

(** The configuration the SDK derives for a tenant: the endpoints of the
    tenant under the environment's Active Directory endpoint. *)
Definition tenant_config (env : Environment) (tenantID : string) : OAuthConfig := {|
  AuthorizeEndpoint :=
    ActiveDirectoryEndpoint env +:+ tenantID +:+ "/oauth2/authorize?api-version=1.0";
  TokenEndpoint :=
    ActiveDirectoryEndpoint env +:+ tenantID +:+ "/oauth2/token?api-version=1.0";
  DeviceCodeEndpoint :=
    ActiveDirectoryEndpoint env +:+ tenantID +:+ "/oauth2/devicecode?api-version=1.0"
|}.

(** Different tenants have different configurations. *)
#[export] Instance tenant_config_inj env : Inj (=) (=) (tenant_config env).
Proof.
  intros t1 t2 [= H _ _]. by apply string_app_inv_l, string_app_inv_r in H.
Qed.

(** A service that accepts every tenant, every credential and every
    request, and answers [ListKeys] with the same keys each time. *)
Record Steady := { steady_keys : ResourceListKeys }.

#[export] Instance steady_sdk : Sdk Steady := {|
  sdk_OAuthConfigForTenant env tenantID s := ((Some (tenant_config env tenantID), None), s);
  sdk_NewServicePrincipalToken config clientID secret resource s :=
    ((Some {| spt_oauthConfig := config; spt_clientID := clientID;
              spt_secret := secret; spt_resource := resource |}, None), s);
  sdk_perform _ request s :=
    (match request with
     | NamespacesListKeys _ _ _ => reply_with_keys (steady_keys s)
     | _ => reply_ok
     end, s)
|}.
