(* ===== verification/Helpers.v ===== *)
(** * The two helpers of example.go

    [getEnvVarOrExit] (lines 173-182) and [onErrorFail] (lines 184-190) are
    the only places where the script ends the process: a required
    environment variable that is unset or empty, and any error an SDK call
    returns, print one line and exit with status 1.

    The theorems give the behaviour of each helper on both of its branches,
    as the outcome and the exact world it leaves, and the run equations the
    later files use to step through a helper inside a sequence. *)

From S2P Require Import Prelude Monad GoFmt Sdk Runtime.

Section helpers.
Context {R : Type}.

(** [func getEnvVarOrExit(varName string) string] *)
Definition getEnvVarOrExit (varName : string) : Proc R string :=
  value ← Getenv varName;
  (if decide (value = "")
   then Printf ("Missing environment variable %s" +:+ nl) [varName];; Exit 1
   else mret ());;
  mret value.

(** [func onErrorFail(err error, message string)] *)
Definition onErrorFail (err : option goerror) (message : string) : Proc R () :=
  match err with
  | Some e => Printf ("%s: %s" +:+ nl) [message; Error e];; Exit 1
  | None => mret ()
  end.

(** The line [getEnvVarOrExit] prints for a missing variable, and the line
    [onErrorFail] prints for an error. *)
Definition missing_line (varName : string) : string :=
  "Missing environment variable " +:+ varName +:+ nl.
Definition failure_line (message : string) (e : goerror) : string :=
  message +:+ ": " +:+ Error e +:+ nl.

(** The value [os.Getenv] gives in a world. *)
Definition env_value (w : World R) (name : string) : string :=
  default "" (w_env w !! name).

End helpers.

Section helpers_facts.
Context {R : Type}.
Implicit Types (w : World R).

Lemma missing_line_eq varName :
  Sprintf ("Missing environment variable %s" +:+ nl) [varName] = missing_line varName.
Proof. reflexivity. Qed.

Lemma failure_line_eq message e :
  Sprintf ("%s: %s" +:+ nl) [message; Error e] = failure_line message e.
Proof. reflexivity. Qed.

(** The environment is the same after any event, and after the SDK's
    entry points. *)
Lemma env_value_add_event e w name : env_value (add_event e w) name = env_value w name.
Proof. done. Qed.

(** ** [getEnvVarOrExit] *)

(** A variable that is set to a non-empty value is returned; the only
    trace of the call is the environment read. *)
Lemma getEnvVarOrExit_set varName w :
  env_value w varName ≠ "" →
  getEnvVarOrExit varName w
  = (Returned (env_value w varName),
     add_event (EvGetenv varName (env_value w varName)) w).
Proof.
  intros Hv. unfold getEnvVarOrExit. rewrite run_Getenv.
  fold (env_value w varName). by rewrite decide_False.
Qed.

(** A variable that is unset or empty ends the process with status 1,
    after one line that names the variable. *)
Lemma getEnvVarOrExit_missing varName w :
  env_value w varName = "" →
  getEnvVarOrExit varName w
  = (Exited 1,
     add_event (EvPrint (missing_line varName)) (add_event (EvGetenv varName "") w)).
Proof.
  intros Hv. unfold getEnvVarOrExit. rewrite run_Getenv.
  fold (env_value w varName). rewrite Hv. reflexivity.
Qed.

(** Inside a sequence. *)
Lemma run_getEnvVarOrExit {B} varName (k : string → Proc R B) w :
  (getEnvVarOrExit varName ≫= k) w =
  if decide (env_value w varName = "")
  then (Exited 1,
        add_event (EvPrint (missing_line varName)) (add_event (EvGetenv varName "") w))
  else k (env_value w varName) (add_event (EvGetenv varName (env_value w varName)) w).
Proof.
  case_decide as Hv.
  - by erewrite bind_exited by by apply getEnvVarOrExit_missing.
  - by erewrite bind_returned by by apply getEnvVarOrExit_set.
Qed.

(** What [getEnvVarOrExit] returns is never empty. *)
Lemma getEnvVarOrExit_nonempty varName w value w' :
  getEnvVarOrExit varName w = (Returned value, w') → value ≠ "".
Proof.
  destruct (decide (env_value w varName = "")) as [Hv|Hv].
  - by rewrite getEnvVarOrExit_missing.
  - rewrite getEnvVarOrExit_set by done. by intros [= <- _].
Qed.

Lemma stable_getEnvVarOrExit varName : stable extends (getEnvVarOrExit (R := R) varName).
Proof.
  intros w. unfold final. destruct (decide (env_value w varName = "")) as [Hv|Hv].
  - rewrite getEnvVarOrExit_missing by done. simpl.
    etrans; [apply (extends_add_event (EvGetenv varName ""))|apply extends_add_event].
  - rewrite getEnvVarOrExit_set by done. apply extends_add_event.
Qed.

(** ** [onErrorFail] *)

Lemma onErrorFail_nil message w : onErrorFail None message w = (Returned (), w).
Proof. done. Qed.

Lemma onErrorFail_error e message w :
  onErrorFail (Some e) message w
  = (Exited 1, add_event (EvPrint (failure_line message e)) w).
Proof. reflexivity. Qed.

Lemma run_onErrorFail {B} err message (k : () → Proc R B) w :
  (onErrorFail err message ≫= k) w =
  match err with
  | Some e => (Exited 1, add_event (EvPrint (failure_line message e)) w)
  | None => k () w
  end.
Proof. by destruct err. Qed.

Lemma stable_onErrorFail err message : stable extends (onErrorFail (R := R) err message).
Proof. intros w. destruct err; [apply extends_add_event|done]. Qed.

(** [onErrorFail] never returns with an error in hand. *)
Lemma onErrorFail_returned err message w w' :
  onErrorFail err message w = (Returned (), w') → err = None ∧ w' = w.
Proof. destruct err; [done|]. by intros [= <-]. Qed.

(** ** The helpers on both branches *)

(** C30. [getEnvVarOrExit] reads the variable once.  When the value is
    empty (the variable unset, or set to the empty string) it prints the
    line [Missing environment variable NAME] and exits with status 1;
    otherwise it returns the value and prints nothing. *)
Theorem getEnvVarOrExit_behaviour varName w :
  getEnvVarOrExit varName w =
  if decide (env_value w varName = "")
  then (Exited 1,
        add_events [EvGetenv varName "";
                    EvPrint ("Missing environment variable " +:+ varName +:+ nl)] w)
  else (Returned (env_value w varName),
        add_events [EvGetenv varName (env_value w varName)] w).
Proof.
  case_decide as Hv; [by apply getEnvVarOrExit_missing|by apply getEnvVarOrExit_set].
Qed.

(** C31. [onErrorFail] returns at once on a nil error and changes
    nothing; on an error it prints [message: error] followed by a newline
    and exits with status 1. *)
Theorem onErrorFail_behaviour err message w :
  onErrorFail err message w =
  match err with
  | None => (Returned (), w)
  | Some e => (Exited 1, add_events [EvPrint (message +:+ ": " +:+ Error e +:+ nl)] w)
  end.
Proof. destruct err; [apply onErrorFail_error|done]. Qed.

End helpers_facts.

#[export] Hint Resolve stable_getEnvVarOrExit stable_onErrorFail : sb.
