(* ===== verification/Startup.v ===== *)
(** * Start-up: credentials, token, clients

    [init] (example.go, lines 38-51) runs before [main].  It reads the
    subscription and the tenant, resolves the tenant's OAuth configuration,
    reads the client id and the client secret, builds the service principal
    token and hands it with the subscription to [createClients] (lines
    156-171), which fills the five package-level client variables.

    The theorems: [createClients] leaves every client with the same
    subscription and the same token and touches nothing else; [init] is
    characterised on each of its eight ways out (four missing variables, two
    SDK errors, a nil configuration, success) by [init_eq]; it returns
    exactly when the variables are set and the SDK answered without error
    ([init_returns_iff]), and then the log has grown by the handshake and
    the clients are the authorised ones ([init_returned]); however it ends
    it has made no management call and has built a token only after
    reading the four variables. *)

From S2P Require Import Prelude Monad GoFmt Sdk Runtime Helpers.

Section startup.
Context {R : Type} `{!Sdk R}.

(** [func createClients(subID string, token *azure.ServicePrincipalToken)] *)
Definition createClients (subID : string) (token : option ServicePrincipalToken)
    : Proc R () :=
  assign set_groupsClient (NewClient Groups subID);;
  assign_Authorizer groupsClient set_groupsClient token;;
  assign set_namespaceClient (NewClient Namespaces subID);;
  assign_Authorizer namespaceClient set_namespaceClient token;;
  assign set_queuesClient (NewClient Queues subID);;
  assign_Authorizer queuesClient set_queuesClient token;;
  assign set_topicsClient (NewClient Topics subID);;
  assign_Authorizer topicsClient set_topicsClient token;;
  assign set_subClient (NewClient Subscriptions subID);;
  assign_Authorizer subClient set_subClient token.

(** [func init()] *)
Definition init : Proc R () :=
  subscriptionID ← getEnvVarOrExit "AZURE_SUBSCRIPTION_ID";
  tenantID ← getEnvVarOrExit "AZURE_TENANT_ID";
  '(oauthConfig, err) ← OAuthConfigForTenant PublicCloud tenantID;
  onErrorFail err "OAuthConfigForTenant failed";;
  clientID ← getEnvVarOrExit "AZURE_CLIENT_ID";
  clientSecret ← getEnvVarOrExit "AZURE_CLIENT_SECRET";
  config ← deref oauthConfig;
  '(spToken, err) ← NewServicePrincipalToken config clientID clientSecret
                       (ResourceManagerEndpoint PublicCloud);
  onErrorFail err "NewServicePrincipalToken failed";;
  createClients subscriptionID spToken.

End startup.

(** The clients [createClients] builds: one of each type, all for the same
    subscription and with the same authorizer. *)
Definition authorized (subID : string) (token : option ServicePrincipalToken)
    (kind : ClientKind) : ManagementClient :=
  with_Authorizer token (NewClient kind subID).

Definition authorized_clients (subID : string) (token : option ServicePrincipalToken)
    : Clients := {|
  groupsClient := authorized subID token Groups;
  namespaceClient := authorized subID token Namespaces;
  queuesClient := authorized subID token Queues;
  topicsClient := authorized subID token Topics;
  subClient := authorized subID token Subscriptions
|}.

(** The environment variables [init] requires, in the order it reads them. *)
Definition required_variables : list string :=
  ["AZURE_SUBSCRIPTION_ID"; "AZURE_TENANT_ID"; "AZURE_CLIENT_ID"; "AZURE_CLIENT_SECRET"].

(** ** [createClients] *)

Section createClients_facts.
Context {R : Type}.
Implicit Types (w : World R).

(** [createClients] returns, and the only thing it changes is the client
    variables, which become the authorised clients whatever they held. *)
Lemma createClients_eq subID token w :
  createClients subID token w
  = (Returned (), upd_clients (λ _, authorized_clients subID token) w).
Proof. done. Qed.

Lemma run_createClients {B} subID token (k : () → Proc R B) w :
  (createClients subID token ≫= k) w
  = k () (upd_clients (λ _, authorized_clients subID token) w).
Proof. by rewrite run_bind, createClients_eq. Qed.

(** Every client has the type of its variable, the subscription and the
    token. *)
Lemma authorized_clients_of subID token kind :
  client_of kind (authorized_clients subID token)
  = {| client_kind := kind; SubscriptionID := subID; Authorizer := token |}.
Proof. by destruct kind. Qed.

(** C32. [createClients] always returns; afterwards each of the five
    client variables holds a client of its own type for the given
    subscription with the given token as authorizer, whatever the
    variables held before; nothing else in the world changes. *)
Theorem createClients_behaviour subID token w :
  (createClients subID token w).1 = Returned () ∧
  (∀ kind, client_of kind (w_clients (createClients subID token w).2)
           = {| client_kind := kind; SubscriptionID := subID; Authorizer := token |}) ∧
  upd_clients (λ _, w_clients w) (createClients subID token w).2 = w.
Proof.
  rewrite createClients_eq. split; [done|]. split; [|by destruct w].
  apply authorized_clients_of.
Qed.

Lemma stable_createClients subID token :
  stable extends (createClients (R := R) subID token).
Proof. by intros w. Qed.

End createClients_facts.

#[export] Hint Resolve stable_createClients : sb.

(** ** [init] *)

Section init_facts.
Context {R : Type} `{!Sdk R}.
Implicit Types (w : World R).

(** The world after [os.Getenv] of a variable. *)
Definition read (name : string) w : World R :=
  add_event (EvGetenv name (env_value w name)) w.

(** The world after a line on standard output. *)
Definition printed (text : string) w : World R := add_event (EvPrint text) w.

Lemma env_value_read name w name' : env_value (read name w) name' = env_value w name'.
Proof. done. Qed.

Lemma env_value_after_config env tenantID w name :
  env_value (after_config env tenantID w) name = env_value w name.
Proof. done. Qed.

Lemma run_read {B} varName (k : string → Proc R B) w :
  (getEnvVarOrExit varName ≫= k) w =
  if decide (env_value w varName = "")
  then (Exited 1, printed (missing_line varName) (read varName w))
  else k (env_value w varName) (read varName w).
Proof.
  rewrite run_getEnvVarOrExit. unfold read, printed. case_decide as Hv; [|done].
  by rewrite Hv.
Qed.

(** [init] on each of its eight ways out, as the outcome and the world it
    leaves: a missing variable, an error of either SDK entry point, a nil
    configuration returned without an error, and success. *)
Lemma init_eq w :
  init w =
  let subscriptionID := env_value w "AZURE_SUBSCRIPTION_ID" in
  let tenantID := env_value w "AZURE_TENANT_ID" in
  let clientID := env_value w "AZURE_CLIENT_ID" in
  let clientSecret := env_value w "AZURE_CLIENT_SECRET" in
  let w1 := read "AZURE_SUBSCRIPTION_ID" w in
  let w2 := read "AZURE_TENANT_ID" w1 in
  let w3 := after_config PublicCloud tenantID w2 in
  let w4 := read "AZURE_CLIENT_ID" w3 in
  let w5 := read "AZURE_CLIENT_SECRET" w4 in
  if decide (subscriptionID = "")
  then (Exited 1, printed (missing_line "AZURE_SUBSCRIPTION_ID") w1)
  else if decide (tenantID = "")
  then (Exited 1, printed (missing_line "AZURE_TENANT_ID") w2)
  else match config_answer PublicCloud tenantID w2 with
  | (_, Some e) => (Exited 1, printed (failure_line "OAuthConfigForTenant failed" e) w3)
  | (oauthConfig, None) =>
    if decide (clientID = "")
    then (Exited 1, printed (missing_line "AZURE_CLIENT_ID") w4)
    else if decide (clientSecret = "")
    then (Exited 1, printed (missing_line "AZURE_CLIENT_SECRET") w5)
    else match oauthConfig with
    | None => (Panicked nil_dereference, w5)
    | Some config =>
      let resource := ResourceManagerEndpoint PublicCloud in
      let w6 := after_token config clientID clientSecret resource w5 in
      match token_answer config clientID clientSecret resource w5 with
      | (_, Some e) =>
          (Exited 1, printed (failure_line "NewServicePrincipalToken failed" e) w6)
      | (spToken, None) =>
          (Returned (), upd_clients (λ _, authorized_clients subscriptionID spToken) w6)
      end
    end
  end.
Proof.
  unfold init. cbv zeta. rewrite run_read. case_decide; [done|].
  rewrite run_read, env_value_read. case_decide; [done|].
  rewrite run_OAuthConfigForTenant. destruct (config_answer _ _ _) as [config [e|]]; [done|].
  rewrite run_onErrorFail, run_read, env_value_after_config, !env_value_read.
  case_decide; [done|].
  rewrite run_read, env_value_read, env_value_after_config, !env_value_read.
  case_decide; [done|]. destruct config as [config|]; [|done].
  rewrite run_deref_some, run_NewServicePrincipalToken.
  destruct (token_answer _ _ _ _ _) as [spToken [e|]]; [done|].
  by rewrite run_onErrorFail, createClients_eq.
Qed.

(** What [init] adds to the log when it returns: the four reads, the
    tenant's configuration and the token, both obtained without error. *)
Definition handshake w (config : OAuthConfig) (spToken : option ServicePrincipalToken)
    : list Event :=
  let tenantID := env_value w "AZURE_TENANT_ID" in
  let clientID := env_value w "AZURE_CLIENT_ID" in
  let clientSecret := env_value w "AZURE_CLIENT_SECRET" in
  [EvGetenv "AZURE_SUBSCRIPTION_ID" (env_value w "AZURE_SUBSCRIPTION_ID");
   EvGetenv "AZURE_TENANT_ID" tenantID;
   EvOAuthConfig PublicCloud tenantID (Some config) None;
   EvGetenv "AZURE_CLIENT_ID" clientID;
   EvGetenv "AZURE_CLIENT_SECRET" clientSecret;
   EvNewToken config clientID clientSecret (ResourceManagerEndpoint PublicCloud)
     spToken None].

(** [init] returns only one way: the four variables are set, both SDK
    entry points answered without error, the log has grown by exactly the
    handshake, the five client variables hold the authorised clients for
    the subscription and the token, and the environment and standard input
    are untouched. *)
Lemma init_returned w w' :
  init w = (Returned (), w') →
  ∃ config spToken,
    w_trace w' = w_trace w ++ handshake w config spToken ∧
    w_clients w' = authorized_clients (env_value w "AZURE_SUBSCRIPTION_ID") spToken ∧
    Forall (λ name, env_value w name ≠ "") required_variables ∧
    w_env w' = w_env w ∧ w_stdin w' = w_stdin w.
Proof.
  rewrite init_eq. cbv zeta.
  destruct (config_answer _ _ _) as [[config|] [e|]] eqn:Hc; repeat case_decide; try done.
  destruct (token_answer _ _ _ _ _) as [spToken [e|]] eqn:Ht; [done|].
  intros [= <-]. exists config, spToken. unfold handshake.
  cbn [w_trace w_clients w_env w_stdin upd_clients after_token add_event set_remote
       after_config read].
  cbn [ResourceManagerEndpoint PublicCloud] in Ht.
  rewrite Hc, Ht, <- !app_assoc. split_and!; [done..|by repeat constructor|done|done].
Qed.

(** [init] returns when the variables are set and the two entry points of
    the SDK answer without error: the service is left as the token
    construction left it, the clients are the authorised ones, and the
    log has grown by the handshake. *)
Lemma init_succeeds w config r1 spToken r2 :
  Forall (λ name, env_value w name ≠ "") required_variables →
  sdk_OAuthConfigForTenant PublicCloud (env_value w "AZURE_TENANT_ID") (w_remote w)
  = ((Some config, None), r1) →
  sdk_NewServicePrincipalToken config (env_value w "AZURE_CLIENT_ID")
    (env_value w "AZURE_CLIENT_SECRET") (ResourceManagerEndpoint PublicCloud) r1
  = ((spToken, None), r2) →
  ∃ w', init w = (Returned (), w') ∧ w_remote w' = r2 ∧
        w_clients w' = authorized_clients (env_value w "AZURE_SUBSCRIPTION_ID") spToken ∧
        w_trace w' = w_trace w ++ handshake w config spToken.
Proof.
  intros (H1 & H2 & H3 & H4 & _)%Forall_cons_1_4 Hc Ht.
  rewrite init_eq. cbv zeta. rewrite !decide_False by done.
  unfold config_answer at 1. cbn [w_remote read add_event]. rewrite Hc.
  cbn [fst snd]. rewrite !decide_False by done.
  unfold token_answer at 1, after_token, token_answer, after_config, config_answer.
  cbn [w_remote read add_event set_remote]. rewrite Hc. cbn [fst snd].
  rewrite Ht. cbn [fst snd].
  eexists. split; [done|]. split_and!; [done..|].
  cbn [w_trace upd_clients add_event set_remote read]. by rewrite <- !app_assoc.
Qed.

(** When the variables are set and the tenant resolves but the token
    construction returns an error, [init] prints the failure and exits
    with status 1; the service is left as the construction left it. *)
Lemma init_token_fails w config r1 spToken e r2 :
  Forall (λ name, env_value w name ≠ "") required_variables →
  sdk_OAuthConfigForTenant PublicCloud (env_value w "AZURE_TENANT_ID") (w_remote w)
  = ((Some config, None), r1) →
  sdk_NewServicePrincipalToken config (env_value w "AZURE_CLIENT_ID")
    (env_value w "AZURE_CLIENT_SECRET") (ResourceManagerEndpoint PublicCloud) r1
  = ((spToken, Some e), r2) →
  ∃ w', init w = (Exited 1, w') ∧ w_remote w' = r2 ∧
        w_trace w'
        = w_trace w ++
          [EvGetenv "AZURE_SUBSCRIPTION_ID" (env_value w "AZURE_SUBSCRIPTION_ID");
           EvGetenv "AZURE_TENANT_ID" (env_value w "AZURE_TENANT_ID");
           EvOAuthConfig PublicCloud (env_value w "AZURE_TENANT_ID") (Some config) None;
           EvGetenv "AZURE_CLIENT_ID" (env_value w "AZURE_CLIENT_ID");
           EvGetenv "AZURE_CLIENT_SECRET" (env_value w "AZURE_CLIENT_SECRET");
           EvNewToken config (env_value w "AZURE_CLIENT_ID")
             (env_value w "AZURE_CLIENT_SECRET") (ResourceManagerEndpoint PublicCloud)
             spToken (Some e);
           EvPrint (failure_line "NewServicePrincipalToken failed" e)].
Proof.
  intros (H1 & H2 & H3 & H4 & _)%Forall_cons_1_4 Hc Ht.
  rewrite init_eq. cbv zeta. rewrite !decide_False by done.
  unfold config_answer at 1. cbn [w_remote read add_event]. rewrite Hc.
  cbn [fst snd]. rewrite !decide_False by done.
  unfold token_answer at 1, after_token, token_answer, after_config, config_answer.
  cbn [w_remote read add_event set_remote]. rewrite Hc. cbn [fst snd].
  rewrite Ht. cbn [fst snd].
  eexists. split; [done|]. split; [done|].
  cbn [w_trace printed add_event set_remote read]. by rewrite <- !app_assoc.
Qed.

(** [init] does not return when one of the variables is unset or empty. *)
Lemma init_missing w name :
  name ∈ required_variables → env_value w name = "" → returned (init w).1 = false.
Proof.
  intros Hin Hv. destruct (init w) as [[[]|code|msg] w'] eqn:Hinit; [|done..].
  apply init_returned in Hinit as (_ & _ & _ & _ & Hne & _).
  rewrite Forall_forall in Hne. by destruct (Hne name Hin).
Qed.

(** [init] exits with status 1 only, and panics only when the SDK gave
    neither a configuration nor an error for the tenant, which the log
    records. *)
Lemma init_stopped w :
  returned (init w).1 = false →
  (init w).1 = Exited 1 ∨
  (init w).1 = Panicked nil_dereference ∧
  EvOAuthConfig PublicCloud (env_value w "AZURE_TENANT_ID") None None ∈ w_trace (init w).2.
Proof.
  rewrite init_eq. cbv zeta.
  destruct (config_answer _ _ _) as [[config|] [e|]] eqn:Hc; repeat case_decide;
    try destruct (token_answer _ _ _ _ _) as [spToken [e'|]];
    cbn [fst snd returned]; intros Hr; try done; try (by left).
  right. split; [done|]. cbn [read add_event w_trace after_config].
  rewrite Hc. rewrite !elem_of_app, !list_elem_of_singleton. auto.
Qed.

(** The worlds in which [init] asks the SDK for the configuration and for
    the token. *)
Definition config_world w : World R :=
  read "AZURE_TENANT_ID" (read "AZURE_SUBSCRIPTION_ID" w).
Definition token_world w : World R :=
  read "AZURE_CLIENT_SECRET"
    (read "AZURE_CLIENT_ID"
       (after_config PublicCloud (env_value w "AZURE_TENANT_ID") (config_world w))).

(** C25. [init] returns exactly when the four variables are set to
    non-empty values, the SDK resolves the tenant to a configuration
    without error, and builds the token from that configuration, the
    client id and the secret without error.  In every other case the
    process ends in [init]. *)
Theorem init_returns_iff w :
  returned (init w).1 = true ↔
  Forall (λ name, env_value w name ≠ "") required_variables ∧
  ∃ config,
    config_answer PublicCloud (env_value w "AZURE_TENANT_ID") (config_world w)
    = (Some config, None) ∧
    (token_answer config (env_value w "AZURE_CLIENT_ID")
       (env_value w "AZURE_CLIENT_SECRET") (ResourceManagerEndpoint PublicCloud)
       (token_world w)).2 = None.
Proof.
  rewrite init_eq. cbv zeta. unfold required_variables, token_world, config_world.
  rewrite !Forall_cons, Forall_nil. split.
  - destruct (config_answer _ _ _) as [[config|] [e|]] eqn:Hc; repeat case_decide;
      try done.
    destruct (token_answer _ _ _ _ _) as [spToken [e'|]] eqn:Ht; [done|].
    intros _. split; [by split_and!|]. exists config. by rewrite Ht.
  - intros ((H1 & H2 & H3 & H4 & _) & config & -> & Ht).
    rewrite !decide_False by done.
    by destruct (token_answer _ _ _ _ _) as [spToken [e'|]].
Qed.

(** However [init] ends, it has made no management call and has not read
    standard input. *)
Lemma init_events w : grows (λ e, interactive e = false) w (init w).2.
Proof.
  rewrite init_eq. cbv zeta.
  destruct (config_answer _ _ _) as [[config|] [e|]]; repeat case_decide;
    try destruct (token_answer _ _ _ _ _) as [spToken [e'|]];
    unfold printed, read, after_config, after_token; cbn [snd];
    repeat first [apply grows_add_event; [done|]|apply grows_set_remote
                 |apply grows_upd_clients];
    reflexivity.
Qed.

(** [init] builds a token only after it has read the four variables
    non-empty. *)
Lemma init_tokens w :
  grows (λ e, is_token e = true → Forall (λ name, env_value w name ≠ "") required_variables)
    w (init w).2.
Proof.
  rewrite init_eq. cbv zeta.
  destruct (config_answer _ _ _) as [[config|] [e|]]; repeat case_decide;
    try destruct (token_answer _ _ _ _ _) as [spToken [e'|]];
    unfold printed, read, after_config, after_token; cbn [snd];
    repeat first [apply grows_add_event; [first [done|intros _; by repeat constructor]|]
                 |apply grows_set_remote|apply grows_upd_clients];
    reflexivity.
Qed.

Lemma init_requests w : requests (init w).2 = requests w.
Proof. apply grows_requests, init_events. Qed.

End init_facts.
