(* ===== verification/Provision.v ===== *)
(** * The provisioning steps

    The names the script fixes (example.go, lines 29-35), the parameters it
    builds for each call, and its eight steps (lines 69-154): create the
    resource group, the namespace, the authorization rule, list the rule's
    keys, create the queue, the topic, the subscription, and delete the
    resource group.  Each step prints a progress line, makes one call on a
    package-level client and hands the error to [onErrorFail]; [listKeys]
    then dereferences and prints the five fields of the keys.

    [api_step] is the shape seven of the steps share and [Step] what
    distinguishes one step from another; each of the seven is shown equal
    to [perform] of its [Step], and the behaviour of the shape is proved
    once, on both branches.  [listKeys] is characterised on every branch
    by [listKeys_eq]: failure of the call, a nil field among the five
    (which panics after the lines before it), success.  [step_events]
    gives what a step adds to the log.  The theorems with hypotheses are
    applied to concrete worlds on the scripted SDK of Mock.v. *)

From S2P Require Import Prelude Monad GoFmt Sdk Runtime Mock Helpers.

(** ** Names (lines 29-35) *)

Definition location : string := "westus".
Definition resourceGroupName : string := "azure-sample".
Definition namespaceName : string := "golangrocksonazure".
Definition authRuleName : string := "authrule".
Definition queueName : string := "queue1".
Definition topicName : string := "topic1".
Definition subscriptionName : string := "sub1".

(** ** Parameters *)

Definition groupParams : Group :=
  {| group_Location := to.StringPtr location |}.

Definition namespaceParams : NamespaceCreateOrUpdateParameters :=
  {| ns_Location := to.StringPtr location;
     ns_Sku := Some {| sku_Tier := SkuTierStandard; sku_Name := Standard |} |}.

Definition ruleParams : SharedAccessAuthorizationRuleCreateOrUpdateParameters :=
  {| rule_Properties := Some {| rule_Rights := Some [Listen; Manage; Send] |} |}.

Definition queueParams : QueueCreateOrUpdateParameters :=
  {| queue_Location := to.StringPtr location;
     queue_Properties := Some {| queue_EnablePartitioning := to.BoolPtr true |} |}.

Definition topicsParams : TopicCreateOrUpdateParameters :=
  {| topic_Location := to.StringPtr location;
     topic_Properties := Some {| topic_EnablePartitioning := to.BoolPtr true |} |}.

Definition subParams : SubscriptionCreateOrUpdateParameters :=
  {| sub_Location := to.StringPtr location |}.

(** ** Steps *)

Section steps.
Context {R : Type} `{!Sdk R}.

(** [func createResourceGroup()] *)
Definition createResourceGroup : Proc R () :=
  Printf ("Creating resource group '%s'..." +:+ nl) [resourceGroupName];;
  reply ← call groupsClient (GroupsCreateOrUpdate resourceGroupName groupParams);
  onErrorFail (reply_err reply) "Group create failed".

(** [func createNamespace()] *)
Definition createNamespace : Proc R () :=
  Printf ("Creating namespace '%s'..." +:+ nl) [namespaceName];;
  reply ← call namespaceClient
            (NamespacesCreateOrUpdate resourceGroupName namespaceName namespaceParams);
  onErrorFail (reply_err reply) "Namespace create failed".

(** [func createAuthRule()] *)
Definition createAuthRule : Proc R () :=
  Printf ("Creating authorization rule '%s' for namespace '%s'..." +:+ nl)
    [authRuleName; namespaceName];;
  reply ← call namespaceClient
            (NamespacesCreateOrUpdateAuthorizationRule resourceGroupName namespaceName
               authRuleName ruleParams);
  onErrorFail (reply_err reply) "Authorization rule create failed".

(** [func listKeys()] *)
Definition listKeys : Proc R () :=
  Printf ("List keys for '%s' namespace..." +:+ nl) [namespaceName];;
  reply ← call namespaceClient
            (NamespacesListKeys resourceGroupName namespaceName authRuleName);
  let keys := reply_keys reply in
  onErrorFail (reply_err reply) "List keys failed";;
  v ← deref (KeyName keys);
  Printf (tab +:+ "Key name: %s" +:+ nl) [v];;
  v ← deref (PrimaryKey keys);
  Printf (tab +:+ "Primary key: %s" +:+ nl) [v];;
  v ← deref (SecondaryKey keys);
  Printf (tab +:+ "Secondary key: %s" +:+ nl) [v];;
  v ← deref (PrimaryConnectionString keys);
  Printf (tab +:+ "Primary connection string: %s" +:+ nl) [v];;
  v ← deref (SecondaryConnectionString keys);
  Printf (tab +:+ "Secondary connection string: %s" +:+ nl) [v].

(** [func createQueue()] *)
Definition createQueue : Proc R () :=
  Printf ("Creating queue '%s'..." +:+ nl) [queueName];;
  reply ← call queuesClient
            (QueuesCreateOrUpdate resourceGroupName namespaceName queueName queueParams);
  onErrorFail (reply_err reply) "Queue create failed".

(** [func createTopic()] *)
Definition createTopic : Proc R () :=
  Printf ("Creating topic '%s'..." +:+ nl) [topicName];;
  reply ← call topicsClient
            (TopicsCreateOrUpdate resourceGroupName namespaceName topicName topicsParams);
  onErrorFail (reply_err reply) "Topic create failed".

(** [func createSubscription()] *)
Definition createSubscription : Proc R () :=
  Printf ("Creating subscription '%s'..." +:+ nl) [subscriptionName];;
  reply ← call subClient
            (SubscriptionsCreateOrUpdate resourceGroupName namespaceName topicName
               subscriptionName subParams);
  onErrorFail (reply_err reply) "Subscription create failed".

(** [func deleteResourceGroup()] *)
Definition deleteResourceGroup : Proc R () :=
  Printf ("Deleting resource group '%s'..." +:+ nl) [resourceGroupName];;
  reply ← call groupsClient (GroupsDelete resourceGroupName);
  onErrorFail (reply_err reply) "Group delete failed".

(** ** The shape of a step *)

(** Print a line, make one call, fail on its error. *)
Definition api_step (line : string) (var : Clients → ManagementClient)
    (request : Request) (message : string) : Proc R () :=
  Print line;;
  reply ← call var request;
  onErrorFail (reply_err reply) message.

End steps.

(** The request of each step. *)
Definition createResourceGroup_request : Request :=
  GroupsCreateOrUpdate resourceGroupName groupParams.
Definition createNamespace_request : Request :=
  NamespacesCreateOrUpdate resourceGroupName namespaceName namespaceParams.
Definition createAuthRule_request : Request :=
  NamespacesCreateOrUpdateAuthorizationRule resourceGroupName namespaceName
    authRuleName ruleParams.
Definition listKeys_request : Request :=
  NamespacesListKeys resourceGroupName namespaceName authRuleName.
Definition createQueue_request : Request :=
  QueuesCreateOrUpdate resourceGroupName namespaceName queueName queueParams.
Definition createTopic_request : Request :=
  TopicsCreateOrUpdate resourceGroupName namespaceName topicName topicsParams.
Definition createSubscription_request : Request :=
  SubscriptionsCreateOrUpdate resourceGroupName namespaceName topicName
    subscriptionName subParams.
Definition deleteResourceGroup_request : Request := GroupsDelete resourceGroupName.

(** ** The steps as data *)

(** What distinguishes one step from another: the progress line, the
    client variable the call goes through (by its type), the request, and
    the message [onErrorFail] is given. *)
Record Step := {
  step_line : string;
  step_client : ClientKind;
  step_request : Request;
  step_message : string
}.

#[export] Instance Step_eq_dec : EqDecision Step.
Proof. solve_decision. Defined.

Definition createResourceGroup_step : Step := {|
  step_line := "Creating resource group 'azure-sample'..." +:+ nl;
  step_client := Groups;
  step_request := createResourceGroup_request;
  step_message := "Group create failed"
|}.
Definition createNamespace_step : Step := {|
  step_line := "Creating namespace 'golangrocksonazure'..." +:+ nl;
  step_client := Namespaces;
  step_request := createNamespace_request;
  step_message := "Namespace create failed"
|}.
Definition createAuthRule_step : Step := {|
  step_line :=
    "Creating authorization rule 'authrule' for namespace 'golangrocksonazure'..." +:+ nl;
  step_client := Namespaces;
  step_request := createAuthRule_request;
  step_message := "Authorization rule create failed"
|}.
Definition listKeys_step : Step := {|
  step_line := "List keys for 'golangrocksonazure' namespace..." +:+ nl;
  step_client := Namespaces;
  step_request := listKeys_request;
  step_message := "List keys failed"
|}.
Definition createQueue_step : Step := {|
  step_line := "Creating queue 'queue1'..." +:+ nl;
  step_client := Queues;
  step_request := createQueue_request;
  step_message := "Queue create failed"
|}.
Definition createTopic_step : Step := {|
  step_line := "Creating topic 'topic1'..." +:+ nl;
  step_client := Topics;
  step_request := createTopic_request;
  step_message := "Topic create failed"
|}.
Definition createSubscription_step : Step := {|
  step_line := "Creating subscription 'sub1'..." +:+ nl;
  step_client := Subscriptions;
  step_request := createSubscription_request;
  step_message := "Subscription create failed"
|}.
Definition deleteResourceGroup_step : Step := {|
  step_line := "Deleting resource group 'azure-sample'..." +:+ nl;
  step_client := Groups;
  step_request := deleteResourceGroup_request;
  step_message := "Group delete failed"
|}.

(** The eight steps in the order [main] takes them. *)
Definition script_steps : list Step :=
  [createResourceGroup_step; createNamespace_step; createAuthRule_step; listKeys_step;
   createQueue_step; createTopic_step; createSubscription_step;
   deleteResourceGroup_step].

(** A step performed: the shape, at the step's line, client, request and
    message. *)
Definition perform {R} `{!Sdk R} (s : Step) : Proc R () :=
  api_step (step_line s) (client_of (step_client s)) (step_request s) (step_message s).

(** ** What [listKeys] prints *)

(** The fields of the keys in the order [listKeys] dereferences them, and
    the label it prints each under. *)
Definition key_values (keys : ResourceListKeys) : list (option string) :=
  [KeyName keys; PrimaryKey keys; SecondaryKey keys;
   PrimaryConnectionString keys; SecondaryConnectionString keys].

Definition key_labels : list string :=
  ["Key name"; "Primary key"; "Secondary key";
   "Primary connection string"; "Secondary connection string"].

Definition key_line (label value : string) : string :=
  tab +:+ label +:+ ": " +:+ value +:+ nl.

(** The values before the first nil pointer of a list. *)
Fixpoint leading_values {A} (l : list (option A)) : list A :=
  match l with
  | Some a :: l' => a :: leading_values l'
  | _ => []
  end.

(** The lines [listKeys] gets to print: one per field, up to the first
    field that is nil. *)
Definition key_lines (keys : ResourceListKeys) : list string :=
  zip_with key_line key_labels (leading_values (key_values keys)).

(** All five fields of the keys are set. *)
Definition keys_complete (keys : ResourceListKeys) : bool :=
  bool_decide (Forall is_Some (key_values keys)).

Section steps_facts.
Context {R : Type} `{!Sdk R}.
Implicit Types (w : World R).

(** ** Behaviour of the shape *)

(** The world after the line and the call of a step. *)
Definition after_step (line : string) (c : ManagementClient) (request : Request) w
    : World R :=
  after_call c request (add_event (EvPrint line) w).

Lemma extends_after_step line c request w : extends w (after_step line c request w).
Proof.
  etrans; [apply (extends_add_event (EvPrint line))|apply extends_after_call].
Qed.

Lemma api_step_eq line var request message w :
  api_step line var request message w =
  let c := var (w_clients w) in
  let w1 := after_step line c request w in
  match reply_err (reply_to c request w) with
  | None => (Returned (), w1)
  | Some e => (Exited 1, add_event (EvPrint (failure_line message e)) w1)
  end.
Proof.
  unfold api_step. rewrite run_Print, run_call.
  change (reply_to _ request (add_event _ w))
    with (reply_to (var (w_clients w)) request w).
  cbv zeta. by destruct (reply_err _).
Qed.

(** A step whose call succeeds returns, having printed its line and made
    its call and nothing else. *)
Lemma api_step_ok line var request message w :
  reply_err (reply_to (var (w_clients w)) request w) = None →
  api_step line var request message w
  = (Returned (), after_step line (var (w_clients w)) request w).
Proof. intros H. rewrite api_step_eq. simpl. by rewrite H. Qed.

(** A step whose call fails ends the process with status 1, after the
    line [message: error]. *)
Lemma api_step_error line var request message w e :
  reply_err (reply_to (var (w_clients w)) request w) = Some e →
  api_step line var request message w
  = (Exited 1, add_event (EvPrint (failure_line message e))
                 (after_step line (var (w_clients w)) request w)).
Proof. intros H. rewrite api_step_eq. simpl. by rewrite H. Qed.

Lemma run_api_step {B} line var request message (k : () → Proc R B) w :
  (api_step line var request message ≫= k) w =
  let c := var (w_clients w) in
  let w1 := after_step line c request w in
  match reply_err (reply_to c request w) with
  | None => k () w1
  | Some e => (Exited 1, add_event (EvPrint (failure_line message e)) w1)
  end.
Proof. rewrite run_bind, api_step_eq. simpl. by destruct (reply_err _). Qed.

Lemma stable_api_step line var request message :
  stable extends (api_step line var request message).
Proof.
  unfold api_step. apply stable_bind; [apply _|auto with sb|intros _].
  apply stable_bind; [apply _|auto with sb|auto with sb].
Qed.

(** ** The steps are instances of the shape *)

Lemma createResourceGroup_shape :
  createResourceGroup (R := R) = perform createResourceGroup_step.
Proof. reflexivity. Qed.

Lemma createNamespace_shape : createNamespace (R := R) = perform createNamespace_step.
Proof. reflexivity. Qed.

Lemma createAuthRule_shape : createAuthRule (R := R) = perform createAuthRule_step.
Proof. reflexivity. Qed.

Lemma createQueue_shape : createQueue (R := R) = perform createQueue_step.
Proof. reflexivity. Qed.

Lemma createTopic_shape : createTopic (R := R) = perform createTopic_step.
Proof. reflexivity. Qed.

Lemma createSubscription_shape :
  createSubscription (R := R) = perform createSubscription_step.
Proof. reflexivity. Qed.

Lemma deleteResourceGroup_shape :
  deleteResourceGroup (R := R) = perform deleteResourceGroup_step.
Proof. reflexivity. Qed.

(** ** [listKeys] *)

(** The progress line of [listKeys]. *)
Definition listKeys_line : string := step_line listKeys_step.

(** [listKeys] on every branch.  A failed call exits with status 1 after
    the failure line.  After a successful call the fields of the keys are
    printed in order up to the first nil one, whose dereference panics; when
    all five are set the step returns. *)
Lemma listKeys_eq w :
  listKeys w =
  let c := namespaceClient (w_clients w) in
  let w1 := after_step listKeys_line c listKeys_request w in
  let reply := reply_to c listKeys_request w in
  match reply_err reply with
  | Some e => (Exited 1, add_event (EvPrint (failure_line "List keys failed" e)) w1)
  | None =>
      (if keys_complete (reply_keys reply) then Returned ()
       else Panicked nil_dereference,
       add_events (EvPrint <$> key_lines (reply_keys reply)) w1)
  end.
Proof.
  unfold listKeys. rewrite run_Printf, run_call.
  change (reply_to _ _ (add_event _ w))
    with (reply_to (namespaceClient (w_clients w)) listKeys_request w).
  cbv zeta. destruct (reply_to _ _ w) as [[[a|] [b|] [c|] [d|] [e|]] [err|]];
    reflexivity.
Qed.

Lemma stable_listKeys : stable extends (listKeys (R := R)).
Proof.
  intros w. unfold final. rewrite listKeys_eq. cbv zeta.
  destruct (reply_err _); simpl; (etrans; [apply extends_after_step|]);
    [apply extends_add_event|apply extends_add_events].
Qed.

(** ** The events of a step *)

(** What a step prints after its call: the failure line when the call
    returned an error; otherwise the lines of the keys for [listKeys] and
    nothing for the other steps. *)
Definition step_output (s : Step) (reply : Reply) : list string :=
  match reply_err reply with
  | Some e => [failure_line (step_message s) e]
  | None => if decide (s = listKeys_step) then key_lines (reply_keys reply) else []
  end.

(** Everything a step adds to the log, given the clients and the reply
    its call received. *)
Definition step_events (cs : Clients) (s : Step) (reply : Reply) : list Event :=
  EvPrint (step_line s)
  :: EvCall (client_of (step_client s) cs) (step_request s) reply
  :: (EvPrint <$> step_output s reply).

(** The reply a step receives in a world. *)
Definition step_reply (s : Step) w : Reply :=
  reply_to (client_of (step_client s) (w_clients w)) (step_request s) w.

Lemma after_step_trace line c request w :
  w_trace (after_step line c request w)
  = w_trace w ++ [EvPrint line; EvCall c request (reply_to c request w)].
Proof. unfold after_step, after_call. simpl. by rewrite <- app_assoc. Qed.

(** A step other than [listKeys] adds its events to the log and leaves
    the client variables alone. *)
Lemma perform_log s w :
  s ≠ listKeys_step →
  w_trace (perform s w).2 = w_trace w ++ step_events (w_clients w) s (step_reply s w) ∧
  w_clients (perform s w).2 = w_clients w.
Proof.
  intros Hs. unfold perform, step_events, step_output, step_reply.
  rewrite api_step_eq, decide_False by done. cbv zeta.
  destruct (reply_err _); cbn [snd];
    by rewrite ?add_event_trace, after_step_trace, <- ?app_assoc.
Qed.

(** So does [listKeys]. *)
Lemma listKeys_log w :
  w_trace (listKeys w).2
  = w_trace w ++ step_events (w_clients w) listKeys_step (step_reply listKeys_step w) ∧
  w_clients (listKeys w).2 = w_clients w.
Proof.
  unfold step_events, step_output, step_reply. rewrite listKeys_eq. cbv zeta.
  change (client_of (step_client listKeys_step) (w_clients w))
    with (namespaceClient (w_clients w)).
  change (step_request listKeys_step) with listKeys_request.
  destruct (reply_err _); cbn [snd fst].
  - by rewrite add_event_trace, after_step_trace, <- ?app_assoc.
  - rewrite add_events_trace, add_events_clients, after_step_trace, <- app_assoc.
    by rewrite decide_True.
Qed.

(** What the events of a step show on standard output and as requests. *)
Lemma step_events_printed cs s reply :
  omap printed_of (step_events cs s reply) = step_line s :: step_output s reply.
Proof. unfold step_events. simpl. by rewrite printed_prints. Qed.

Lemma step_events_requests cs s reply :
  requests_in (step_events cs s reply) = [step_request s].
Proof.
  unfold step_events, requests_in. simpl. f_equal. apply requests_in_prints.
Qed.

(** ** The steps on every branch *)

(** C28. Each step other than [listKeys] prints its progress line and
    issues exactly its one request.  If the call returns no error the
    step returns, having printed nothing more; if it returns an error the
    step prints the failure line and the process exits with status 1. *)
Theorem perform_behaviour s w :
  s ≠ listKeys_step →
  (perform s w).1
  = (if reply_err (step_reply s w) is Some _ then Exited 1 else Returned ()) ∧
  stdout (perform s w).2
  = stdout w ++ step_line s
      :: (if reply_err (step_reply s w) is Some e
          then [failure_line (step_message s) e] else []) ∧
  requests (perform s w).2 = requests w ++ [step_request s].
Proof.
  intros Hs. destruct (perform_log s w Hs) as [Ht _].
  rewrite (stdout_app _ _ _ Ht), (requests_app _ _ _ Ht), step_events_printed,
    step_events_requests.
  unfold perform, step_output, step_reply. rewrite api_step_eq, decide_False by done.
  cbv zeta. by destruct (reply_err _).
Qed.

(** C26. When the call of [listKeys] succeeds but one of the five fields
    of the keys is nil, the process panics with a nil dereference: it has
    printed the progress line and the lines of the fields before the
    first nil one, fewer than five, and nothing else. *)
Theorem listKeys_panics w :
  reply_err (step_reply listKeys_step w) = None →
  keys_complete (reply_keys (step_reply listKeys_step w)) = false →
  (listKeys w).1 = Panicked nil_dereference ∧
  stdout (listKeys w).2
  = stdout w ++ listKeys_line :: key_lines (reply_keys (step_reply listKeys_step w)) ∧
  length (key_lines (reply_keys (step_reply listKeys_step w))) < 5.
Proof.
  intros Herr Hk. destruct (listKeys_log w) as [Ht _].
  rewrite (stdout_app _ _ _ Ht), step_events_printed. unfold step_output.
  rewrite Herr, decide_True by done. rewrite listKeys_eq. cbv zeta.
  change (reply_to _ listKeys_request w) with (step_reply listKeys_step w).
  rewrite Herr, Hk. split_and!; [done..|].
  revert Hk. generalize (reply_keys (step_reply listKeys_step w)).
  intros [[a|] [b|] [c|] [d|] [e|]]; vm_compute; (done || lia).
Qed.

(** C27. When the call of [listKeys] succeeds and the five fields of the
    keys are set, [listKeys] returns after printing the progress line and
    five lines, one per field in the order key name, primary key,
    secondary key, primary and secondary connection string; each line is
    a tab, the label, a colon and a space, the value verbatim, and a
    newline. *)
Theorem listKeys_prints w (values : list string) :
  reply_err (step_reply listKeys_step w) = None →
  key_values (reply_keys (step_reply listKeys_step w)) = Some <$> values →
  (listKeys w).1 = Returned () ∧
  stdout (listKeys w).2
  = stdout w ++ listKeys_line
      :: zip_with (λ label value, tab +:+ label +:+ ": " +:+ value +:+ nl)
           key_labels values.
Proof.
  intros Herr Hv. destruct (listKeys_log w) as [Ht _].
  rewrite (stdout_app _ _ _ Ht), step_events_printed. unfold step_output.
  rewrite Herr, decide_True by done. rewrite listKeys_eq. cbv zeta.
  change (reply_to _ listKeys_request w) with (step_reply listKeys_step w).
  rewrite Herr.
  unfold keys_complete, key_lines. rewrite Hv. split.
  - rewrite bool_decide_true; [done|]. apply Forall_fmap, Forall_true. by eexists.
  - do 3 f_equal. clear. by induction values as [|v values IH]; [|simpl; f_equal].
Qed.

End steps_facts.

(** ** The theorems at concrete worlds *)

(** A world after start-up in which the namespace client answers the next
    call with the given reply. *)
Definition answering (reply : Reply) : World Script :=
  mkWorld sample_env [""] zero_clients
    {| config_reply := (Some sample_config, None);
       token_reply := (Some sample_token, None);
       replies := [reply] |} [].

Lemma perform_behaviour_witness :
  (perform createQueue_step (answering (reply_error (mkError "conflict")))).1 = Exited 1 ∧
  stdout (perform createQueue_step (answering (reply_error (mkError "conflict")))).2
  = ["Creating queue 'queue1'..." +:+ nl; "Queue create failed: conflict" +:+ nl] ∧
  requests (perform createQueue_step (answering (reply_error (mkError "conflict")))).2
  = [createQueue_request].
Proof.
  exact (perform_behaviour createQueue_step
           (answering (reply_error (mkError "conflict"))) ltac:(done)).
Defined.

Lemma listKeys_panics_witness :
  (listKeys (answering (reply_with_keys partial_keys))).1 = Panicked nil_dereference ∧
  stdout (listKeys (answering (reply_with_keys partial_keys))).2
  = [] ++ listKeys_line :: key_lines partial_keys ∧
  length (key_lines partial_keys) < 5.
Proof.
  exact (listKeys_panics (answering (reply_with_keys partial_keys)) eq_refl eq_refl).
Defined.

Lemma listKeys_prints_witness :
  (listKeys (answering (reply_with_keys sample_keys))).1 = Returned () ∧
  stdout (listKeys (answering (reply_with_keys sample_keys))).2
  = [] ++ listKeys_line
      :: zip_with (λ label value, tab +:+ label +:+ ": " +:+ value +:+ nl) key_labels
           ["k1"; "p1"; "s1"; "Endpoint=sb://primary"; "Endpoint=sb://secondary"].
Proof.
  exact (listKeys_prints (answering (reply_with_keys sample_keys))
           ["k1"; "p1"; "s1"; "Endpoint=sb://primary"; "Endpoint=sb://secondary"]
           eq_refl eq_refl).
Defined.

#[export] Hint Resolve stable_api_step stable_listKeys : sb.
