(* ===== verification/Main.v ===== *)
(** * The program

    [main] (example.go, lines 53-67) runs the seven provisioning steps,
    prints the prompt, reads a line from standard input and deletes the
    resource group.  [program] is the whole process: Go runs [init] before
    [main].

    The file holds the definitions only; what is proved of [main] and of
    whole runs is in Traces.v, Refinement.v, Properties.v, Conduct.v and
    Success.v. *)

From S2P Require Import Prelude Monad GoFmt Sdk Runtime Helpers Startup Provision.

Definition prompt : string :=
  "Press enter to delete all the resources created in this sample...".

Section main.
Context {R : Type} `{!Sdk R}.

(** [func main()] *)
Definition main : Proc R () :=
  createResourceGroup;;
  createNamespace;;
  createAuthRule;;
  listKeys;;
  createQueue;;
  createTopic;;
  createSubscription;;
  Print prompt;;
  Scanln;;
  deleteResourceGroup.

(** The process: package initialisation, then [main]. *)
Definition program : Proc R () := init;; main.

(** A run of the process from its start: the environment, the lines on
    standard input and the state of the remote service are given; the
    client variables hold their zero values and nothing has happened
    yet. *)
Definition run (env : gmap string string) (stdin : list string) (remote : R)
    : Outcome () * World R :=
  program (initial_world env stdin remote).

End main.
