(* ===== verification/Traces.v ===== *)
(** * The shape of the log

    What [main] adds to the log is a sequence of blocks: for each step
    taken, its progress line, its call through the client variable of the
    step's type, and what it prints after the call; and the prompt
    followed by the read of standard input.  [main] never assigns the
    client variables.  [performs] is that relation between the world
    before and the world after; it is a preorder, every step satisfies it,
    and so does [main].

    Facts about single events of a run (which client a call went through,
    what was printed just before it) are then facts about lists of blocks,
    proved once on lists.  [run_phases] splits a run of the process into
    its two phases: either [init] ended the process, or it returned and
    [main] performed from the world it left. *)

From S2P Require Import Prelude Monad GoFmt Sdk Runtime Helpers Startup Provision Main.

(** ** Blocks *)

(** One block of the log of [main], for given client variables. *)
Inductive block (cs : Clients) : list Event → Prop :=
| block_step (s : Step) (reply : Reply) :
    s ∈ script_steps → block cs (step_events cs s reply)
| block_gate (line : option string) :
    block cs [EvPrint prompt; EvScanln line].

(** A sequence of blocks. *)
Definition blocks (cs : Clients) (evs : list Event) : Prop :=
  ∃ bs, Forall (block cs) bs ∧ evs = concat bs.

(** [performs w w']: from [w] to [w'] the client variables are unchanged
    and the log has grown by a sequence of blocks. *)
Definition performs {R} (w w' : World R) : Prop :=
  w_clients w' = w_clients w ∧
  ∃ evs, w_trace w' = w_trace w ++ evs ∧ blocks (w_clients w) evs.

(** ** What a block says of its events *)

(** The line that announces an event: the step's progress line for a
    call of the script, the prompt for the read of standard input. *)
Definition step_of (request : Request) : option Step :=
  snd <$> list_find (λ s, step_request s = request) script_steps.

Definition announcement (e : Event) : option string :=
  match e with
  | EvCall _ request _ => step_line <$> step_of request
  | EvScanln _ => Some prompt
  | _ => None
  end.

(** Whether an event is a call of the script through the client variable
    of its request's type, or no call at all. *)
Definition via (cs : Clients) (e : Event) : Prop :=
  match e with
  | EvCall c request _ => request ∈ step_request <$> script_steps ∧
                          c = client_of (request_kind request) cs
  | _ => True
  end.

(** Each event that has an announcement comes right after it. *)
Fixpoint announced (prev : option Event) (evs : list Event) : Prop :=
  match evs with
  | [] => True
  | e :: evs' =>
      (∀ line, announcement e = Some line → prev = Some (EvPrint line))
      ∧ announced (Some e) evs'
  end.

Section blocks_facts.
Context (cs : Clients).
Implicit Types (evs : list Event) (e : Event).

Lemma blocks_nil : blocks cs [].
Proof. by exists []. Qed.

Lemma blocks_app evs1 evs2 : blocks cs evs1 → blocks cs evs2 → blocks cs (evs1 ++ evs2).
Proof.
  intros (bs1 & H1 & ->) (bs2 & H2 & ->). exists (bs1 ++ bs2).
  split; [by apply Forall_app|by rewrite concat_app].
Qed.

Lemma blocks_block evs : block cs evs → blocks cs evs.
Proof. intros H. exists [evs]. split; [by constructor|simpl; by rewrite app_nil_r]. Qed.

(** A property of events that holds throughout every block holds
    throughout every sequence of blocks. *)
Lemma blocks_Forall (P : Event → Prop) evs :
  (∀ b, block cs b → Forall P b) → blocks cs evs → Forall P evs.
Proof.
  intros HP (bs & Hbs & ->). induction Hbs as [|b bs Hb _ IH]; [done|].
  simpl. apply Forall_app. auto.
Qed.

(** The steps of the script call through the client of their request's
    type, and no two share a request. *)
Lemma script_steps_kind s :
  s ∈ script_steps → step_client s = request_kind (step_request s).
Proof. revert s. apply Forall_forall. by repeat constructor. Qed.

Lemma script_steps_step_of s : s ∈ script_steps → step_of (step_request s) = Some s.
Proof. revert s. apply Forall_forall. by repeat constructor. Qed.

Lemma block_via b : block cs b → Forall (via cs) b.
Proof.
  intros [s reply Hs|line]; [|by repeat constructor].
  unfold step_events. apply Forall_cons; split; [done|]. apply Forall_cons; split.
  - split; [by apply list_elem_of_fmap_2|by rewrite script_steps_kind].
  - by apply Forall_fmap, Forall_true.
Qed.

Lemma blocks_via evs : blocks cs evs → Forall (via cs) evs.
Proof. apply blocks_Forall, block_via. Qed.

(** *** Announcements *)

(** Whatever came before, prints need no announcement. *)
Lemma announced_prints prev (lines : list string) : announced prev (EvPrint <$> lines).
Proof. revert prev. induction lines as [|l lines IH]; intros prev; [done|]. by split. Qed.

(** An event list that is announced with nothing before it is announced
    after anything. *)
Lemma announced_weaken prev evs : announced None evs → announced prev evs.
Proof. destruct evs as [|e evs]; [done|]. intros [H1 H2]. split; [|done]. naive_solver. Qed.

Lemma announced_app prev evs1 evs2 :
  announced prev evs1 → announced None evs2 → announced prev (evs1 ++ evs2).
Proof.
  revert prev. induction evs1 as [|e evs1 IH]; intros prev H1 H2.
  - by apply announced_weaken.
  - destruct H1 as [He H1]. split; [done|by apply IH].
Qed.

Lemma block_announced b : block cs b → announced None b.
Proof.
  intros [s reply Hs|line].
  - split; [done|]. split; [|apply announced_prints].
    intros line. simpl. rewrite script_steps_step_of by done. by intros [= <-].
  - split; [done|]. split; [|done]. by intros ? [= <-].
Qed.

Lemma blocks_announced evs : blocks cs evs → announced None evs.
Proof.
  intros (bs & Hbs & ->). induction Hbs as [|b bs Hb _ IH]; [done|].
  simpl. apply announced_app; [by apply block_announced|done].
Qed.

(** What [announced] says of two neighbours of a list. *)
Lemma announced_lookup prev evs i e line :
  announced prev evs →
  evs !! S i = Some e → announcement e = Some line → evs !! i = Some (EvPrint line).
Proof.
  revert prev i. induction evs as [|e0 evs IH]; intros prev i H Hi Ha; [done|].
  destruct H as [_ H]. destruct i as [|i]; [|by eapply IH].
  destruct evs as [|e1 evs]; [done|]. simpl in Hi. injection Hi as ->.
  destruct H as [H _]. exact (H line Ha).
Qed.

End blocks_facts.

(** ** [main] performs *)

Section performs.
Context {R : Type} `{!Sdk R}.
Implicit Types (w : World R).

#[export] Instance performs_preorder : PreOrder (performs (R := R)).
Proof.
  split.
  - intros w. split; [done|]. exists []. split; [by rewrite app_nil_r|apply blocks_nil].
  - intros w1 w2 w3 [Hc1 (evs1 & Ht1 & Hb1)] [Hc2 (evs2 & Ht2 & Hb2)].
    split; [congruence|]. exists (evs1 ++ evs2).
    rewrite Ht2, Ht1, app_assoc. split; [done|]. rewrite Hc1 in Hb2. by apply blocks_app.
Qed.

Lemma performs_block w w' evs :
  w_clients w' = w_clients w → w_trace w' = w_trace w ++ evs →
  block (w_clients w) evs → performs w w'.
Proof. intros Hc Ht Hb. split; [done|]. exists evs. split; [done|by apply blocks_block]. Qed.

Lemma stable_perform s :
  s ∈ script_steps → s ≠ listKeys_step → stable performs (perform (R := R) s).
Proof.
  intros Hs Hk w. destruct (perform_log s w Hk) as [Ht Hc].
  eapply performs_block; [done..|]. by constructor.
Qed.

Lemma stable_performs_listKeys : stable performs (listKeys (R := R)).
Proof.
  intros w. destruct (listKeys_log w) as [Ht Hc].
  eapply performs_block; [done..|]. constructor. compute_done.
Qed.

(** The prompt and the read make one block. *)
Lemma stable_gate : stable performs (Print prompt;; Scanln (R := R)).
Proof.
  intros w. unfold final. rewrite run_Print, Scanln_eq.
  eapply (performs_block _ _ [EvPrint prompt; EvScanln (head (w_stdin w))]);
    [done|simpl; by rewrite <- app_assoc|constructor].
Qed.

(** One statement of [main]: a step, [listKeys], or nothing. *)
Ltac performs_step :=
  first [apply stable_perform; [compute_done|done]
        |apply stable_performs_listKeys
        |apply stable_ret; apply _].

Lemma main_performs : stable performs (main (R := R)).
Proof.
  unfold main.
  rewrite ?createResourceGroup_shape, ?createNamespace_shape, ?createAuthRule_shape,
    ?createQueue_shape, ?createTopic_shape, ?createSubscription_shape,
    ?deleteResourceGroup_shape.
  repeat first
    [apply stable_bind_seq; [apply _|apply stable_gate|intros ?]
    |apply stable_bind; [apply _|performs_step|intros ?]];
    performs_step.
Qed.

(** ** The two phases of a run *)

(** Either [init] ended the process, and the run is the run of [init]; or
    [init] returned, and the world of the run is one that [main] reached
    by performing from the world [init] left. *)
Lemma run_phases env stdin (remote : R) :
  let w0 := initial_world env stdin remote in
  (returned (init w0).1 = false ∧ run env stdin remote = init w0) ∨
  (∃ w1, init w0 = (Returned (), w1) ∧ performs w1 (run env stdin remote).2).
Proof.
  intros w0. unfold run, program. fold w0. rewrite run_bind.
  destruct (init w0) as [[[]|code|msg] w1] eqn:Hinit; [right|by left..].
  exists w1. split; [done|]. apply (main_performs w1).
Qed.

End performs.
