(* ===== verification/Workflow.v ===== *)
(** * The workflow as an abstract state machine

    What the process promises, without its print-outs: a fixed plan of
    actions (read a variable, resolve the tenant, build the token, issue a
    request, wait for input) carried out one after the other; the first
    action that fails aborts the run, a nil pointer that is dereferenced
    crashes it, and nothing is retried or skipped.

    The machine is generic in the plan.  A stage is a position in the plan,
    or the position at which the run was aborted or crashed.  [wf_step] is
    the step relation, [wf_run] its closure over a list of observations,
    [wf_next] and [wf_exec] are the executable versions, proved to agree
    with the relations.  The properties of every run of the machine are
    proved by induction on [wf_run]: its actions are a prefix of the plan, a
    failure is the last observation, a run is determined by its
    observations, final stages have no successor, and a run crashes or
    goes on with a nil configuration only after a nil answer, which it
    does not survive when a token is still due. *)

From S2P Require Import Prelude Sdk Provision.

(** ** Actions, verdicts, stages *)

Inductive Action :=
| ReadVariable (name : string)
| ResolveTenant
| BuildToken
| Issue (request : Request)
| AwaitInput.

(** How an action went: it succeeded, it failed, or it handed back a nil
    pointer without an error. *)
Inductive Verdict := Succeeded | Failed | Nil.

(** An observation: an action and how it went. *)
Definition Obs : Type := Action * Verdict.

Inductive Stage :=
| Running (pc : nat) (config_nil : bool)
| Aborted (pc : nat)
| Crashed (pc : nat).

#[export] Instance Action_eq_dec : EqDecision Action.
Proof. solve_decision. Defined.
#[export] Instance Verdict_eq_dec : EqDecision Verdict.
Proof. solve_decision. Defined.
#[export] Instance Stage_eq_dec : EqDecision Stage.
Proof. solve_decision. Defined.

(** The requests whose result the process dereferences at once. *)
Definition reads_result (a : Action) : bool :=
  match a with
  | Issue (NamespacesListKeys _ _ _) => true
  | _ => false
  end.

Section machine.
Variable plan : list Action.

(** ** The step relation *)

(** The token is built from the tenant's configuration: the machine never
    reaches [BuildToken] once the configuration was nil. *)
Definition enabled (a : Action) (config_nil : bool) : Prop :=
  a = BuildToken → config_nil = false.

Inductive wf_step : Stage → Obs → Stage → Prop :=
| step_succeeded pc a nilc :
    plan !! pc = Some a → enabled a nilc →
    wf_step (Running pc nilc) (a, Succeeded) (Running (S pc) nilc)
| step_failed pc a nilc :
    plan !! pc = Some a → enabled a nilc → a ≠ AwaitInput →
    wf_step (Running pc nilc) (a, Failed) (Aborted pc)
| step_nil_config pc :
    plan !! pc = Some ResolveTenant →
    wf_step (Running pc false) (ResolveTenant, Nil) (Running (S pc) true)
| step_nil_result pc a nilc :
    plan !! pc = Some a → reads_result a = true →
    wf_step (Running pc nilc) (a, Nil) (Crashed pc).

Inductive wf_run : Stage → list Obs → Stage → Prop :=
| run_done s : wf_run s [] s
| run_step s o s' os s'' : wf_step s o s' → wf_run s' os s'' → wf_run s (o :: os) s''.

(** ** The executable machine *)

Definition wf_next (s : Stage) (o : Obs) : option Stage :=
  match s with
  | Running pc nilc =>
      if decide (plan !! pc = Some o.1) then
        match o.2 with
        | Succeeded =>
            if decide (o.1 = BuildToken ∧ nilc = true) then None
            else Some (Running (S pc) nilc)
        | Failed =>
            if decide ((o.1 = BuildToken ∧ nilc = true) ∨ o.1 = AwaitInput) then None
            else Some (Aborted pc)
        | Nil =>
            if decide (o.1 = ResolveTenant ∧ nilc = false)
            then Some (Running (S pc) true)
            else if reads_result o.1 then Some (Crashed pc) else None
        end
      else None
  | _ => None
  end.

Definition wf_exec (s : Stage) (os : list Obs) : option Stage :=
  foldl (λ acc o, acc ≫= λ s, wf_next s o) (Some s) os.

(** ** Final stages *)

(** The exit status of a stage at which the process has ended: 0 at the
    end of the plan, 1 after a failure, 2 after a crash, which is also
    where a nil configuration leads when the token is due. *)
Definition stage_status (s : Stage) : option Z :=
  match s with
  | Running pc nilc =>
      if decide (pc = length plan) then Some 0%Z
      else if decide (plan !! pc = Some BuildToken ∧ nilc = true) then Some 2%Z
      else None
  | Aborted _ => Some 1%Z
  | Crashed _ => Some 2%Z
  end.

(** The position in the plan a stage stands at or ended at. *)
Definition stage_pc (s : Stage) : nat :=
  match s with Running pc _ | Aborted pc | Crashed pc => pc end.

(** ** Agreement of the two machines *)

Lemma wf_next_step s o s' : wf_next s o = Some s' ↔ wf_step s o s'.
Proof.
  split.
  - destruct s as [pc nilc| |]; [|done..]. destruct o as [a v]. simpl.
    intros H. case_decide as Ha; [|done].
    destruct v; repeat case_decide; try destruct (reads_result a) eqn:?;
      destruct_and?; simplify_eq; constructor; unfold enabled; try done;
      try (intros ->; destruct nilc; naive_solver); naive_solver.
  - intros H. inversion H; subst; unfold wf_next, enabled in *; cbn [fst snd];
      repeat case_decide; try done; try naive_solver.
    by destruct (reads_result _).
Qed.

Lemma wf_exec_snoc s os o : wf_exec s (os ++ [o]) = wf_exec s os ≫= λ s', wf_next s' o.
Proof. unfold wf_exec. by rewrite foldl_app. Qed.

Lemma wf_exec_none os : foldl (λ acc o, acc ≫= λ s, wf_next s o) None os = None.
Proof. by induction os. Qed.

Lemma wf_exec_cons s o os :
  wf_exec s (o :: os) = wf_next s o ≫= λ s', wf_exec s' os.
Proof.
  unfold wf_exec. simpl. destruct (wf_next s o); [done|]. apply wf_exec_none.
Qed.

Lemma wf_exec_run s os s' : wf_exec s os = Some s' ↔ wf_run s os s'.
Proof.
  revert s. induction os as [|o os IH]; intros s.
  - split; [intros [= ->]; constructor|by inversion 1].
  - rewrite wf_exec_cons. split.
    + intros (s1 & Hs1 & Hos)%bind_Some.
      econstructor; [by apply wf_next_step|by apply IH].
    + inversion 1; subst. apply bind_Some. eexists. split; [by apply wf_next_step|by apply IH].
Qed.

(** ** Properties of every run *)

(** The machine is deterministic. *)
Lemma wf_step_deterministic s o s1 s2 : wf_step s o s1 → wf_step s o s2 → s1 = s2.
Proof. intros H1%wf_next_step H2%wf_next_step. congruence. Qed.

Lemma wf_run_deterministic s os s1 s2 : wf_run s os s1 → wf_run s os s2 → s1 = s2.
Proof. intros H1%wf_exec_run H2%wf_exec_run. congruence. Qed.

(** A stage with an exit status has no successor. *)
Lemma final_no_step s o s' code : stage_status s = Some code → ¬ wf_step s o s'.
Proof.
  intros Hs H. inversion H as [pc a nilc Ha He|pc a nilc Ha He|pc Ha|pc a nilc Ha Hr];
    subst; unfold stage_status, enabled in *;
    (case_decide; [subst; by rewrite lookup_ge_None_2 in Ha by lia|]);
    case_decide; destruct_and?; simplify_eq; naive_solver.
Qed.

(** Every step is the action the plan has at the current position. *)
Lemma wf_step_action s o s' : wf_step s o s' → plan !! stage_pc s = Some o.1.
Proof. by inversion 1. Qed.

(** A step leaves a running stage, and a stage that is still running has
    moved one position on. *)
Lemma wf_step_running s o s' :
  wf_step s o s' →
  ∃ pc nilc, s = Running pc nilc ∧
    match s' with
    | Running pc' _ => pc' = S pc ∧ o.2 ≠ Failed
    | Aborted pc' => pc' = pc ∧ o.2 = Failed
    | Crashed pc' => pc' = pc ∧ o.2 = Nil
    end.
Proof. inversion 1; subst; eauto 10. Qed.

(** The actions of a run are the plan's, from where the run starts. *)
Lemma wf_run_actions s os s' :
  wf_run s os s' → os.*1 `prefix_of` drop (stage_pc s) plan.
Proof.
  induction 1 as [s|s o s' os s'' Hstep Hrun IH]; [apply prefix_nil|].
  pose proof (wf_step_action _ _ _ Hstep) as Ha.
  destruct (wf_step_running _ _ _ Hstep) as (pc & nilc & -> & Hs'). simpl in *.
  rewrite (drop_S _ _ _ Ha). simpl.
  destruct s' as [pc' nilc'|pc'|pc']; simpl in *; destruct Hs' as [-> Hv].
  - by apply prefix_cons.
  - inversion Hrun as [|? ? ? ? ? Hs _]; subst; [apply prefix_cons, prefix_nil|inversion Hs].
  - inversion Hrun as [|? ? ? ? ? Hs _]; subst; [apply prefix_cons, prefix_nil|inversion Hs].
Qed.

(** From the start of the plan, the actions of a run are a prefix of
    the plan. *)
Lemma wf_run_prefix nilc os s' :
  wf_run (Running 0 nilc) os s' → os.*1 `prefix_of` plan.
Proof. apply wf_run_actions. Qed.

(** A failure, and a nil result, end the run: no observation follows. *)
Lemma wf_run_failed_last s os1 a v os2 s' :
  wf_run s (os1 ++ (a, v) :: os2) s' → v = Failed ∨ (v = Nil ∧ reads_result a = true) →
  os2 = [].
Proof.
  revert s. induction os1 as [|o os1 IH]; intros s Hrun Hv; simpl in Hrun.
  - inversion Hrun as [|? ? s1 ? ? Hstep Hrest]; subst.
    destruct os2 as [|o2 os2]; [done|]. exfalso.
    inversion Hrest as [|? ? ? ? ? Hstep2 _]; subst.
    inversion Hstep; subst; destruct Hv as [?|[? ?]]; simplify_eq; inversion Hstep2.
  - inversion Hrun; subst. eauto.
Qed.

(** Where a run stands after its observations. *)
Lemma wf_run_pc s os s' :
  wf_run s os s' →
  match s' with
  | Running pc' _ => pc' = stage_pc s + length os
  | Aborted pc' | Crashed pc' => S pc' = stage_pc s + length os ∨ s' = s
  end.
Proof.
  induction 1 as [s|s o s' os s'' Hstep Hrun IH].
  - destruct s; simpl; auto with lia.
  - destruct (wf_step_running _ _ _ Hstep) as (pc & nilc & -> & Hs'). simpl.
    destruct s' as [pc' nilc'|pc'|pc']; destruct Hs' as [-> _]; simpl in IH.
    + destruct s''; [lia|destruct IH as [?|?]; [left; lia|done]..].
    + inversion Hrun as [|? ? ? ? ? Hs _]; subst; [left; simpl; lia|inversion Hs].
    + inversion Hrun as [|? ? ? ? ? Hs _]; subst; [left; simpl; lia|inversion Hs].
Qed.

(** A run that stands at the end of the plan has carried out the whole
    plan. *)
Lemma wf_run_complete nilc os nilc' :
  wf_run (Running 0 nilc) os (Running (length plan) nilc') → os.*1 = plan.
Proof.
  intros Hrun. pose proof (wf_run_pc _ _ _ Hrun) as Hpc. simpl in Hpc.
  apply wf_run_prefix in Hrun. apply prefix_length_eq; [done|].
  by rewrite length_fmap, Hpc.
Qed.

(** A run whose last observation is a failure ends aborted. *)
Lemma wf_run_failed_aborted s os a s' :
  wf_run s (os ++ [(a, Failed)]) s' → ∃ pc, s' = Aborted pc.
Proof.
  revert s. induction os as [|o os IH]; intros s Hrun; simpl in Hrun.
  - inversion Hrun as [|? ? ? ? ? Hstep Hrest]; subst.
    inversion Hstep; subst. inversion Hrest; subst. eauto.
  - inversion Hrun; subst. eauto.
Qed.

(** A run that ends aborted was aborted before it began, or its last
    observation is a failure. *)
Lemma wf_run_aborted_failed s os pc :
  wf_run s os (Aborted pc) → s = Aborted pc ∨ ∃ os1 a, os = os1 ++ [(a, Failed)].
Proof.
  cut (∀ s', wf_run s os s' → s' = Aborted pc →
              s = Aborted pc ∨ ∃ os1 a, os = os1 ++ [(a, Failed)]); [eauto|].
  intros s' Hrun. induction Hrun as [s|s [a v] s' os s'' Hstep Hrun IH]; [by left|].
  intros Hs'. right.
  destruct (IH Hs') as [->|(os1 & a' & ->)]; [|by exists ((a, v) :: os1), a'].
  destruct (wf_step_running _ _ _ Hstep) as (pc' & nilc & _ & Hv). simpl in Hv.
  destruct Hv as [_ ->].
  inversion Hrun as [|? ? ? ? ? Hs _]; subst; [by exists [], a|inversion Hs].
Qed.

(** A run without a failure does not end aborted, unless it began so. *)
Lemma wf_run_no_failure s os s' :
  wf_run s os s' → Forall (λ o, o.2 ≠ Failed) os → (∃ pc, s' = Aborted pc) → s' = s.
Proof.
  intros Hrun Hos [pc ->].
  destruct (wf_run_aborted_failed _ _ _ Hrun) as [->|(os1 & a & ->)]; [done|].
  apply Forall_app in Hos as [_ Hos]. by inversion Hos.
Qed.

(** ** Nil pointers *)

(** An aborted or crashed run stays where it is. *)
Lemma wf_run_halted s os s' :
  wf_run s os s' → (∀ pc nilc, s ≠ Running pc nilc) → s' = s.
Proof.
  intros Hrun Hs. destruct Hrun as [s|s o s' os s'' Hstep _]; [done|].
  destruct (wf_step_running _ _ _ Hstep) as (pc & nilc & -> & _). by destruct (Hs pc nilc).
Qed.

(** The configuration is nil, or a run crashes, only after a nil answer. *)
Lemma wf_run_nil_seen pc os s' :
  wf_run (Running pc false) os s' →
  (∃ pc', s' = Crashed pc' ∨ s' = Running pc' true) →
  Exists (λ o, o.2 = Nil) os.
Proof.
  revert pc. induction os as [|o os IH]; intros pc Hrun Hs'.
  { inversion Hrun; subst. by destruct Hs' as [pc' [?|?]]. }
  inversion Hrun as [|? ? s1 ? ? Hstep Hrest]; subst.
  inversion Hstep; subst; [apply Exists_cons_tl; eauto| |by apply Exists_cons_hd..].
  apply wf_run_halted in Hrest as ->; [|done]. by destruct Hs' as [pc' [?|?]].
Qed.

(** After a nil answer a run has crashed, or was aborted, or goes on
    with a nil configuration. *)
Lemma wf_run_nil_kept s os s' :
  wf_run s os s' →
  Exists (λ o, o.2 = Nil) os ∨ (∃ pc, s = Running pc true) →
  ∃ pc, s' = Crashed pc ∨ s' = Aborted pc ∨ s' = Running pc true.
Proof.
  induction 1 as [s|s o s' os s'' Hstep Hrun IH].
  { intros [H%Exists_nil|[pc ->]]; [done|eauto]. }
  intros Hnil. inversion Hstep; subst;
    try (apply wf_run_halted in Hrun as ->; [eauto|done]); apply IH; [|eauto].
  destruct Hnil as [[?|?]%Exists_cons|[? [= _ ->]]]; [done|auto|eauto].
Qed.

(** The token is still due at a position when the plan holds
    [BuildToken] there or later. *)
Definition token_due (pc : nat) : Prop := ∃ j, pc ≤ j ∧ plan !! j = Some BuildToken.

(** A plan that builds a token after every resolution of the tenant: a
    run that goes on with a nil configuration never gets past the
    construction of the token. *)
Lemma wf_run_token_due s os s' :
  (∀ i, plan !! i = Some ResolveTenant → token_due (S i)) →
  wf_run s os s' →
  (∀ pc, s = Running pc true → token_due pc) →
  ∀ pc, s' = Running pc true → token_due pc.
Proof.
  intros Hplan. induction 1 as [s|s o s' os s'' Hstep Hrun IH]; [done|].
  intros Hs. apply IH. intros pc' ->. inversion Hstep as [pc a nilc Ha He| |pc Ha|]; subst.
  - destruct (Hs pc eq_refl) as (j & Hj & Hb). exists j. split; [|done].
    destruct (decide (j = pc)) as [->|]; [|lia].
    rewrite Ha in Hb. injection Hb as ->. by specialize (He eq_refl).
  - by apply Hplan.
Qed.

(** Where the token is due the plan has not ended: a run that stands
    there with a nil configuration, if it has ended, has crashed. *)
Lemma stage_status_token_due pc code :
  token_due pc → stage_status (Running pc true) = Some code → code = 2%Z.
Proof.
  intros (j & Hj & Hb%lookup_lt_Some). unfold stage_status.
  rewrite decide_False by lia. by case_decide; intros [=].
Qed.

Lemma stage_status_two s :
  stage_status s = Some 2%Z → ∃ pc, s = Crashed pc ∨ s = Running pc true.
Proof.
  destruct s as [pc nilc|pc|pc]; simpl; [|done|eauto].
  repeat case_decide; intros [=]. destruct_and!; subst. eauto.
Qed.

(** The status of a final stage is 0, 1 or 2, and 0 only at the end of the
    plan. *)
Lemma stage_status_range s code :
  stage_status s = Some code → code ∈ [0%Z; 1%Z; 2%Z].
Proof.
  destruct s; simpl; repeat case_decide; intros [= <-]; set_solver.
Qed.

Lemma stage_status_zero s :
  stage_status s = Some 0%Z → ∃ nilc, s = Running (length plan) nilc.
Proof. destruct s; simpl; repeat case_decide; intros [=]; subst; eauto. Qed.

Lemma stage_status_one s : stage_status s = Some 1%Z ↔ ∃ pc, s = Aborted pc.
Proof.
  split; [|by intros [pc ->]].
  destruct s; simpl; repeat case_decide; intros [=]; subst; eauto.
Qed.

End machine.

(** ** The plan of the script *)

Definition script_requests : list Request :=
  [createResourceGroup_request; createNamespace_request; createAuthRule_request;
   listKeys_request; createQueue_request; createTopic_request;
   createSubscription_request; deleteResourceGroup_request].

Definition script_plan : list Action :=
  [ReadVariable "AZURE_SUBSCRIPTION_ID"; ReadVariable "AZURE_TENANT_ID";
   ResolveTenant;
   ReadVariable "AZURE_CLIENT_ID"; ReadVariable "AZURE_CLIENT_SECRET";
   BuildToken;
   Issue createResourceGroup_request; Issue createNamespace_request;
   Issue createAuthRule_request; Issue listKeys_request;
   Issue createQueue_request; Issue createTopic_request;
   Issue createSubscription_request;
   AwaitInput;
   Issue deleteResourceGroup_request].

(** The requests among a list of actions. *)
Definition action_request (a : Action) : option Request :=
  match a with Issue request => Some request | _ => None end.
Definition plan_requests (plan : list Action) : list Request := omap action_request plan.

Lemma script_plan_requests : plan_requests script_plan = script_requests.
Proof. reflexivity. Qed.

(** The script resolves the tenant once, and builds the token later. *)
Lemma script_token_due i :
  script_plan !! i = Some ResolveTenant → token_due script_plan (S i).
Proof.
  intros Hi. assert (i = 2) as -> by (do 15 (destruct i as [|i]; try done)).
  exists 5. by split; [lia|].
Qed.

Lemma plan_requests_prefix (l1 l2 : list Action) :
  l1 `prefix_of` l2 → plan_requests l1 `prefix_of` plan_requests l2.
Proof. intros [k ->]. unfold plan_requests. rewrite omap_app. by apply prefix_app_r. Qed.
