(* ===== verification/Refinement.v ===== *)
(** * The script implements the workflow

    [observe] maps what the process did to what the workflow machine sees:
    a print is invisible, every other event is an action with a verdict.
    [stage_of w] is the stage the machine of Workflow.v reaches on the log
    of [w].  [conforms pre m post] says that statement [m], started where the
    log has taken the machine to [pre], either returns with the machine at
    [post], or ends the process with the machine at a final stage whose
    status is the exit status of the process.

    Each primitive and each step of the script is shown to conform, with
    one rule for sequencing; [program_conforms] composes them along the
    text of [init] and [main], and [run_refines] states the result for a
    run from its start: the observations of any run, under any behaviour of
    the SDK, form a run of the machine that ends in a final stage with the
    process's exit status. *)

From S2P Require Import Prelude Monad GoFmt Sdk Runtime Helpers Startup Provision.
From S2P Require Import Main Workflow.

(** ** Observations *)

Definition is_nil {A} (p : option A) : bool :=
  match p with None => true | Some _ => false end.

(** The stage after an action that may fail: aborted at [pc] on an error,
    [next] otherwise. *)
Definition on_error (err : option goerror) (pc : nat) (next : Stage) : Stage :=
  match err with Some _ => Aborted pc | None => next end.

Definition error_verdict (err : option goerror) : Verdict :=
  match err with Some _ => Failed | None => Succeeded end.

Definition config_verdict (config : option OAuthConfig) (err : option goerror) : Verdict :=
  match err, config with
  | Some _, _ => Failed
  | None, None => Nil
  | None, Some _ => Succeeded
  end.

Definition reply_verdict (request : Request) (reply : Reply) : Verdict :=
  match reply_err reply with
  | Some _ => Failed
  | None =>
      if reads_result (Issue request) && negb (keys_complete (reply_keys reply))
      then Nil else Succeeded
  end.

Definition observe (e : Event) : option Obs :=
  match e with
  | EvGetenv name value =>
      Some (ReadVariable name, if decide (value = "") then Failed else Succeeded)
  | EvPrint _ => None
  | EvScanln _ => Some (AwaitInput, Succeeded)
  | EvOAuthConfig _ _ config err => Some (ResolveTenant, config_verdict config err)
  | EvNewToken _ _ _ _ _ err => Some (BuildToken, error_verdict err)
  | EvCall _ request reply => Some (Issue request, reply_verdict request reply)
  end.

Definition abstract (evs : list Event) : list Obs := omap observe evs.

(** The stage the machine reaches on a log. *)
Definition stage_at (tr : list Event) : option Stage :=
  wf_exec script_plan (Running 0 false) (abstract tr).

Definition stage_of {R} (w : World R) : option Stage := stage_at (w_trace w).

(** The process has ended as the machine says. *)
Definition ended {R A} (o : Outcome A) (w : World R) : Prop :=
  ∃ s, stage_of w = Some s ∧ stage_status script_plan s = Some (exit_status o).

Definition conforms {R A} (pre : Stage) (m : Proc R A) (post : A → Stage) : Prop :=
  hoare (λ w, stage_of w = Some pre) m
    (λ o w', match o with
             | Returned a => stage_of w' = Some (post a)
             | _ => ended o w'
             end).

(** ** The stage along the log *)

Lemma stage_at_snoc tr e :
  stage_at (tr ++ [e]) =
  match observe e with
  | None => stage_at tr
  | Some o => stage_at tr ≫= λ s, wf_next script_plan s o
  end.
Proof.
  unfold stage_at, abstract. rewrite omap_app. simpl.
  destruct (observe e); [apply wf_exec_snoc|by rewrite app_nil_r].
Qed.

(** An invisible event leaves the stage where it is. *)
Lemma stage_at_silent tr e : observe e = None → stage_at (tr ++ [e]) = stage_at tr.
Proof. intros H. by rewrite stage_at_snoc, H. Qed.

(** A visible event takes the step of the machine. *)
Lemma stage_at_step tr e o s s' :
  stage_at tr = Some s → observe e = Some o → wf_step script_plan s o s' →
  stage_at (tr ++ [e]) = Some s'.
Proof.
  intros Hs Ho Hstep%wf_next_step. by rewrite stage_at_snoc, Ho, Hs.
Qed.

Lemma stage_at_prints tr lines :
  stage_at (tr ++ (EvPrint <$> lines)) = stage_at tr.
Proof.
  induction lines as [|l lines IH] using rev_ind; [by rewrite app_nil_r|].
  rewrite fmap_app, app_assoc. cbn [fmap list_fmap]. by rewrite stage_at_silent.
Qed.

(** The steps of the machine the script takes. *)
Lemma step_config pc config err :
  script_plan !! pc = Some ResolveTenant →
  wf_step script_plan (Running pc false) (ResolveTenant, config_verdict config err)
    (on_error err pc (Running (S pc) (is_nil config))).
Proof. intros. destruct err, config; by constructor. Qed.

Lemma step_token pc err :
  script_plan !! pc = Some BuildToken →
  wf_step script_plan (Running pc false) (BuildToken, error_verdict err)
    (on_error err pc (Running (S pc) false)).
Proof. intros. destruct err; by constructor. Qed.

Lemma step_issue pc nilc request reply :
  script_plan !! pc = Some (Issue request) →
  wf_step script_plan (Running pc nilc) (Issue request, reply_verdict request reply)
    (on_error (reply_err reply) pc
       (if reads_result (Issue request) && negb (keys_complete (reply_keys reply))
        then Crashed pc else Running (S pc) nilc)).
Proof.
  intros. unfold reply_verdict, on_error. destruct (reply_err reply); [by constructor|].
  destruct (reads_result (Issue request)) eqn:Hr; [|by constructor].
  cbn [andb]. destruct (keys_complete _); cbn [negb]; by constructor.
Qed.

Lemma step_input pc nilc :
  script_plan !! pc = Some AwaitInput →
  wf_step script_plan (Running pc nilc) (AwaitInput, Succeeded) (Running (S pc) nilc).
Proof. intros. by constructor. Qed.

Section conformance.
Context {R : Type} `{!Sdk R}.
Implicit Types (w : World R).

(** ** Sequencing *)

Lemma conforms_bind {A B} pre (m : Proc R A) post1 (f : A → Proc R B) post2 :
  conforms pre m post1 → (∀ a, conforms (post1 a) (f a) post2) →
  conforms pre (m ≫= f) post2.
Proof.
  intros Hm Hf. eapply hoare_bind; [apply Hm|apply Hf|done..].
Qed.

Lemma conforms_ret {A} pre (a : A) (post : A → Stage) :
  post a = pre → conforms pre (mret (M := proc (World R)) a) post.
Proof. intros <- w Hw. done. Qed.

(** ** Statements without a visible event *)

Lemma conforms_emit s e : observe e = None → conforms s (emit (R := R) e) (λ _, s).
Proof. intros He w Hw. unfold stage_of in *. simpl. by rewrite stage_at_silent. Qed.

Lemma conforms_Printf s format args : conforms s (Printf (R := R) format args) (λ _, s).
Proof. by apply conforms_emit. Qed.

Lemma conforms_Print s line : conforms s (Print (R := R) line) (λ _, s).
Proof. by apply conforms_emit. Qed.

Lemma conforms_createClients s subID token :
  conforms s (createClients (R := R) subID token) (λ _, s).
Proof. by intros w Hw. Qed.

(** ** The helpers *)

Lemma conforms_getEnvVarOrExit pc nilc name :
  script_plan !! pc = Some (ReadVariable name) →
  conforms (Running pc nilc) (getEnvVarOrExit (R := R) name) (λ _, Running (S pc) nilc).
Proof.
  intros Hpc w Hw. unfold outcome, final.
  destruct (decide (env_value w name = "")) as [Hv|Hv].
  - rewrite getEnvVarOrExit_missing by done. exists (Aborted pc). split; [|done].
    unfold stage_of. simpl. rewrite stage_at_silent by done.
    eapply stage_at_step; [done..|]. by constructor.
  - rewrite getEnvVarOrExit_set by done.
    eapply stage_at_step; [done..|]. rewrite decide_False by done. by constructor.
Qed.

Lemma conforms_onErrorFail err pc next message :
  conforms (on_error err pc next) (onErrorFail (R := R) err message) (λ _, next).
Proof.
  intros w Hw. destruct err as [e|]; [|done].
  exists (Aborted pc). split; [|done].
  unfold stage_of. simpl. by rewrite stage_at_silent.
Qed.

(** ** Authentication *)

Lemma conforms_OAuthConfigForTenant pc env tenantID :
  script_plan !! pc = Some ResolveTenant →
  conforms (Running pc false) (OAuthConfigForTenant env tenantID)
    (λ res, on_error res.2 pc (Running (S pc) (is_nil res.1))).
Proof.
  intros Hpc w Hw. unfold outcome, final. rewrite OAuthConfigForTenant_eq.
  eapply stage_at_step; [done..|]. by apply step_config.
Qed.

(** Dereferencing the configuration where the token is due. *)
Lemma conforms_deref_config pc (config : option OAuthConfig) :
  script_plan !! pc = Some BuildToken →
  conforms (Running pc (is_nil config)) (deref (S := World R) config)
    (λ _, Running pc false).
Proof.
  intros Hpc w Hw. destruct config as [c|]; [done|].
  exists (Running pc true). split; [done|]. simpl.
  rewrite decide_False, decide_True; [done..|].
  intros ->. discriminate Hpc.
Qed.

Lemma conforms_NewServicePrincipalToken pc config clientID secret resource :
  script_plan !! pc = Some BuildToken →
  conforms (Running pc false)
    (NewServicePrincipalToken config clientID secret resource)
    (λ res, on_error res.2 pc (Running (S pc) false)).
Proof.
  intros Hpc w Hw. unfold outcome, final. rewrite NewServicePrincipalToken_eq.
  eapply stage_at_step; [done..|]. by apply step_token.
Qed.

(** ** The steps *)

Lemma stage_of_after_step line c request w pc nilc :
  script_plan !! pc = Some (Issue request) →
  stage_of w = Some (Running pc nilc) →
  stage_of (after_step line c request w)
  = Some (on_error (reply_err (reply_to c request w)) pc
            (if reads_result (Issue request)
                && negb (keys_complete (reply_keys (reply_to c request w)))
             then Crashed pc else Running (S pc) nilc)).
Proof.
  intros Hpc Hw. unfold stage_of, after_step, after_call. simpl.
  eapply stage_at_step; [by rewrite stage_at_silent|done|].
  by apply (step_issue pc nilc request (reply_to c request w)).
Qed.

Lemma conforms_api_step pc nilc line var request message :
  script_plan !! pc = Some (Issue request) →
  reads_result (Issue request) = false →
  conforms (Running pc nilc) (api_step line var request message)
    (λ _, Running (S pc) nilc).
Proof.
  intros Hpc Hr w Hw. unfold outcome, final. rewrite api_step_eq. cbv zeta.
  pose proof (stage_of_after_step line (var (w_clients w)) request w pc nilc Hpc Hw)
    as Hs. rewrite Hr in Hs. simpl in Hs.
  destruct (reply_err _) as [e|]; simpl in *; [|done].
  exists (Aborted pc). split; [|done].
  unfold stage_of in *. simpl. by rewrite stage_at_silent.
Qed.

Lemma stage_of_add_prints lines w :
  stage_of (add_events (EvPrint <$> lines) w) = stage_of w.
Proof. unfold stage_of. by rewrite add_events_trace, stage_at_prints. Qed.

Lemma conforms_listKeys pc nilc :
  script_plan !! pc = Some (Issue listKeys_request) →
  conforms (Running pc nilc) (listKeys (R := R)) (λ _, Running (S pc) nilc).
Proof.
  intros Hpc w Hw. unfold outcome, final. rewrite listKeys_eq. cbv zeta.
  pose proof (stage_of_after_step listKeys_line (namespaceClient (w_clients w))
                listKeys_request w pc nilc Hpc Hw) as Hs.
  unfold on_error in Hs. destruct (reply_err _) as [e|]; cbn [fst snd].
  - exists (Aborted pc). split; [|done].
    unfold stage_of in *. cbn [add_event w_trace]. by rewrite stage_at_silent.
  - change (reads_result (Issue listKeys_request)) with true in Hs. cbn [andb] in Hs.
    destruct (keys_complete _); cbn [negb] in Hs.
    + by rewrite stage_of_add_prints.
    + exists (Crashed pc). by rewrite stage_of_add_prints.
Qed.

Lemma conforms_Scanln pc nilc :
  script_plan !! pc = Some AwaitInput →
  conforms (Running pc nilc) (Scanln (R := R)) (λ _, Running (S pc) nilc).
Proof.
  intros Hpc w Hw. unfold outcome, final. rewrite Scanln_eq.
  eapply stage_at_step; [done..|]. by apply step_input.
Qed.

(** ** The script *)

Lemma init_conforms : conforms (Running 0 false) (init (R := R)) (λ _, Running 6 false).
Proof.
  unfold init.
  eapply conforms_bind; [by apply conforms_getEnvVarOrExit|intros subscriptionID].
  eapply conforms_bind; [by apply conforms_getEnvVarOrExit|intros tenantID].
  eapply conforms_bind; [by apply conforms_OAuthConfigForTenant|intros [oauthConfig err]].
  eapply conforms_bind; [apply conforms_onErrorFail|intros ?].
  eapply conforms_bind; [by apply conforms_getEnvVarOrExit|intros clientID].
  eapply conforms_bind; [by apply conforms_getEnvVarOrExit|intros clientSecret].
  eapply conforms_bind; [by apply conforms_deref_config|intros config].
  eapply conforms_bind;
    [by apply conforms_NewServicePrincipalToken|intros [spToken err']].
  eapply conforms_bind; [apply conforms_onErrorFail|intros ?].
  apply conforms_createClients.
Qed.

Lemma main_conforms : conforms (Running 6 false) (main (R := R)) (λ _, Running 15 false).
Proof.
  unfold main.
  rewrite createResourceGroup_shape, createNamespace_shape, createAuthRule_shape,
    createQueue_shape, createTopic_shape, createSubscription_shape,
    deleteResourceGroup_shape.
  unfold perform.
  eapply conforms_bind; [by apply conforms_api_step|intros ?].
  eapply conforms_bind; [by apply conforms_api_step|intros ?].
  eapply conforms_bind; [by apply conforms_api_step|intros ?].
  eapply conforms_bind; [by apply conforms_listKeys|intros ?].
  eapply conforms_bind; [by apply conforms_api_step|intros ?].
  eapply conforms_bind; [by apply conforms_api_step|intros ?].
  eapply conforms_bind; [by apply conforms_api_step|intros ?].
  eapply conforms_bind; [apply conforms_Print|intros ?].
  eapply conforms_bind; [by apply conforms_Scanln|intros ?].
  by apply conforms_api_step.
Qed.

Lemma program_conforms :
  conforms (Running 0 false) (program (R := R)) (λ _, Running 15 false).
Proof.
  eapply conforms_bind; [apply init_conforms|intros ?; apply main_conforms].
Qed.

(** A run ends in a stage of the machine, with the status of that stage. *)
Lemma run_ended env stdin (remote : R) :
  ended (run env stdin remote).1 (run env stdin remote).2.
Proof.
  pose proof (program_conforms (initial_world env stdin remote) eq_refl) as H.
  unfold outcome, final, run in *.
  destruct (program _) as [[[]|code|msg] w]; [by exists (Running 15 false)|done..].
Qed.

(** C1. Every run of the process, whatever the SDK answers, is a run of
    the workflow machine: the visible events of its log take the machine
    from the start of the plan to a final stage, and the exit status of the
    process is the status of that stage. *)
Theorem run_refines env stdin (remote : R) :
  ∃ s, wf_run script_plan (Running 0 false)
         (abstract (w_trace (run env stdin remote).2)) s
       ∧ stage_status script_plan s = Some (exit_status (run env stdin remote).1).
Proof.
  destruct (run_ended env stdin remote) as (s & Hs & Hstatus).
  exists s. split; [by apply wf_exec_run|done].
Qed.

End conformance.
