(* ===== verification/Properties.v ===== *)
(** * What every run does

    Consequences of the refinement for the runs of the process, stated on
    the log itself and for an arbitrary SDK: the management requests
    issued are a prefix of the eight requests of the script, in their
    order; a resource is never created before its parent; the events occur
    in the order of the plan; a run that ends with status 0 has issued
    exactly the eight; an event that records a failure is the last thing
    the process asks of the outside world; the exit status is 0, 1 or 2,
    it is 1 exactly when the log records a failure, and 2 exactly when
    it records a nil pointer that the script dereferences and no failure.
    Each theorem with a hypothesis is applied to a concrete run on the
    scripted SDK of Mock.v. *)

From S2P Require Import Prelude Monad GoFmt Sdk Runtime Helpers Startup Provision.
From S2P Require Import Main Workflow Refinement Mock.

(** ** Runs *)

(** The log of a run, the management requests it issued, and the status
    the process ended with. *)
Definition log `{!Sdk R} env stdin (remote : R) : list Event :=
  w_trace (run env stdin remote).2.
Definition issued `{!Sdk R} env stdin (remote : R) : list Request :=
  requests (run env stdin remote).2.
Definition status `{!Sdk R} env stdin (remote : R) : Z :=
  exit_status (run env stdin remote).1.

(** An event that records a failure: a required variable read empty, an
    error returned by the tenant resolution, by the token construction or
    by a management call. *)
Definition failure (e : Event) : bool :=
  match e with
  | EvGetenv _ value => bool_decide (value = "")
  | EvOAuthConfig _ _ _ err | EvNewToken _ _ _ _ _ err => bool_decide (is_Some err)
  | EvCall _ _ reply => bool_decide (is_Some (reply_err reply))
  | _ => false
  end.

(** An event that records a nil pointer handed back without an error,
    where the script dereferences what it was handed: the configuration
    of the tenant, or a field of the keys. *)
Definition nil_answer (e : Event) : bool :=
  match e with
  | EvOAuthConfig _ _ None None => true
  | EvCall _ (NamespacesListKeys _ _ _) reply =>
      bool_decide (reply_err reply = None) && negb (keys_complete (reply_keys reply))
  | _ => false
  end.

(** The action of the plan an event performs; a print performs none. *)
Definition action_of (e : Event) : option Action := fst <$> observe e.

(** ** From observations back to the log *)

Lemma abstract_actions (tr : list Event) : (abstract tr).*1 = omap action_of tr.
Proof.
  unfold abstract, action_of. induction tr as [|e tr IH]; [done|].
  simpl. destruct (observe e); simpl; by f_equal.
Qed.

Lemma failure_observe (e : Event) :
  failure e = true → ∃ a, observe e = Some (a, Failed).
Proof.
  destruct e as [name value| | |env t config err|config a b c token err|c request reply];
    simpl; try done; intros H%bool_decide_eq_true.
  - exists (ReadVariable name). by rewrite decide_True.
  - exists ResolveTenant. by destruct H as [e ->].
  - exists BuildToken. by destruct H as [e ->].
  - exists (Issue request). unfold reply_verdict. by destruct H as [e ->].
Qed.

Lemma observe_failed (e : Event) (a : Action) :
  observe e = Some (a, Failed) → failure e = true.
Proof.
  destruct e as [name value| | |env t config err|config b c d token err|c request reply];
    simpl; try done.
  - case_decide; [|done]. intros _. by apply bool_decide_eq_true.
  - unfold config_verdict. destruct err; [intros _; by apply bool_decide_eq_true|].
    by destruct config.
  - destruct err; [intros _; by apply bool_decide_eq_true|done].
  - unfold reply_verdict. destruct (reply_err reply); [intros _; by apply bool_decide_eq_true|].
    by repeat case_match.
Qed.

Lemma nil_answer_observe (e : Event) :
  nil_answer e = true ↔ ∃ a, observe e = Some (a, Nil).
Proof.
  destruct e as [name value| | |env t [config|] [err|]|config b c d token [err|]
                |c request reply]; simpl; try (by split; [|intros [? ?]]);
    try (split; [|intros [? ?]]; by repeat case_decide); [by split; eauto|].
  unfold reply_verdict.
  destruct request; destruct (reply_err reply); simpl;
    try destruct (keys_complete _); simpl; split; try done; try (by intros [? ?]); eauto.
Qed.

Lemma abstract_Exists (P : Obs → Prop) (tr : list Event) :
  Exists P (abstract tr) ↔ Exists (λ e, ∃ o, observe e = Some o ∧ P o) tr.
Proof.
  rewrite !Exists_exists. unfold abstract. setoid_rewrite list_elem_of_omap. naive_solver.
Qed.

Lemma plan_requests_abstract (tr : list Event) :
  plan_requests (abstract tr).*1 = requests_in tr.
Proof.
  induction tr as [|e tr IH]; [done|].
  unfold abstract, requests_in, plan_requests in *.
  destruct e;
    cbn [omap list_omap observe request_of fmap list_fmap fst action_request];
    by f_equal.
Qed.

Lemma abstract_app (tr1 tr2 : list Event) :
  abstract (tr1 ++ tr2) = abstract tr1 ++ abstract tr2.
Proof. apply omap_app. Qed.

(** Only prints are invisible to the machine. *)
Lemma observe_None (e : Event) : observe e = None ↔ ∃ text, e = EvPrint text.
Proof. split; [destruct e; naive_solver|by intros [text ->]]. Qed.

Lemma abstract_nil (tr : list Event) :
  abstract tr = [] ↔ Forall (λ e, ∃ text, e = EvPrint text) tr.
Proof.
  induction tr as [|e tr IH]; [done|]. rewrite Forall_cons, <- IH, <- observe_None.
  unfold abstract. simpl. destruct (observe e); naive_solver.
Qed.

(** The order the requests of the script come in. *)
Lemma script_order :
  precedesb createResourceGroup_request createNamespace_request script_requests = true ∧
  precedesb createNamespace_request createAuthRule_request script_requests = true ∧
  precedesb createAuthRule_request listKeys_request script_requests = true ∧
  precedesb createNamespace_request createQueue_request script_requests = true ∧
  precedesb createNamespace_request createTopic_request script_requests = true ∧
  precedesb createTopic_request createSubscription_request script_requests = true ∧
  precedesb createSubscription_request deleteResourceGroup_request script_requests = true.
Proof. repeat split; vm_compute; reflexivity. Qed.

Section properties.
Context {R : Type} `{!Sdk R}.

(** The actions the log of a run performs are a prefix of the plan, and
    the requests among them are the requests issued. *)
Lemma log_actions env stdin (remote : R) :
  omap action_of (log env stdin remote) `prefix_of` script_plan.
Proof.
  destruct (run_ended env stdin remote) as (s & Hrun%wf_exec_run & _).
  apply wf_run_prefix in Hrun. by rewrite abstract_actions in Hrun.
Qed.

Lemma issued_actions env stdin (remote : R) :
  issued env stdin remote = plan_requests (omap action_of (log env stdin remote)).
Proof. by rewrite <- abstract_actions, plan_requests_abstract. Qed.

(** After an event that records a failure the machine sees nothing more,
    and has aborted. *)
Lemma failure_last env stdin (remote : R) tr1 e tr2 :
  log env stdin remote = tr1 ++ e :: tr2 → failure e = true →
  abstract tr2 = [] ∧ status env stdin remote = 1%Z.
Proof.
  unfold log, status. intros Htr [a Ha]%failure_observe.
  destruct (run_ended env stdin remote) as (s & Hrun%wf_exec_run & Hs).
  rewrite Htr, abstract_app in Hrun. simpl in Hrun. rewrite Ha in Hrun.
  pose proof (wf_run_failed_last _ _ _ _ _ _ _ Hrun (or_introl eq_refl)) as Hnil.
  split; [done|].
  rewrite Hnil in Hrun. apply wf_run_failed_aborted in Hrun as [pc ->].
  by injection Hs.
Qed.

(** C3. The management requests of a run, under any behaviour of the SDK,
    are a prefix of the eight requests of the script: the steps are taken
    in the fixed order and none is repeated or skipped. *)
Theorem run_requests_prefix env stdin (remote : R) :
  issued env stdin remote `prefix_of` script_requests.
Proof.
  rewrite issued_actions, <- script_plan_requests.
  apply plan_requests_prefix, log_actions.
Qed.

(** C4. In every run a resource is requested only after its parent: the
    resource group before the namespace, the namespace before its
    authorization rule, queue and topic, the rule before its keys are
    listed, the topic before its subscription, and the deletion of the
    group only after the subscription. *)
Theorem run_parents_first env stdin (remote : R) :
  let rs := issued env stdin remote in
  precedes createResourceGroup_request createNamespace_request rs ∧
  precedes createNamespace_request createAuthRule_request rs ∧
  precedes createAuthRule_request listKeys_request rs ∧
  precedes createNamespace_request createQueue_request rs ∧
  precedes createNamespace_request createTopic_request rs ∧
  precedes createTopic_request createSubscription_request rs ∧
  precedes createSubscription_request deleteResourceGroup_request rs.
Proof.
  pose proof (plan_requests_prefix _ _ (log_actions env stdin remote)) as Hp.
  rewrite <- issued_actions, script_plan_requests in Hp.
  destruct script_order as (H1 & H2 & H3 & H4 & H5 & H6 & H7).
  repeat split; (eapply precedes_prefix; [exact Hp|by apply precedesb_sound]).
Qed.

(** C12. A run that ends with status 0 has issued exactly the eight
    requests of the script, in order. *)
Theorem run_completed env stdin (remote : R) :
  status env stdin remote = 0%Z → issued env stdin remote = script_requests.
Proof.
  unfold status, issued. intros Hz. destruct (run_ended env stdin remote) as (s & Hrun%wf_exec_run & Hs).
  rewrite Hz in Hs. apply stage_status_zero in Hs as [nilc ->].
  apply wf_run_complete in Hrun. apply (f_equal plan_requests) in Hrun.
  by rewrite plan_requests_abstract in Hrun.
Qed.

(** C5. The first failure halts the run: after an event that records a
    failure (a required variable read empty, an error from the tenant
    resolution, the token construction or a management call) the process
    interacts no more, whatever follows in the log is a print, and the
    exit status is 1. *)
Theorem failure_is_final env stdin (remote : R) tr1 e tr2 :
  log env stdin remote = tr1 ++ e :: tr2 →
  failure e = true →
  Forall (λ e, ∃ text, e = EvPrint text) tr2 ∧ status env stdin remote = 1%Z.
Proof.
  intros Htr He. destruct (failure_last env stdin remote tr1 e tr2 Htr He) as [Hnil Hs].
  split; [by apply abstract_nil|done].
Qed.

(** C8. The process exits with status 1 exactly when one of its
    interactions failed: a required variable read empty, or an error from
    the tenant resolution, the token construction or a management call.
    It never gives up of its own accord, and never hides a failure. *)
Theorem run_failed_iff env stdin (remote : R) :
  status env stdin remote = 1%Z ↔
  Exists (λ e, failure e = true) (log env stdin remote).
Proof.
  unfold status, log. destruct (run_ended env stdin remote) as (s & Hrun%wf_exec_run & Hs).
  split.
  - intros H1. rewrite H1 in Hs. apply stage_status_one in Hs as [pc ->].
    apply wf_run_aborted_failed in Hrun as [?|(os1 & a & Hos)]; [done|].
    assert ((a, Failed) ∈ abstract (w_trace (run env stdin remote).2)) as Hin
      by (rewrite Hos; set_solver).
    apply list_elem_of_omap in Hin as (e & He & Hobs).
    apply Exists_exists. exists e. eauto using observe_failed.
  - intros (e & (tr1 & tr2 & Htr)%list_elem_of_split & He)%Exists_exists.
    by destruct (failure_last env stdin remote tr1 e tr2 Htr He).
Qed.

(** C9. The process dies of a nil dereference, with status 2, exactly
    when the SDK handed back a nil pointer without an error where the
    script dereferences it (the configuration of the tenant, or a field
    of the keys) and no interaction failed.  The script checks errors
    only, never the pointers. *)
Theorem run_panicked_iff env stdin (remote : R) :
  status env stdin remote = 2%Z ↔
  Exists (λ e, nil_answer e = true) (log env stdin remote) ∧
  Forall (λ e, failure e = false) (log env stdin remote).
Proof.
  destruct (run_ended env stdin remote) as (s & Hrun%wf_exec_run & Hs).
  fold (log env stdin remote) in Hrun. fold (status env stdin remote) in Hs. split.
  - intros H2. rewrite H2 in Hs. split.
    + apply stage_status_two in Hs. apply wf_run_nil_seen in Hrun; [|done].
      apply abstract_Exists in Hrun. eapply Exists_impl; [done|].
      intros e ([a v] & He & Hv). simpl in Hv. subst v. apply nil_answer_observe. eauto.
    + apply Forall_forall. intros e (tr1 & tr2 & Htr)%list_elem_of_split.
      destruct (failure e) eqn:He; [|done].
      destruct (failure_last env stdin remote tr1 e tr2 Htr He) as [_ H1]. congruence.
  - intros [Hnil Hok]. apply Some_inj. rewrite <- Hs.
    destruct (wf_run_nil_kept _ _ _ _ Hrun) as (pc & [->| [->| ->]]); [|done| |].
    + left. apply abstract_Exists. eapply Exists_impl; [done|].
      intros e [a He]%nil_answer_observe. eauto.
    + apply wf_run_aborted_failed in Hrun as [?|(os1 & a & Hos)]; [done|].
      assert (Exists (λ o, o.2 = Failed) (abstract (log env stdin remote))) as Hf
        by (rewrite Hos; apply Exists_app; right; by constructor).
      apply abstract_Exists, Exists_exists in Hf as (e & Hin & [a' v] & He & Hv).
      simpl in Hv. subst v. apply observe_failed in He.
      rewrite Forall_forall in Hok. by rewrite (Hok e Hin) in He.
    + destruct (stage_status _ _) as [code|] eqn:Hc; [|done]. f_equal.
      eapply stage_status_token_due; [|done].
      eapply wf_run_token_due; [apply script_token_due|done|done|done].
Qed.

(** C33. The exit status of a run is 0, 1 or 2. *)
Theorem run_status env stdin (remote : R) :
  status env stdin remote ∈ [0%Z; 1%Z; 2%Z].
Proof.
  destruct (run_ended env stdin remote) as (s & _ & Hs).
  by eapply stage_status_range.
Qed.

(** C24. The events of a run occur in the order of the plan: when the
    plan puts every occurrence of an action after another action, an
    event of the log that performs the first comes after an event that
    performs the second.  In particular the deletion of the resource
    group is issued only after the read of standard input, and the read
    only after the subscription was requested. *)
Theorem run_in_plan_order env stdin (remote : R) (a b : Action) j x :
  precedesb a b script_plan = true →
  log env stdin remote !! j = Some x → action_of x = Some b →
  ∃ i y, i < j ∧ log env stdin remote !! i = Some y ∧ action_of y = Some a.
Proof.
  intros Hab Hj Hx. eapply precedes_omap; [|done..].
  eapply precedes_prefix; [apply log_actions|by apply precedesb_sound].
Qed.

End properties.

(** ** The theorems at concrete runs *)

Lemma run_completed_witness : issued sample_env [""] all_succeed = script_requests.
Proof. apply run_completed. vm_compute. reflexivity. Defined.

Lemma failure_is_final_witness :
  Forall (λ e, ∃ text, e = EvPrint text)
    [EvPrint (failure_line "Namespace create failed" (mkError "conflict"))] ∧
  status sample_env [""] (fails_at 1 (mkError "conflict")) = 1%Z.
Proof.
  apply (failure_is_final sample_env [""] (fails_at 1 (mkError "conflict"))
           (take 9 (log sample_env [""] (fails_at 1 (mkError "conflict"))))
           (EvCall (authorized "sub-0001" (Some sample_token) Namespaces)
              createNamespace_request (reply_error (mkError "conflict")))).
  - vm_compute. reflexivity.
  - reflexivity.
Defined.

Lemma run_in_plan_order_witness :
  ∃ i y, i < 28 ∧ log sample_env [""] all_succeed !! i = Some y ∧
         action_of y = Some AwaitInput.
Proof.
  apply (run_in_plan_order sample_env [""] all_succeed AwaitInput
           (Issue deleteResourceGroup_request) 28
           (EvCall (authorized "sub-0001" (Some sample_token) Groups)
              deleteResourceGroup_request reply_ok));
    vm_compute; reflexivity.
Defined.
