(* ===== verification/Transitions.v ===== *)
(** * The process as a transition system

    Every statement of the script changes the world by one of eight
    moves: a read of the environment, a print, a read of standard input
    (of a line, or of nothing at end of input), the assignment of a fresh
    client to a client variable, the assignment of an authorizer to the
    client a variable holds, and the three entry points of the SDK.
    [move] is that relation,
    [moves] its reflexive and transitive closure, and every function of the
    source, [init] and [main] included, takes the world to one that
    [moves] reaches.

    What holds of the worlds a run goes through is then proved by rule
    induction on [moves] ([run_consistent]): the environment is never
    written, standard input is only consumed from its front, each client
    variable holds a client of its own type, and the log is an honest
    record of the conversation with the service: each answer in it is
    the answer the service gave in the state the earlier calls of the log
    had left, and the state of the service at the end is the initial one
    after the calls of the log and nothing else.  These are facts of the
    runtime: they hold of every program written with its primitives, and
    say that the log can be trusted.  The theorems of the file rest on
    them and on the refinement: how often a run interacts with its world,
    and in what state a failed call leaves the service. *)

From S2P Require Import Prelude Monad GoFmt Sdk Runtime Helpers Startup Provision Main.
From S2P Require Import Workflow Refinement Properties Mock.

(** ** Moves *)

(** The assignment to the client variable of a type. *)
Definition setter (kind : ClientKind) : ManagementClient → Clients → Clients :=
  match kind with
  | Groups => set_groupsClient
  | Namespaces => set_namespaceClient
  | Queues => set_queuesClient
  | Topics => set_topicsClient
  | Subscriptions => set_subClient
  end.

(** Each client variable holds a client of the variable's type. *)
Definition typed_clients (cs : Clients) : Prop :=
  ∀ kind, client_kind (client_of kind cs) = kind.

(** The reads of standard input in a log. *)
Definition reads (e : Event) : nat := if e is EvScanln _ then 1 else 0.
Definition lines_read (evs : list Event) : nat := sum_list_with reads evs.

Section moves.
Context {R : Type} `{!Sdk R}.
Implicit Types (w : World R) (r : R) (e : Event) (evs : list Event).

Inductive move : World R → World R → Prop :=
| move_getenv name w :
    move w (add_event (EvGetenv name (default "" (w_env w !! name))) w)
| move_print text w :
    move w (add_event (EvPrint text) w)
| move_scan w :
    move w (add_event (EvScanln (head (w_stdin w))) (set_stdin (tail (w_stdin w)) w))
| move_assign kind c w :
    client_kind c = kind → move w (upd_clients (setter kind c) w)
| move_authorize kind token w :
    move w (upd_clients (λ cs, setter kind (with_Authorizer token (client_of kind cs)) cs) w)
| move_config env tenantID w :
    move w (after_config env tenantID w)
| move_token config clientID secret resource w :
    move w (after_token config clientID secret resource w)
| move_call c request w :
    move w (after_call c request w).

Definition moves : relation (World R) := rtc move.

#[export] Instance moves_preorder : PreOrder moves.
Proof. apply rtc_po. Qed.

(** ** What the log says of the service *)

(** The state of the service after the call an event records. *)
Definition effect (r : R) (e : Event) : R :=
  match e with
  | EvOAuthConfig env tenantID _ _ => (sdk_OAuthConfigForTenant env tenantID r).2
  | EvNewToken config clientID secret resource _ _ =>
      (sdk_NewServicePrincipalToken config clientID secret resource r).2
  | EvCall c request _ => (sdk_perform c request r).2
  | _ => r
  end.

(** The answer an event records is the answer of the service in state [r]. *)
Definition answered (r : R) (e : Event) : Prop :=
  match e with
  | EvOAuthConfig env tenantID config err =>
      (sdk_OAuthConfigForTenant env tenantID r).1 = (config, err)
  | EvNewToken config clientID secret resource token err =>
      (sdk_NewServicePrincipalToken config clientID secret resource r).1 = (token, err)
  | EvCall c request reply => (sdk_perform c request r).1 = reply
  | _ => True
  end.

(** Each event of the list records the answer of the service in the state
    the events before it leave, from [r] on. *)
Fixpoint honest (r : R) (evs : list Event) : Prop :=
  match evs with
  | [] => True
  | e :: evs' => answered r e ∧ honest (effect r e) evs'
  end.

(** The invariant of the worlds a run goes through, for a run that started
    with the given environment, standard input and service. *)
Record consistent (env : gmap string string) (stdin : list string) (r0 : R) w : Prop := {
  consistent_env : w_env w = env;
  consistent_stdin : w_stdin w = drop (lines_read (w_trace w)) stdin;
  consistent_clients : typed_clients (w_clients w);
  consistent_answers : honest r0 (w_trace w);
  consistent_remote : w_remote w = foldl effect r0 (w_trace w)
}.

End moves.

(** ** Every statement moves *)

Section stable_moves.
Context {R : Type} `{!Sdk R}.
Implicit Types (w : World R).

Lemma moves_Getenv name : stable moves (Getenv (R := R) name).
Proof. intros w. apply rtc_once, move_getenv. Qed.

Lemma moves_Printf format args : stable moves (Printf (R := R) format args).
Proof. intros w. apply rtc_once, move_print. Qed.

Lemma moves_Print s : stable moves (Print (R := R) s).
Proof. intros w. apply rtc_once, move_print. Qed.

Lemma moves_Scanln : stable moves (Scanln (R := R)).
Proof. intros w. unfold final. rewrite Scanln_eq. apply rtc_once, move_scan. Qed.

Lemma moves_assign kind subID :
  stable moves (assign (R := R) (setter kind) (NewClient kind subID)).
Proof. intros w. by apply rtc_once, move_assign. Qed.

Lemma moves_assign_Authorizer kind token :
  stable moves (assign_Authorizer (R := R) (client_of kind) (setter kind) token).
Proof. intros w. apply rtc_once, move_authorize. Qed.

Lemma moves_OAuthConfigForTenant env tenantID :
  stable moves (OAuthConfigForTenant env tenantID).
Proof.
  intros w. unfold final. rewrite OAuthConfigForTenant_eq. apply rtc_once, move_config.
Qed.

Lemma moves_NewServicePrincipalToken config clientID secret resource :
  stable moves (NewServicePrincipalToken config clientID secret resource).
Proof.
  intros w. unfold final. rewrite NewServicePrincipalToken_eq.
  apply rtc_once, move_token.
Qed.

Lemma moves_call var request : stable moves (call var request).
Proof.
  intros w. unfold final, call. rewrite run_global, invoke_eq.
  apply rtc_once, move_call.
Qed.

End stable_moves.

(** A statement built from the primitives by sequencing and case analysis
    moves. *)
Ltac moves_assignment lem :=
  first [apply (lem _ _ Groups) | apply (lem _ _ Namespaces) | apply (lem _ _ Queues)
        |apply (lem _ _ Topics) | apply (lem _ _ Subscriptions)].

Create HintDb mv discriminated.

Ltac moves_stmt :=
  repeat lazymatch goal with
  | |- stable _ (_ ≫= _) => apply stable_bind; [apply _| |intros ?]
  | |- stable _ (mret _) => apply stable_ret; apply _
  | |- stable _ (Exit _) => apply stable_exit; apply _
  | |- stable _ (deref _) => apply stable_deref; apply _
  | |- stable _ (assign _ _) => moves_assignment @moves_assign
  | |- stable _ (assign_Authorizer _ _ _) => moves_assignment @moves_assign_Authorizer
  | |- stable _ (if decide _ then _ else _) => case_decide
  | |- stable _ (match ?x with _ => _ end) => destruct x
  | |- stable _ _ => solve [auto with mv]
  end.

#[export] Hint Resolve moves_Getenv moves_Printf moves_Print moves_Scanln
  moves_OAuthConfigForTenant moves_NewServicePrincipalToken moves_call : mv.

Section functions_move.
Context {R : Type} `{!Sdk R}.

Lemma moves_getEnvVarOrExit varName : stable moves (getEnvVarOrExit (R := R) varName).
Proof. unfold getEnvVarOrExit. moves_stmt. Qed.

Lemma moves_onErrorFail err message : stable moves (onErrorFail (R := R) err message).
Proof. unfold onErrorFail. moves_stmt. Qed.

Lemma moves_createClients subID token : stable moves (createClients (R := R) subID token).
Proof. unfold createClients. moves_stmt. Qed.

Hint Resolve moves_getEnvVarOrExit moves_onErrorFail moves_createClients : mv.

Lemma moves_init : stable moves (init (R := R)).
Proof. unfold init. moves_stmt. Qed.

Lemma moves_api_step line var request message :
  stable moves (api_step line var request message).
Proof. unfold api_step. moves_stmt. Qed.

Lemma moves_listKeys : stable moves (listKeys (R := R)).
Proof. unfold listKeys. moves_stmt. Qed.

Hint Resolve moves_init moves_api_step moves_listKeys : mv.

Lemma moves_main : stable moves (main (R := R)).
Proof.
  unfold main, createResourceGroup, createNamespace, createAuthRule, createQueue,
    createTopic, createSubscription, deleteResourceGroup.
  moves_stmt.
Qed.

Lemma moves_program : stable moves (program (R := R)).
Proof. pose proof moves_main. unfold program. moves_stmt. Qed.

End functions_move.

(** ** The invariant of a run *)

Lemma client_of_setter kind kind' c cs :
  client_of kind' (setter kind c cs) = if decide (kind' = kind) then c else client_of kind' cs.
Proof. by destruct kind, kind'. Qed.

Lemma lines_read_snoc evs e : lines_read (evs ++ [e]) = lines_read evs + reads e.
Proof. unfold lines_read. rewrite sum_list_with_app. simpl. lia. Qed.

Section invariant.
Context {R : Type} `{!Sdk R}.
Context (env : gmap string string) (stdin : list string) (r0 : R).
Implicit Types (w : World R) (r : R) (e : Event) (evs : list Event).

Lemma honest_snoc r evs e :
  honest r evs → answered (foldl effect r evs) e → honest r (evs ++ [e]).
Proof. revert r. induction evs as [|e' evs IH]; simpl; [done|]. intros r [??]. auto. Qed.

Lemma honest_app r evs1 evs2 :
  honest r (evs1 ++ evs2) ↔ honest r evs1 ∧ honest (foldl effect r evs1) evs2.
Proof. revert r. induction evs1 as [|e evs1 IH]; intros r; simpl; [|rewrite IH]; tauto. Qed.

(** Prints are no business of the service. *)
Lemma effect_prints r evs :
  Forall (λ e, ∃ text, e = EvPrint text) evs → foldl effect r evs = r.
Proof. induction 1 as [|e evs [text ->] _ IH]; [done|by simpl]. Qed.

Lemma consistent_initial : consistent env stdin r0 (initial_world env stdin r0).
Proof. split; [done..|by intros []|done|done]. Qed.

(** One more event in the log, with the answer of the service, the state
    it leaves and what it leaves of standard input. *)
Lemma consistent_event e w :
  consistent env stdin r0 w → answered (w_remote w) e →
  consistent env stdin r0
    (mkWorld (w_env w) (drop (reads e) (w_stdin w)) (w_clients w)
       (effect (w_remote w) e) (w_trace w ++ [e])).
Proof.
  intros [Henv Hin Hcs Hans Hr] He. split; simpl; [done| |done| |].
  - by rewrite lines_read_snoc, Hin, drop_drop.
  - apply honest_snoc; [done|by rewrite <- Hr].
  - by rewrite foldl_app, <- Hr.
Qed.

Lemma consistent_upd_clients f w :
  (∀ cs, typed_clients cs → typed_clients (f cs)) →
  consistent env stdin r0 w → consistent env stdin r0 (upd_clients f w).
Proof. intros Hf [Henv Hin Hcs Hans Hr]. split; simpl; auto. Qed.

Lemma move_consistent w w' :
  move w w' → consistent env stdin r0 w → consistent env stdin r0 w'.
Proof.
  intros Hm Hw.
  destruct Hm as [name w|text w|w|kind c w Hc|kind token w|env0 tenantID w
                 |config clientID secret resource w|c request w].
  - by apply (consistent_event (EvGetenv _ _) w Hw).
  - by apply (consistent_event (EvPrint _) w Hw).
  - assert (tail (w_stdin w) = drop 1 (w_stdin w)) as -> by by destruct (w_stdin w).
    apply (consistent_event (EvScanln (head (w_stdin w))) w Hw I).
  - apply consistent_upd_clients; [|done]. intros cs Hcs kind'.
    rewrite client_of_setter. by case_decide; subst.
  - apply consistent_upd_clients; [|done]. intros cs Hcs kind'.
    rewrite client_of_setter. case_decide; subst; [apply Hcs|done].
  - apply (consistent_event (EvOAuthConfig env0 tenantID _ _) w Hw), surjective_pairing.
  - apply (consistent_event (EvNewToken config clientID secret resource _ _) w Hw),
      surjective_pairing.
  - by apply (consistent_event (EvCall c request _) w Hw).
Qed.

Lemma moves_consistent w w' :
  moves w w' → consistent env stdin r0 w → consistent env stdin r0 w'.
Proof. induction 1; eauto using move_consistent. Qed.

(** Rule induction on the moves of a run. *)
Lemma run_invariant (I : World R → Prop) :
  I (initial_world env stdin r0) → (∀ w w', move w w' → I w → I w') →
  I (run env stdin r0).2.
Proof.
  intros H0 Hstep.
  apply (rtc_ind_r (R := move) I (initial_world env stdin r0));
    [done|eauto|apply moves_program].
Qed.

Lemma run_consistent : consistent env stdin r0 (run env stdin r0).2.
Proof. apply run_invariant; [apply consistent_initial|apply move_consistent]. Qed.

(** What every call keeps, a run keeps. *)
Lemma run_remote_invariant (I : R → Prop) :
  (∀ e r, I r → I (effect r e)) → I r0 → I (w_remote (run env stdin r0).2).
Proof.
  intros Hstep H0. rewrite (consistent_remote _ _ _ _ run_consistent).
  generalize (w_trace (run env stdin r0).2), H0. clear H0. generalize r0.
  intros r evs. revert r. induction evs; simpl; eauto.
Qed.

End invariant.

(** ** What a run reads *)

(** The reads of standard input among the actions of the plan. *)
Definition awaits (a : Action) : nat := if a is AwaitInput then 1 else 0.

Lemma lines_read_actions (evs : list Event) :
  lines_read evs = sum_list_with awaits (omap action_of evs).
Proof.
  unfold lines_read. induction evs as [|e evs IH]; [done|].
  destruct e; simpl; by rewrite IH.
Qed.

Lemma sum_list_with_prefix {A} (f : A → nat) (l1 l2 : list A) :
  l1 `prefix_of` l2 → sum_list_with f l1 ≤ sum_list_with f l2.
Proof. intros [k ->]. rewrite sum_list_with_app. lia. Qed.

Section run_facts.
Context {R : Type} `{!Sdk R}.

(** C22. A run interacts with its world a bounded number of times: its
    log performs at most the fifteen actions of the plan, of which at
    most eight are management requests and at most one is a read of
    standard input. *)
Theorem run_bounded env stdin (remote : R) :
  length (omap action_of (log env stdin remote)) ≤ 15 ∧
  length (issued env stdin remote) ≤ 8 ∧
  lines_read (log env stdin remote) ≤ 1.
Proof.
  split_and!.
  - apply (prefix_length _ script_plan), log_actions.
  - rewrite issued_actions.
    apply (prefix_length _ (plan_requests script_plan)), plan_requests_prefix, log_actions.
  - rewrite lines_read_actions.
    apply (sum_list_with_prefix awaits _ script_plan), log_actions.
Qed.

(** C14. A failure is not cleaned up after: nothing is asked of the
    service once a call has failed, so the service is left in the state
    the failed call left it, which is the state the log accounts for up
    to that call. *)
Theorem failure_leaves_service env stdin (remote : R) tr1 e tr2 :
  log env stdin remote = tr1 ++ e :: tr2 → failure e = true →
  answered (foldl effect remote tr1) e ∧
  w_remote (run env stdin remote).2 = effect (foldl effect remote tr1) e.
Proof.
  intros Htr He. destruct (run_consistent env stdin remote) as [_ _ _ Hans Hr].
  destruct (failure_last env stdin remote tr1 e tr2 Htr He) as [Hnil%abstract_nil _].
  unfold log in Htr. rewrite Htr in Hans, Hr.
  apply honest_app in Hans as [_ [Hans _]]. split; [done|].
  by rewrite Hr, foldl_app; simpl; rewrite effect_prints.
Qed.

End run_facts.

(** ** The theorem at a concrete run *)

Lemma failure_leaves_service_witness :
  let remote := fails_at 1 (mkError "conflict") in
  let tr1 := take 9 (log sample_env [""] remote) in
  let e := EvCall (authorized "sub-0001" (Some sample_token) Namespaces)
             createNamespace_request (reply_error (mkError "conflict")) in
  answered (foldl effect remote tr1) e ∧
  w_remote (run sample_env [""] remote).2 = effect (foldl effect remote tr1) e.
Proof.
  apply (failure_leaves_service sample_env [""] (fails_at 1 (mkError "conflict"))
           (take 9 (log sample_env [""] (fails_at 1 (mkError "conflict")))) _
           [EvPrint (failure_line "Namespace create failed" (mkError "conflict"))]).
  - vm_compute. reflexivity.
  - reflexivity.
Defined.
