(* ===== verification/Conduct.v ===== *)
(** * What the log of a run shows

    Properties of single events of a run, for an arbitrary SDK, read off
    the shape of the log: every management call of a run was made after a
    complete handshake, through the client of its request's type, carrying
    the subscription of the environment and the token the handshake
    obtained; every call comes right after its progress line and the read
    of standard input right after the prompt; a run in which a required
    variable is missing makes no call, builds no token and does not end
    with status 0; an error of the tenant resolution ends the run before
    the client id and the secret are read.  The file ends with two
    concrete runs on the scripted SDK: keys with a nil field, and end of
    input at the prompt. *)

From S2P Require Import Prelude Monad GoFmt Sdk Runtime Helpers Startup Provision.
From S2P Require Import Main Traces Workflow Refinement Mock Properties.

(** ** Definitions *)

(** The value of a variable in the environment a run starts with. *)
Definition variable (env : gmap string string) (name : string) : string :=
  default "" (env !! name).

(** A run is authenticated with a configuration and a token when its log
    begins with the handshake that obtained them. *)
Definition authenticated `{!Sdk R} env stdin (remote : R)
    (config : OAuthConfig) (spToken : option ServicePrincipalToken) : Prop :=
  take 6 (log env stdin remote)
  = handshake (initial_world env stdin remote) config spToken.

(** The client a run authenticated with a token uses for a request. *)
Definition client_for (env : gmap string string)
    (spToken : option ServicePrincipalToken) (request : Request) : ManagementClient :=
  authorized (variable env "AZURE_SUBSCRIPTION_ID") spToken (request_kind request).

(** What a run wrote to standard output, write by write. *)
Definition printed_lines `{!Sdk R} env stdin (remote : R) : list string :=
  stdout (run env stdin remote).2.

(** In a log every event that has an announcement comes right after the
    print of that announcement. *)
Definition heralded (tr : list Event) : Prop :=
  ∀ i e line,
    tr !! S i = Some e → announcement e = Some line → tr !! i = Some (EvPrint line).

Section conduct.
Context {R : Type} `{!Sdk R}.

(** ** Helper lemmas *)

Lemma call_request (tr : list Event) c request reply :
  EvCall c request reply ∈ tr → request ∈ requests_in tr.
Proof.
  intros Hin. apply list_elem_of_omap. by exists (EvCall c request reply).
Qed.

Lemma handshake_no_call (w : World R) config spToken c request reply :
  EvCall c request reply ∉ handshake w config spToken.
Proof.
  unfold handshake. intros Hin.
  repeat (apply elem_of_cons in Hin as [?|Hin]; [done|]). by apply elem_of_nil in Hin.
Qed.

(** A run that [init] ended has issued nothing. *)
Lemma stopped_issued env stdin (remote : R) :
  run env stdin remote = init (initial_world env stdin remote) →
  issued env stdin remote = [].
Proof. unfold issued. intros ->. by rewrite init_requests. Qed.

(** A run that [init] let through: its log is the handshake followed by
    blocks performed with the authorised clients. *)
Lemma started_log env stdin (remote : R) w1 :
  init (initial_world env stdin remote) = (Returned (), w1) →
  performs w1 (run env stdin remote).2 →
  ∃ config spToken evs,
    log env stdin remote
    = handshake (initial_world env stdin remote) config spToken ++ evs ∧
    blocks (authorized_clients (variable env "AZURE_SUBSCRIPTION_ID") spToken) evs ∧
    Forall (λ name, variable env name ≠ "") required_variables.
Proof.
  intros (config & spToken & Ht & Hc & Hne & _)%init_returned (_ & evs & Hlog & Hb).
  exists config, spToken, evs. unfold log. rewrite Hlog, Ht, Hc in *. done.
Qed.

(** ** Theorems *)

(** C2. Every management call in the log of a run was made after a
    complete handshake (the four variables read, none of them empty, the
    tenant resolved and the token built without error), is one of the
    requests of the script, and went through the client of its request's
    type carrying the subscription of the environment and the token of
    the handshake. *)
Theorem calls_authorized env stdin (remote : R) c request reply :
  EvCall c request reply ∈ log env stdin remote →
  ∃ config spToken,
    authenticated env stdin remote config spToken ∧
    Forall (λ name, variable env name ≠ "") required_variables ∧
    request ∈ script_requests ∧
    c = client_for env spToken request.
Proof.
  intros Hin. destruct (run_phases env stdin remote) as [[_ Hw]|(w1 & Hinit & Hp)].
  { apply call_request in Hin.
    change (requests_in (log env stdin remote)) with (issued env stdin remote) in Hin.
    rewrite stopped_issued in Hin by done. by apply elem_of_nil in Hin. }
  destruct (started_log _ _ _ _ Hinit Hp) as (config & spToken & evs & Hlog & Hb & Hne).
  exists config, spToken. unfold authenticated. rewrite Hlog in *. split_and!; [done..| |].
  all: apply elem_of_app in Hin as [Hin|Hin]; [by apply handshake_no_call in Hin|].
  all: apply blocks_via in Hb; rewrite Forall_forall in Hb; destruct (Hb _ Hin) as [Hr ->].
  - exact Hr.
  - unfold client_for. by destruct (request_kind request).
Qed.

(** C23. In the log of a run every management call comes right after the
    progress line of its step, and the read of standard input right after
    the prompt. *)
Theorem calls_announced env stdin (remote : R) : heralded (log env stdin remote).
Proof.
  intros i e line Hi Ha. destruct (run_phases env stdin remote) as [[_ Hw]|(w1 & Hinit & Hp)].
  { apply list_elem_of_lookup_2 in Hi. unfold log in Hi. rewrite Hw in Hi.
    destruct (init_events (initial_world env stdin remote)) as (evs & Hevs & HP).
    rewrite Hevs, Forall_forall in *. specialize (HP e Hi). by destruct e. }
  destruct (started_log _ _ _ _ Hinit Hp) as (config & spToken & evs & Hlog & Hb & _).
  rewrite Hlog in *. eapply (announced_lookup None); [|done..].
  apply announced_app; [by repeat split|by eapply blocks_announced].
Qed.

(** C13. A run in which one of the four required variables is unset or
    empty makes no management call and builds no token; it ends with
    status 1, or with status 2 when the SDK returned neither a
    configuration nor an error for the tenant. *)
Theorem missing_variable env stdin (remote : R) name :
  name ∈ required_variables → variable env name = "" →
  issued env stdin remote = [] ∧
  Forall (λ e, is_token e = false) (log env stdin remote) ∧
  (status env stdin remote = 1%Z ∨
   status env stdin remote = 2%Z ∧
   EvOAuthConfig PublicCloud (variable env "AZURE_TENANT_ID") None None
     ∈ log env stdin remote).
Proof.
  intros Hin Hv.
  pose proof (init_missing (initial_world env stdin remote) name Hin Hv) as Hr.
  destruct (run_phases env stdin remote) as [[_ Hw]|(w1 & Hinit & _)];
    [|by rewrite Hinit in Hr].
  split; [by apply stopped_issued|]. unfold status, log. rewrite Hw. split.
  - destruct (init_tokens (initial_world env stdin remote)) as (evs & -> & HP).
    eapply Forall_impl; [exact HP|]. intros e He.
    destruct (is_token e) eqn:Htok; [|done].
    specialize (He Htok). rewrite Forall_forall in He. by destruct (He name Hin).
  - destruct (init_stopped _ Hr) as [->|[-> Hc]]; [by left|by right].
Qed.

(** C29. When the subscription is unset or empty the process reads that
    variable, prints the line that names it and exits with status 1: the
    log has these two events and nothing else. *)
Theorem missing_subscription env stdin (remote : R) :
  variable env "AZURE_SUBSCRIPTION_ID" = "" →
  log env stdin remote
  = [EvGetenv "AZURE_SUBSCRIPTION_ID" "";
     EvPrint (missing_line "AZURE_SUBSCRIPTION_ID")] ∧
  status env stdin remote = 1%Z.
Proof.
  intros Hv. unfold log, status, run, program. rewrite run_bind, init_eq. cbv zeta.
  change (env_value (initial_world env stdin remote) "AZURE_SUBSCRIPTION_ID")
    with (variable env "AZURE_SUBSCRIPTION_ID").
  unfold read. rewrite decide_True by done.
  change (env_value (initial_world env stdin remote) "AZURE_SUBSCRIPTION_ID")
    with (variable env "AZURE_SUBSCRIPTION_ID").
  by rewrite Hv.
Qed.

(** C18. An error of the tenant resolution ends the run before the
    client id and the client secret are looked at: with the subscription
    and the tenant set, the process reads these two, asks for the
    tenant's configuration, prints the failure and exits with status 1,
    whatever the other two variables hold.  A missing client id or
    secret is then neither read nor named. *)
Theorem tenant_error_ends_run env stdin (remote : R) config e r :
  variable env "AZURE_SUBSCRIPTION_ID" ≠ "" →
  variable env "AZURE_TENANT_ID" ≠ "" →
  sdk_OAuthConfigForTenant PublicCloud (variable env "AZURE_TENANT_ID") remote
  = ((config, Some e), r) →
  log env stdin remote
  = [EvGetenv "AZURE_SUBSCRIPTION_ID" (variable env "AZURE_SUBSCRIPTION_ID");
     EvGetenv "AZURE_TENANT_ID" (variable env "AZURE_TENANT_ID");
     EvOAuthConfig PublicCloud (variable env "AZURE_TENANT_ID") config (Some e);
     EvPrint (failure_line "OAuthConfigForTenant failed" e)] ∧
  status env stdin remote = 1%Z.
Proof.
  intros Hs Ht Hc. unfold log, status, run, program. rewrite run_bind, init_eq. cbv zeta.
  change (env_value (initial_world env stdin remote) ?name) with (variable env name).
  rewrite !decide_False by done.
  unfold after_config, config_answer. cbn [w_remote read add_event initial_world].
  by rewrite Hc.
Qed.

End conduct.

(** ** The theorems at concrete runs *)

Lemma calls_authorized_witness :
  ∃ config spToken,
    authenticated sample_env [""] all_succeed config spToken ∧
    Forall (λ name, variable sample_env name ≠ "") required_variables ∧
    createQueue_request ∈ script_requests ∧
    authorized "sub-0001" (Some sample_token) Queues
    = client_for sample_env spToken createQueue_request.
Proof.
  apply (calls_authorized sample_env [""] all_succeed _ _ reply_ok). compute_done.
Defined.

Lemma calls_announced_witness :
  log sample_env [""] all_succeed !! 6 = Some (EvPrint (step_line createResourceGroup_step)).
Proof.
  apply (calls_announced sample_env [""] all_succeed 6
           (EvCall (authorized "sub-0001" (Some sample_token) Groups)
              createResourceGroup_request reply_ok));
    vm_compute; reflexivity.
Defined.

Lemma missing_variable_witness :
  issued (delete "AZURE_CLIENT_SECRET" sample_env) [""] all_succeed = [] ∧
  Forall (λ e, is_token e = false)
    (log (delete "AZURE_CLIENT_SECRET" sample_env) [""] all_succeed) ∧
  (status (delete "AZURE_CLIENT_SECRET" sample_env) [""] all_succeed = 1%Z ∨
   status (delete "AZURE_CLIENT_SECRET" sample_env) [""] all_succeed = 2%Z ∧
   EvOAuthConfig PublicCloud
     (variable (delete "AZURE_CLIENT_SECRET" sample_env) "AZURE_TENANT_ID") None None
     ∈ log (delete "AZURE_CLIENT_SECRET" sample_env) [""] all_succeed).
Proof.
  apply (missing_variable _ _ _ "AZURE_CLIENT_SECRET"); [compute_done|].
  vm_compute. reflexivity.
Defined.

Lemma missing_subscription_witness :
  log (∅ : gmap string string) [] all_succeed
  = [EvGetenv "AZURE_SUBSCRIPTION_ID" "";
     EvPrint (missing_line "AZURE_SUBSCRIPTION_ID")] ∧
  status (∅ : gmap string string) [] all_succeed = 1%Z.
Proof. apply missing_subscription. vm_compute. reflexivity. Defined.

Lemma tenant_error_ends_run_witness :
  log (delete "AZURE_CLIENT_ID" sample_env) [""] (bad_tenant (mkError "no such tenant"))
  = [EvGetenv "AZURE_SUBSCRIPTION_ID" "sub-0001";
     EvGetenv "AZURE_TENANT_ID" "contoso";
     EvOAuthConfig PublicCloud "contoso" None (Some (mkError "no such tenant"));
     EvPrint (failure_line "OAuthConfigForTenant failed" (mkError "no such tenant"))] ∧
  status (delete "AZURE_CLIENT_ID" sample_env) [""] (bad_tenant (mkError "no such tenant"))
  = 1%Z.
Proof.
  assert (variable (delete "AZURE_CLIENT_ID" sample_env) "AZURE_SUBSCRIPTION_ID"
          = "sub-0001") as Hs by (vm_compute; reflexivity).
  assert (variable (delete "AZURE_CLIENT_ID" sample_env) "AZURE_TENANT_ID" = "contoso")
    as Ht by (vm_compute; reflexivity).
  rewrite <- Hs, <- Ht.
  apply (tenant_error_ends_run (delete "AZURE_CLIENT_ID" sample_env) [""]
           (bad_tenant (mkError "no such tenant")) None (mkError "no such tenant")
           (bad_tenant (mkError "no such tenant")));
    [rewrite Hs; done|rewrite Ht; done|reflexivity].
Defined.

(** ** Runs worth recording *)

(** The stub of the keys that the specification suggests for a test:
    when [ListKeys] answers with the name and the two keys but no
    connection strings, the process dies of a nil dereference, with
    status 2, after three of the five lines of the keys; the queue, the
    topic and the subscription are never requested. *)
Example partial_keys_panic :
  (run sample_env [""] keys_partial).1 = Panicked nil_dereference ∧
  status sample_env [""] keys_partial = 2%Z ∧
  printed_lines sample_env [""] keys_partial
  = [step_line createResourceGroup_step; step_line createNamespace_step;
     step_line createAuthRule_step; step_line listKeys_step;
     key_line "Key name" "k1"; key_line "Primary key" "p1";
     key_line "Secondary key" "s1"] ∧
  issued sample_env [""] keys_partial
  = [createResourceGroup_request; createNamespace_request; createAuthRule_request;
     listKeys_request].
Proof. split_and!; vm_compute; reflexivity. Qed.

(** At end of input [fmt.Scanln] returns at once with an error the
    script does not look at: the resource group is deleted without anyone
    having pressed a key. *)
Example end_of_input_deletes :
  issued sample_env [] all_succeed = script_requests ∧
  status sample_env [] all_succeed = 0%Z ∧
  EvScanln None ∈ log sample_env [] all_succeed ∧
  last (printed_lines sample_env [] all_succeed)
  = Some (step_line deleteResourceGroup_step).
Proof. split_and!; [vm_compute; reflexivity..|compute_done|vm_compute; reflexivity]. Qed.
