(* ===== verification/Output.v ===== *)
(** * What the process prints

    Every line on standard output has one of five forms: the progress line
    of a step, a labelled line of the keys, the prompt, the line
    [message: error] that [onErrorFail] prints for one of the ten
    messages of the script, or the line that [getEnvVarOrExit] prints for
    one of the four required variables.  The values and the errors in
    them are printed verbatim, whatever they are; nothing else is ever
    printed.

    [init] is followed on each of its ways out, [main] through the shape
    of its log (Traces.v). *)

From S2P Require Import Prelude Monad GoFmt Sdk Runtime Helpers Startup Provision Main.
From S2P Require Import Traces Workflow Refinement Properties Conduct.

(** ** The forms *)

(** The messages [onErrorFail] is given, in [init] and in the steps. *)
Definition messages : list string :=
  ["OAuthConfigForTenant failed"; "NewServicePrincipalToken failed"]
  ++ (step_message <$> script_steps).

Inductive line_form : string → Prop :=
| form_progress s : s ∈ script_steps → line_form (step_line s)
| form_key label value : label ∈ key_labels → line_form (key_line label value)
| form_prompt : line_form prompt
| form_failure message e : message ∈ messages → line_form (failure_line message e)
| form_missing name : name ∈ required_variables → line_form (missing_line name).

(** An event that, if it is a print, prints a line of one of the forms. *)
Definition well_printed (e : Event) : Prop :=
  ∀ text, e = EvPrint text → line_form text.

(** ** Lists of events *)

Lemma well_printed_stdout (evs : list Event) :
  Forall well_printed evs → Forall line_form (omap printed_of evs).
Proof.
  induction 1 as [|e evs He _ IH]; [done|].
  destruct e; simpl; try done. constructor; [by apply He|done].
Qed.

Lemma well_printed_prints (lines : list string) :
  Forall line_form lines → Forall well_printed (EvPrint <$> lines).
Proof. intros H. apply Forall_fmap. eapply Forall_impl; [done|]. by intros l Hl text [= <-]. Qed.

(** The lines of the keys are labelled lines. *)
Lemma key_lines_form (keys : ResourceListKeys) : Forall line_form (key_lines keys).
Proof.
  unfold key_lines. generalize (leading_values (key_values keys)). intros values.
  assert (Forall (λ label, label ∈ key_labels) key_labels) as Hl
    by by apply Forall_forall.
  revert values. induction Hl as [|label labels Hlabel _ IH]; intros [|v values];
    simpl; [done..|]. constructor; [by constructor|apply IH].
Qed.

Lemma step_output_form s reply :
  s ∈ script_steps → Forall line_form (step_output s reply).
Proof.
  intros Hs. unfold step_output. destruct (reply_err reply) as [e|].
  - apply Forall_cons. split; [|done].
    apply form_failure, elem_of_app. right. by apply list_elem_of_fmap_2.
  - case_decide; [apply key_lines_form|done].
Qed.

Lemma block_well_printed cs b : block cs b → Forall well_printed b.
Proof.
  intros [s reply Hs|line].
  - unfold step_events. apply Forall_cons. split; [by intros text [= <-]; constructor|].
    apply Forall_cons. split; [by intros text [=]|].
    by apply well_printed_prints, step_output_form.
  - apply Forall_cons. split; [by intros text [= <-]; constructor|].
    apply Forall_cons. split; [by intros text [=]|done].
Qed.

(** ** The two phases *)

Section output.
Context {R : Type} `{!Sdk R}.
Implicit Types (w : World R).

Local Ltac form :=
  intros ? [=]; subst;
  first [apply form_missing; compute_done | apply form_failure; compute_done].

Lemma init_prints w : grows well_printed w (init w).2.
Proof.
  rewrite init_eq. cbv zeta.
  destruct (config_answer _ _ _) as [[config|] [e|]]; repeat case_decide;
    try destruct (token_answer _ _ _ _ _) as [spToken [e'|]];
    unfold printed, read, after_config, after_token; cbn [snd];
    repeat first [apply grows_add_event; [form|]|apply grows_set_remote
                 |apply grows_upd_clients];
    reflexivity.
Qed.

Lemma main_prints w w' : performs w w' → grows well_printed w w'.
Proof.
  intros (_ & evs & Htr & Hevs). exists evs. split; [done|].
  eapply blocks_Forall; [apply block_well_printed|done].
Qed.

(** C16. Every line a run prints has one of the five forms: a progress
    line of the script, a labelled line of the keys, the prompt, a
    failure line made of one of the messages of the script and the error
    the SDK returned, or the line that names a missing required
    variable. *)
Theorem run_output_forms env stdin (remote : R) :
  Forall line_form (printed_lines env stdin remote).
Proof.
  unfold printed_lines, stdout. apply well_printed_stdout.
  pose proof (init_prints (initial_world env stdin remote)) as Hinit.
  destruct (run_phases env stdin remote) as [[_ ->]|(w1 & Hw1 & Hmain%main_prints)].
  - destruct Hinit as (evs & -> & Hevs). done.
  - rewrite Hw1 in Hinit. destruct (transitivity Hinit Hmain) as (evs & -> & Hevs). done.
Qed.

End output.
