(* ===== verification/Input.v ===== *)
(** * Standard input is not heeded

    [main] calls [fmt.Scanln(&input)] at the prompt (example.go, line 65)
    and looks neither at the line it read nor at the error it returned.
    So nothing the process does depends on what is on standard input, or
    on whether there is anything: at end of input, where [Scanln] returns
    at once, the resource group is deleted as after a key press.

    [deafen w] is the world [w] with standard input cut off and every read
    of its log recorded as a read at end of input.  A statement is
    [heedless] when it commutes with [deafen]: run in the deafened world
    it ends the same way and leaves the deafened world.  Every primitive
    of the runtime but [Scanln] is heedless; [Scanln] is when its result
    is thrown away.  [init] and [main] are heedless statement by
    statement, and two runs that differ in their standard input only are
    then the same run, the lines read apart. *)

From S2P Require Import Prelude Monad GoFmt Sdk Runtime Helpers Startup Provision Main.
From S2P Require Import Workflow Refinement Properties Mock.

(** ** Definitions *)

(** An event without what was read from standard input. *)
Definition unheard (e : Event) : Event :=
  match e with EvScanln _ => EvScanln None | _ => e end.

Section heedless.
Context {R : Type} `{!Sdk R}.
Implicit Types (w : World R).

Definition deafen w : World R :=
  mkWorld (w_env w) [] (w_clients w) (w_remote w) (unheard <$> w_trace w).

Definition heedless {A} (m : Proc R A) : Prop :=
  ∀ w, m (deafen w) = ((m w).1, deafen (m w).2).

(** ** The deafened world *)

Lemma deafen_add_event e w : deafen (add_event e w) = add_event (unheard e) (deafen w).
Proof. unfold deafen, add_event. simpl. by rewrite fmap_app. Qed.

Lemma deafen_initial env stdin (remote : R) :
  deafen (initial_world env stdin remote) = initial_world env [] remote.
Proof. done. Qed.

Lemma requests_in_unheard (evs : list Event) :
  requests_in (unheard <$> evs) = requests_in evs.
Proof.
  unfold requests_in. induction evs as [|[] evs IH]; simpl; [done|exact IH..|by f_equal].
Qed.

Lemma printed_unheard (evs : list Event) :
  omap printed_of (unheard <$> evs) = omap printed_of evs.
Proof. induction evs as [|[] evs IH]; simpl; [done|exact IH|by f_equal|exact IH..]. Qed.

(** ** The rules *)

Lemma heedless_ret {A} (a : A) : heedless (mret a).
Proof. done. Qed.

Lemma heedless_exit {A} code : heedless (Exit (A := A) code).
Proof. done. Qed.

Lemma heedless_deref {A} (p : option A) : heedless (deref p).
Proof. by destruct p. Qed.

Lemma heedless_bind {A B} (m : Proc R A) (k : A → Proc R B) :
  heedless m → (∀ a, heedless (k a)) → heedless (m ≫= k).
Proof.
  intros Hm Hk w. rewrite !run_bind, Hm.
  destruct (m w) as [[a|code|msg] w']; simpl; [apply Hk|done..].
Qed.

(** A statement that adds to the log an event other than a read of
    standard input, and changes the service or the client variables. *)
Lemma heedless_emit e : unheard e = e → heedless (emit e).
Proof.
  intros He w. change (emit e ?w) with (Returned (), add_event e w).
  cbn [fst snd]. by rewrite deafen_add_event, He.
Qed.

Lemma heedless_Getenv name : heedless (Getenv name).
Proof.
  intros w.
  change (Getenv name ?w) with (Returned (env_value w name), add_event (EvGetenv name (env_value w name)) w).
  cbn [fst snd]. by rewrite deafen_add_event.
Qed.

Lemma heedless_Printf format args : heedless (Printf format args).
Proof. by apply heedless_emit. Qed.

Lemma heedless_Print text : heedless (Print text).
Proof. by apply heedless_emit. Qed.

Lemma heedless_assign set c : heedless (assign set c).
Proof. done. Qed.

Lemma heedless_assign_Authorizer var set token :
  heedless (assign_Authorizer var set token).
Proof. done. Qed.

Lemma heedless_invoke c request : heedless (invoke c request).
Proof. intros w. rewrite !invoke_eq. unfold after_call. cbn [fst snd]. by rewrite deafen_add_event. Qed.

Lemma heedless_call var request : heedless (call var request).
Proof. intros w. apply (heedless_invoke (var (w_clients w)) request w). Qed.

Lemma heedless_OAuthConfigForTenant env tenantID :
  heedless (OAuthConfigForTenant env tenantID).
Proof.
  intros w. rewrite !OAuthConfigForTenant_eq. unfold after_config. cbn [fst snd].
  by rewrite deafen_add_event.
Qed.

Lemma heedless_NewServicePrincipalToken config clientID secret resource :
  heedless (NewServicePrincipalToken config clientID secret resource).
Proof.
  intros w. rewrite !NewServicePrincipalToken_eq. unfold after_token. cbn [fst snd].
  by rewrite deafen_add_event.
Qed.

(** [Scanln] hands back the line it read, so it heeds its input; followed
    by a statement that does not look at the line, it does not. *)
Lemma heedless_Scanln {B} (k : Proc R B) : heedless k → heedless (Scanln ≫= λ _, k).
Proof.
  intros Hk w. rewrite !run_Scanln. cbn [w_stdin deafen head tail].
  rewrite <- Hk. f_equal. by rewrite deafen_add_event.
Qed.

End heedless.

Create HintDb heed discriminated.
#[export] Hint Resolve heedless_Getenv heedless_Printf heedless_Print heedless_assign
  heedless_assign_Authorizer heedless_invoke heedless_call heedless_OAuthConfigForTenant
  heedless_NewServicePrincipalToken : heed.

(** Heedlessness along the text of a function. *)
Ltac heedless_stmt :=
  repeat lazymatch goal with
  | |- heedless (Scanln ≫= _) => apply heedless_Scanln
  | |- heedless (_ ≫= _) => apply heedless_bind; [|intros ?]
  | |- heedless (mret _) => apply heedless_ret
  | |- heedless (Exit _) => apply heedless_exit
  | |- heedless (deref _) => apply heedless_deref
  | |- heedless (if decide _ then _ else _) => case_decide
  | |- heedless (match ?x with _ => _ end) => destruct x
  | |- heedless _ => solve [auto with heed]
  end.

(** ** The script *)

Section script.
Context {R : Type} `{!Sdk R}.

Lemma heedless_getEnvVarOrExit varName : heedless (getEnvVarOrExit (R := R) varName).
Proof. unfold getEnvVarOrExit. heedless_stmt. Qed.

Lemma heedless_onErrorFail err message : heedless (onErrorFail (R := R) err message).
Proof. unfold onErrorFail. heedless_stmt. Qed.

Hint Resolve heedless_getEnvVarOrExit heedless_onErrorFail : heed.

Lemma heedless_createClients subID token : heedless (createClients (R := R) subID token).
Proof. unfold createClients. heedless_stmt. Qed.

Lemma heedless_init : heedless (init (R := R)).
Proof. unfold init. pose proof heedless_createClients. heedless_stmt. Qed.

Lemma heedless_perform s : heedless (perform (R := R) s).
Proof. unfold perform, api_step. heedless_stmt. Qed.

Lemma heedless_listKeys : heedless (listKeys (R := R)).
Proof. unfold listKeys. heedless_stmt. Qed.

Lemma heedless_main : heedless (main (R := R)).
Proof.
  unfold main.
  rewrite createResourceGroup_shape, createNamespace_shape, createAuthRule_shape,
    createQueue_shape, createTopic_shape, createSubscription_shape,
    deleteResourceGroup_shape.
  pose proof heedless_perform. pose proof heedless_listKeys. heedless_stmt.
Qed.

Lemma heedless_program : heedless (program (R := R)).
Proof. apply heedless_bind; [apply heedless_init|intros ?; apply heedless_main]. Qed.

(** The run at end of input is the run on any input, its reads recorded
    as reads at end of input. *)
Lemma run_deaf env stdin (remote : R) :
  run env [] remote = ((run env stdin remote).1, deafen (run env stdin remote).2).
Proof. unfold run. by rewrite <- heedless_program. Qed.

(** C17. What is on standard input has no influence on the run: two runs
    that differ in their standard input only end with the same status,
    have issued the same requests, have printed the same lines and leave
    the service in the same state; their logs differ in the lines read
    and in nothing else.  In particular the run at end of input, where
    nobody confirmed anything, deletes what the run after a key press
    deletes. *)
Theorem run_ignores_input env stdin stdin' (remote : R) :
  status env stdin remote = status env stdin' remote ∧
  issued env stdin remote = issued env stdin' remote ∧
  stdout (run env stdin remote).2 = stdout (run env stdin' remote).2 ∧
  w_remote (run env stdin remote).2 = w_remote (run env stdin' remote).2 ∧
  unheard <$> log env stdin remote = unheard <$> log env stdin' remote.
Proof.
  pose proof (run_deaf env stdin remote) as H1.
  rewrite (run_deaf env stdin' remote) in H1. injection H1 as Ho _ _ Hr Hlog.
  fold (log env stdin' remote) (log env stdin remote) in Hlog.
  unfold status, issued, stdout, requests. fold (log env stdin remote) (log env stdin' remote).
  split_and!; [by rewrite Ho| | |done..].
  - by rewrite <- (requests_in_unheard (log env stdin remote)), <- Hlog, requests_in_unheard.
  - by rewrite <- (printed_unheard (log env stdin remote)), <- Hlog, printed_unheard.
Qed.

End script.
