(* ===== verification/Redesign.v ===== *)
(** * The redesign of the design notes, and its equivalence with the script

    The design notes of the specification ask for two changes that must
    not change what the user sees: the five package-level client
    variables become one immutable context, built once and passed to each
    step; and a step no longer ends the process from within, it returns
    a result, the top-level sequence stops at the first failure and
    reports it in one place.

    This file writes that redesign in the same process monad.  A step
    is a statement that returns a [Result] and never exits; [and_then]
    sequences two of them and short-circuits on a failure; [settle] is
    the one place where a failure is reported and the process ended, in
    the way [getEnvVarOrExit], [onErrorFail] and a nil dereference end it
    in the script.  [settle] turns the sequencing of results into the
    sequencing of statements, and each helper of the redesign into the
    helper of the script.

    The theorem: from the start of the process the redesigned program and
    the script have the same outcome and leave the same world, log,
    standard input and service included, except that the redesigned
    program never writes the client variables. *)

From S2P Require Import Prelude Monad GoFmt Sdk Runtime Mock Helpers Startup Provision.
From S2P Require Import Main.

(** ** Results *)

(** Why a step did not succeed. *)
Inductive Failure :=
| MissingVariable (varName : string)
| CallFailed (message : string) (e : goerror)
| NilPointer.

Definition Result (A : Type) : Type := Failure + A.

(** The immutable context: the five clients. *)
Abbreviation Context := Clients.

(** A statement that returns a result. *)
Abbreviation Try R A := (Proc R (Result A)).

Section redesign.
Context {R : Type} `{!Sdk R}.

Definition ok {A} (a : A) : Try R A := mret (inr a).
Definition failed {A} (f : Failure) : Try R A := mret (inl f).

(** Sequencing that stops at the first failure. *)
Definition and_then {A B} (m : Try R A) (k : A → Try R B) : Try R B :=
  r ← m;
  match r with
  | inl f => failed f
  | inr a => k a
  end.

(** A statement of the runtime, which cannot fail. *)
Definition attempt {A} (m : Proc R A) : Try R A := a ← m; ok a.

(** The one place where a failure ends the process. *)
Definition report {A} (f : Failure) : Proc R A :=
  match f with
  | MissingVariable varName =>
      Printf ("Missing environment variable %s" +:+ nl) [varName];; Exit 1
  | CallFailed message e =>
      Printf ("%s: %s" +:+ nl) [message; Error e];; Exit 1
  | NilPointer => panic nil_dereference
  end.

Definition settle {A} (m : Try R A) : Proc R A :=
  r ← m;
  match r with
  | inl f => report f
  | inr a => mret a
  end.

End redesign.

Declare Scope try_scope.
Delimit Scope try_scope with try.
Notation "x ← y ; z" := (and_then y (λ x : _, z))
  (at level 20, y at level 100, z at level 200, only parsing) : try_scope.
Notation "' x ← y ; z" := (and_then y (λ x : _, z))
  (at level 20, x pattern, y at level 100, z at level 200, only parsing) : try_scope.
Notation "y ;; z" := (and_then y (λ _, z))
  (at level 100, z at level 200, only parsing, right associativity) : try_scope.

(** ** The redesigned program *)

Section program.
Context {R : Type} `{!Sdk R}.
Local Open Scope try_scope.

Definition requireEnv (varName : string) : Try R string :=
  value ← attempt (Getenv varName);
  if decide (value = "") then failed (MissingVariable varName) else ok value.

Definition check (err : option goerror) (message : string) : Try R () :=
  match err with
  | Some e => failed (CallFailed message e)
  | None => ok ()
  end.

Definition nonnil {A} (p : option A) : Try R A :=
  match p with
  | Some a => ok a
  | None => failed NilPointer
  end.

(** The context, from the environment and the identity provider. *)
Definition connect : Try R Context :=
  subscriptionID ← requireEnv "AZURE_SUBSCRIPTION_ID";
  tenantID ← requireEnv "AZURE_TENANT_ID";
  '(oauthConfig, err) ← attempt (OAuthConfigForTenant PublicCloud tenantID);
  check err "OAuthConfigForTenant failed";;
  clientID ← requireEnv "AZURE_CLIENT_ID";
  clientSecret ← requireEnv "AZURE_CLIENT_SECRET";
  config ← nonnil oauthConfig;
  '(spToken, err) ← attempt (NewServicePrincipalToken config clientID clientSecret
                               (ResourceManagerEndpoint PublicCloud));
  check err "NewServicePrincipalToken failed";;
  ok (authorized_clients subscriptionID spToken).

(** One step of the script, on the client of the context. *)
Definition step (ctx : Context) (s : Step) : Try R () :=
  attempt (Print (step_line s));;
  reply ← attempt (invoke (client_of (step_client s) ctx) (step_request s));
  check (reply_err reply) (step_message s).

Definition show (label : string) (field : option string) : Try R () :=
  v ← nonnil field;
  attempt (Print (key_line label v)).

Definition keys (ctx : Context) : Try R () :=
  attempt (Print (step_line listKeys_step));;
  reply ← attempt (invoke (client_of Namespaces ctx) listKeys_request);
  check (reply_err reply) "List keys failed";;
  show "Key name" (KeyName (reply_keys reply));;
  show "Primary key" (PrimaryKey (reply_keys reply));;
  show "Secondary key" (SecondaryKey (reply_keys reply));;
  show "Primary connection string" (PrimaryConnectionString (reply_keys reply));;
  show "Secondary connection string" (SecondaryConnectionString (reply_keys reply)).

Definition provision (ctx : Context) : Try R () :=
  step ctx createResourceGroup_step;;
  step ctx createNamespace_step;;
  step ctx createAuthRule_step;;
  keys ctx;;
  step ctx createQueue_step;;
  step ctx createTopic_step;;
  step ctx createSubscription_step;;
  attempt (Print prompt);;
  attempt Scanln;;
  step ctx deleteResourceGroup_step.

Definition workflow : Try R () :=
  ctx ← connect;
  provision ctx.

(** The redesigned process. *)
Definition redesigned : Proc R () := settle workflow.

End program.

(** ** [settle] respects the structure *)

Section laws.
Context {R : Type} `{!Sdk R}.
Implicit Types (w : World R).

(** A report ends the process: nothing runs after it. *)
Lemma report_absorbs {A B} (f : Failure) (k : A → Proc R B) : report f ≫= k ≡ report f.
Proof. by destruct f. Qed.

Lemma settle_ok {A} (a : A) : settle (ok a) ≡@{Proc R A} mret a.
Proof. done. Qed.

Lemma settle_failed {A} (f : Failure) : settle (failed f) ≡@{Proc R A} report f.
Proof. done. Qed.

Lemma settle_attempt {A} (m : Proc R A) : settle (attempt m) ≡ m.
Proof. intros w. unfold settle, attempt. rewrite !run_bind. by destruct (m w) as [[]]. Qed.

(** [settle] takes the sequencing of results to the sequencing of
    statements. *)
Lemma settle_and_then {A B} (m : Try R A) (k : A → Try R B) :
  settle (and_then m k) ≡ settle m ≫= λ a, settle (k a).
Proof.
  intros w. unfold settle, and_then. rewrite !run_bind.
  destruct (m w) as [[[f|a]|code|msg] w']; simpl; [|done..].
  symmetry. apply (report_absorbs f).
Qed.

#[export] Instance settle_proper {A} : Proper ((≡) ==> (≡)) (settle (R := R) (A := A)).
Proof. intros m1 m2 Hm w. unfold settle. by rewrite !run_bind, Hm. Qed.

(** The helpers of the redesign settle to the helpers of the script. *)
Lemma settle_requireEnv varName :
  settle (requireEnv varName) ≡@{Proc R string} getEnvVarOrExit varName.
Proof.
  unfold requireEnv. rewrite settle_and_then, settle_attempt.
  unfold getEnvVarOrExit. intros w. rewrite !run_Getenv. by case_decide.
Qed.

Lemma settle_check err message :
  settle (check err message) ≡@{Proc R ()} onErrorFail err message.
Proof. by destruct err. Qed.

Lemma settle_nonnil {A} (p : option A) : settle (nonnil p) ≡@{Proc R A} deref p.
Proof. by destruct p. Qed.

End laws.

(** ** Statements that leave the client variables alone *)

Section oblivious.
Context {R : Type} `{!Sdk R}.
Implicit Types (w : World R).

(** [oblivious m]: [m] neither reads nor writes the client variables: it
    does the same whatever they hold, and leaves them as they are. *)
Definition oblivious {A} (m : Proc R A) : Prop :=
  ∀ f w, m (upd_clients f w) = ((m w).1, upd_clients f (m w).2).

#[export] Instance oblivious_proper {A} : Proper ((≡) ==> iff) (oblivious (A := A)).
Proof.
  intros m1 m2 Hm. unfold oblivious.
  split; intros H f w; [rewrite <- !Hm|rewrite !Hm]; apply H.
Qed.

Lemma oblivious_keeps {A} (m : Proc R A) w :
  oblivious m → w_clients (m w).2 = w_clients w.
Proof.
  intros Hm. specialize (Hm (λ _, w_clients w) w).
  replace (upd_clients (λ _, w_clients w) w) with w in Hm by by destruct w.
  by rewrite Hm at 1.
Qed.

Lemma oblivious_ret {A} (a : A) : oblivious (mret a).
Proof. done. Qed.

Lemma oblivious_exit {A} code : oblivious (Exit (A := A) code).
Proof. done. Qed.

Lemma oblivious_deref {A} (p : option A) : oblivious (deref p).
Proof. by destruct p. Qed.

Lemma oblivious_bind {A B} (m : Proc R A) (k : A → Proc R B) :
  oblivious m → (∀ a, oblivious (k a)) → oblivious (m ≫= k).
Proof.
  intros Hm Hk f w. rewrite !run_bind, Hm.
  destruct (m w) as [[a|code|msg] w']; simpl; [apply Hk|done..].
Qed.

Lemma oblivious_Getenv name : oblivious (Getenv name).
Proof. done. Qed.

Lemma oblivious_Printf format args : oblivious (Printf format args).
Proof. done. Qed.

Lemma oblivious_Print text : oblivious (Print text).
Proof. done. Qed.

Lemma oblivious_Scanln : oblivious Scanln.
Proof. intros f w. by rewrite !Scanln_eq. Qed.

Lemma oblivious_invoke c request : oblivious (invoke c request).
Proof. intros f w. by rewrite !invoke_eq. Qed.

Lemma oblivious_OAuthConfigForTenant env tenantID :
  oblivious (OAuthConfigForTenant env tenantID).
Proof. intros f w. by rewrite !OAuthConfigForTenant_eq. Qed.

Lemma oblivious_NewServicePrincipalToken config clientID secret resource :
  oblivious (NewServicePrincipalToken config clientID secret resource).
Proof. intros f w. by rewrite !NewServicePrincipalToken_eq. Qed.

End oblivious.

Create HintDb obl discriminated.
#[export] Hint Resolve oblivious_Getenv oblivious_Printf oblivious_Print oblivious_Scanln
  oblivious_invoke oblivious_OAuthConfigForTenant oblivious_NewServicePrincipalToken
  : obl.

Ltac oblivious_stmt :=
  repeat lazymatch goal with
  | |- oblivious (_ ≫= _) => apply oblivious_bind; [|intros ?]
  | |- oblivious (mret _) => apply oblivious_ret
  | |- oblivious (Exit _) => apply oblivious_exit
  | |- oblivious (deref _) => apply oblivious_deref
  | |- oblivious (if decide _ then _ else _) => case_decide
  | |- oblivious (match ?x with _ => _ end) => destruct x
  | |- oblivious _ => solve [auto with obl]
  end.

Section oblivious_helpers.
Context {R : Type} `{!Sdk R}.

Lemma oblivious_getEnvVarOrExit varName : oblivious (getEnvVarOrExit (R := R) varName).
Proof. unfold getEnvVarOrExit. oblivious_stmt. Qed.

Lemma oblivious_onErrorFail err message : oblivious (onErrorFail (R := R) err message).
Proof. unfold onErrorFail. oblivious_stmt. Qed.

End oblivious_helpers.

#[export] Hint Resolve oblivious_getEnvVarOrExit oblivious_onErrorFail : obl.

(** ** The steps *)

Section steps.
Context {R : Type} `{!Sdk R}.
Implicit Types (w : World R) (cs : Clients).

(** [from cs m1 m2]: the two statements do the same in every world whose
    client variables hold [cs]. *)
Definition from cs {A} (m1 m2 : Proc R A) : Prop :=
  ∀ w, w_clients w = cs → m1 w = m2 w.

#[export] Instance from_proper cs {A} :
  Proper ((≡) ==> (≡) ==> iff) (from cs (A := A)).
Proof.
  intros m1 m1' H1 m2 m2' H2. unfold from.
  split; intros H w Hw; [rewrite <- H1, <- H2|rewrite H1, H2]; by apply H.
Qed.

Lemma from_refl cs {A} (m : Proc R A) : from cs m m.
Proof. by intros w _. Qed.

Lemma from_bind cs {A B} (m1 m2 : Proc R A) (k1 k2 : A → Proc R B) :
  from cs m1 m2 → oblivious m2 → (∀ a, from cs (k1 a) (k2 a)) →
  from cs (m1 ≫= k1) (m2 ≫= k2).
Proof.
  intros Hm Ho Hk w Hw. rewrite !run_bind, (Hm w Hw).
  pose proof (oblivious_keeps m2 w Ho) as Hcs.
  destruct (m2 w) as [[a|code|msg] w']; simpl in *; [apply Hk; congruence|done..].
Qed.

(** A call through a client variable is a call through the client the
    variable holds. *)
Lemma from_call cs var request : from cs (call var request) (invoke (var cs) request).
Proof. intros w <-. done. Qed.

(** What a step of the redesign settles to. *)
Lemma settle_step ctx s :
  settle (step ctx s)
  ≡ (Print (step_line s);;
     reply ← invoke (client_of (step_client s) ctx) (step_request s);
     onErrorFail (reply_err reply) (step_message s)).
Proof.
  unfold step. rewrite settle_and_then, settle_attempt. f_equiv. intros [].
  rewrite settle_and_then, settle_attempt. f_equiv. intros reply. apply settle_check.
Qed.

Lemma settle_show label field :
  settle (show label field) ≡@{Proc R ()} (v ← deref field; Print (key_line label v)).
Proof.
  unfold show. rewrite settle_and_then, settle_nonnil. f_equiv. intros v.
  apply settle_attempt.
Qed.

Lemma settle_keys ctx :
  settle (keys ctx)
  ≡ (Print (step_line listKeys_step);;
     reply ← invoke (client_of Namespaces ctx) listKeys_request;
     onErrorFail (reply_err reply) "List keys failed";;
     v ← deref (KeyName (reply_keys reply)); Print (key_line "Key name" v);;
     v ← deref (PrimaryKey (reply_keys reply)); Print (key_line "Primary key" v);;
     v ← deref (SecondaryKey (reply_keys reply)); Print (key_line "Secondary key" v);;
     v ← deref (PrimaryConnectionString (reply_keys reply));
     Print (key_line "Primary connection string" v);;
     v ← deref (SecondaryConnectionString (reply_keys reply));
     Print (key_line "Secondary connection string" v)).
Proof.
  unfold keys. rewrite settle_and_then, settle_attempt. f_equiv. intros [].
  rewrite settle_and_then, settle_attempt. f_equiv. intros reply.
  rewrite settle_and_then, settle_check. f_equiv. intros [].
  rewrite settle_and_then, settle_show, proc_assoc. f_equiv. intros ?. f_equiv. intros [].
  rewrite settle_and_then, settle_show, proc_assoc. f_equiv. intros ?. f_equiv. intros [].
  rewrite settle_and_then, settle_show, proc_assoc. f_equiv. intros ?. f_equiv. intros [].
  rewrite settle_and_then, (settle_show "Primary connection string"), proc_assoc.
  f_equiv. intros ?. f_equiv. intros []. apply settle_show.
Qed.

Lemma oblivious_settle_step ctx s : oblivious (settle (step ctx s)).
Proof. rewrite settle_step. oblivious_stmt. Qed.

Lemma oblivious_settle_keys ctx : oblivious (settle (keys ctx)).
Proof. rewrite settle_keys. oblivious_stmt. Qed.

(** Each step of the script is the step of the redesign on the clients
    the variables hold. *)
Lemma perform_step cs s : from cs (perform s) (settle (step cs s)).
Proof.
  rewrite settle_step. unfold perform, api_step.
  apply from_bind; [apply from_refl|oblivious_stmt|intros ?].
  apply from_bind; [apply from_call|oblivious_stmt|intros ?; apply from_refl].
Qed.

Lemma listKeys_keys cs : from cs listKeys (settle (keys cs)).
Proof.
  rewrite settle_keys. unfold listKeys.
  apply from_bind; [apply from_refl|oblivious_stmt|intros ?].
  apply from_bind; [apply (from_call cs namespaceClient)|oblivious_stmt|intros ?].
  apply from_refl.
Qed.

End steps.

#[export] Hint Resolve oblivious_settle_step oblivious_settle_keys : obl.

(** ** The two programs *)

Section equivalence.
Context {R : Type} `{!Sdk R}.
Implicit Types (w : World R) (cs : Clients).

(** The sequence of the redesign settles step by step. *)
Lemma settle_provision ctx :
  settle (provision ctx)
  ≡ (settle (step ctx createResourceGroup_step);;
     settle (step ctx createNamespace_step);;
     settle (step ctx createAuthRule_step);;
     settle (keys ctx);;
     settle (step ctx createQueue_step);;
     settle (step ctx createTopic_step);;
     settle (step ctx createSubscription_step);;
     Print prompt;;
     Scanln;;
     settle (step ctx deleteResourceGroup_step)).
Proof.
  unfold provision. do 7 (rewrite settle_and_then; f_equiv; intros []).
  do 2 (rewrite settle_and_then, settle_attempt; f_equiv; intros ?).
Qed.

Lemma oblivious_provision ctx : oblivious (settle (provision ctx)).
Proof. rewrite settle_provision. oblivious_stmt. Qed.

(** From a world whose client variables hold [cs], [main] is the sequence
    of the redesign on the context [cs]. *)
Lemma main_provision cs : from cs main (settle (provision cs)).
Proof.
  rewrite settle_provision. unfold main.
  rewrite createResourceGroup_shape, createNamespace_shape, createAuthRule_shape,
    createQueue_shape, createTopic_shape, createSubscription_shape,
    deleteResourceGroup_shape.
  do 3 (apply from_bind; [apply perform_step|auto with obl|intros ?]).
  apply from_bind; [apply listKeys_keys|auto with obl|intros ?].
  do 3 (apply from_bind; [apply perform_step|auto with obl|intros ?]).
  do 2 (apply from_bind; [apply from_refl|auto with obl|intros ?]).
  apply perform_step.
Qed.

(** What the construction of the context settles to: the statements of
    [init] up to [createClients], returning the clients instead of
    storing them. *)
Lemma settle_connect :
  settle connect
  ≡@{Proc R Context}
    (subscriptionID ← getEnvVarOrExit "AZURE_SUBSCRIPTION_ID";
     tenantID ← getEnvVarOrExit "AZURE_TENANT_ID";
     '(oauthConfig, err) ← OAuthConfigForTenant PublicCloud tenantID;
     onErrorFail err "OAuthConfigForTenant failed";;
     clientID ← getEnvVarOrExit "AZURE_CLIENT_ID";
     clientSecret ← getEnvVarOrExit "AZURE_CLIENT_SECRET";
     config ← deref oauthConfig;
     '(spToken, err) ← NewServicePrincipalToken config clientID clientSecret
                          (ResourceManagerEndpoint PublicCloud);
     onErrorFail err "NewServicePrincipalToken failed";;
     mret (authorized_clients subscriptionID spToken)).
Proof.
  unfold connect.
  do 2 (rewrite settle_and_then, settle_requireEnv; f_equiv; intros ?).
  rewrite settle_and_then, settle_attempt. f_equiv. intros [oauthConfig err].
  rewrite settle_and_then, settle_check. f_equiv. intros [].
  do 2 (rewrite settle_and_then, settle_requireEnv; f_equiv; intros ?).
  rewrite settle_and_then, settle_nonnil. f_equiv. intros config.
  rewrite settle_and_then, settle_attempt. f_equiv. intros [spToken err'].
  rewrite settle_and_then, settle_check. by f_equiv.
Qed.

Lemma oblivious_connect : oblivious (settle (connect (R := R))).
Proof. rewrite settle_connect. oblivious_stmt. Qed.

(** [init] builds the context of the redesign and stores it in the
    client variables. *)
Lemma init_connect :
  init ≡@{Proc R ()} settle connect ≫= λ ctx, modify (upd_clients (λ _, ctx)).
Proof.
  rewrite settle_connect. unfold init.
  do 2 (rewrite proc_assoc; f_equiv; intros ?).
  rewrite proc_assoc. f_equiv. intros [oauthConfig err].
  do 4 (rewrite proc_assoc; f_equiv; intros ?).
  rewrite proc_assoc. f_equiv. intros [spToken err'].
  rewrite proc_assoc. f_equiv. intros ?. done.
Qed.

(** The script, with the context made explicit. *)
Lemma program_connect :
  program ≡@{Proc R ()}
  settle connect ≫= λ ctx, modify (upd_clients (λ _, ctx));; main.
Proof. unfold program. by rewrite init_connect, proc_assoc. Qed.

(** From any world, the redesigned program does what the script does and
    leaves the client variables as they were. *)
Lemma program_redesigned w :
  redesigned w = ((program w).1, upd_clients (λ _, w_clients w) (program w).2).
Proof.
  unfold redesigned, workflow.
  rewrite (settle_and_then connect provision w), (program_connect w), !run_bind.
  pose proof (oblivious_keeps _ w oblivious_connect) as Hcs.
  destruct (settle connect w) as [[ctx|code|msg] w1]; cbn [fst snd] in *;
    [|by destruct w1; simpl in *; subst..].
  rewrite run_modify, (main_provision ctx (upd_clients (λ _, ctx) w1) eq_refl),
    (oblivious_provision ctx (λ _, ctx) w1).
  pose proof (oblivious_keeps _ w1 (oblivious_provision ctx)) as Hcs'.
  destruct (settle (provision ctx) w1) as [o w2]. simpl in *.
  f_equal. destruct w2; simpl in *. unfold upd_clients. simpl. congruence.
Qed.

(** C10. The redesign asked for by the design notes, with the clients in
    an immutable context passed to each step and every failure returned
    as a value and reported in one place, behaves as the script does:
    from the start of the process it ends with the same outcome and
    leaves the same log, the same service and the same standard input.
    The only difference is that it never writes the client variables. *)
Theorem redesign_equivalent env stdin (remote : R) :
  redesigned (initial_world env stdin remote)
  = ((run env stdin remote).1,
     upd_clients (λ _, zero_clients) (run env stdin remote).2).
Proof. apply program_redesigned. Qed.

End equivalence.

(** ** Failures are values *)

Section total.
Context {R : Type} `{!Sdk R}.
Implicit Types (w : World R).

(** [total m]: [m] always returns; it neither exits nor panics. *)
Definition total {A} (m : Proc R A) : Prop := ∀ w, returned (m w).1 = true.

Lemma total_ret {A} (a : A) : total (mret a).
Proof. done. Qed.

Lemma total_bind {A B} (m : Proc R A) (k : A → Proc R B) :
  total m → (∀ a, total (k a)) → total (m ≫= k).
Proof.
  intros Hm Hk w. rewrite run_bind. specialize (Hm w).
  destruct (m w) as [[a|code|msg] w']; [apply Hk|done..].
Qed.

Lemma total_and_then {A B} (m : Try R A) (k : A → Try R B) :
  total m → (∀ a, total (k a)) → total (and_then m k).
Proof. intros Hm Hk. apply total_bind; [done|]. by intros [f|a]. Qed.

(** A statement of the runtime returns, and so does its attempt. *)
Lemma total_attempt {A} (m : Proc R A) : total m → total (attempt m).
Proof. intros Hm. by apply total_bind. Qed.

Lemma total_Getenv name : total (Getenv name).
Proof. done. Qed.

Lemma total_Print text : total (Print text).
Proof. done. Qed.

Lemma total_Scanln : total Scanln.
Proof. intros w. by rewrite Scanln_eq. Qed.

Lemma total_invoke c request : total (invoke c request).
Proof. intros w. by rewrite invoke_eq. Qed.

Lemma total_OAuthConfigForTenant env tenantID : total (OAuthConfigForTenant env tenantID).
Proof. intros w. by rewrite OAuthConfigForTenant_eq. Qed.

Lemma total_NewServicePrincipalToken config clientID secret resource :
  total (NewServicePrincipalToken config clientID secret resource).
Proof. intros w. by rewrite NewServicePrincipalToken_eq. Qed.

End total.

Create HintDb tot discriminated.
#[export] Hint Resolve total_Getenv total_Print total_Scanln total_invoke
  total_OAuthConfigForTenant total_NewServicePrincipalToken : tot.

Ltac total_stmt :=
  repeat lazymatch goal with
  | |- total (and_then _ _) => apply total_and_then; [|intros ?]
  | |- total (attempt _) => apply total_attempt
  | |- total (ok _) => apply total_ret
  | |- total (failed _) => apply total_ret
  | |- total (if decide _ then _ else _) => case_decide
  | |- total (match ?x with _ => _ end) => destruct x
  | |- total _ => solve [auto with tot]
  end.

Section results.
Context {R : Type} `{!Sdk R}.
Implicit Types (w : World R).

Lemma total_step ctx s : total (step (R := R) ctx s).
Proof. unfold step, check. total_stmt. Qed.

Lemma total_keys ctx : total (keys (R := R) ctx).
Proof. unfold keys, show, check, nonnil. total_stmt. Qed.

Hint Resolve total_step total_keys : tot.

Lemma total_workflow : total (workflow (R := R)).
Proof. unfold workflow, provision, connect, requireEnv, check, nonnil. total_stmt. Qed.

(** The exit status a failure is reported with. *)
Definition failure_status (f : Failure) : Z :=
  match f with
  | NilPointer => 2
  | _ => 1
  end.

(** C19. In the redesign no step ends the process: the whole sequence
    returns, with a value that says whether it succeeded or how it
    failed, and that value determines the exit status of the script:
    0 for success, 2 for a nil pointer, 1 for any other failure. *)
Theorem workflow_result env stdin (remote : R) :
  ∃ r, (workflow (initial_world env stdin remote)).1 = Returned r ∧
       exit_status (run env stdin remote).1
       = match r with inr _ => 0%Z | inl f => failure_status f end.
Proof.
  pose proof (program_redesigned (initial_world env stdin remote)) as Hrun.
  pose proof (total_workflow (initial_world env stdin remote)) as Hret.
  unfold redesigned, settle in Hrun. rewrite run_bind in Hrun. unfold run.
  destruct (workflow _) as [[r|code|msg] w']; [|done..]. exists r. split; [done|].
  destruct r as [[]|[]]; simpl in Hrun; by injection Hrun as <- _.
Qed.

End results.
