(* ===== verification/Success.v ===== *)
(** * Runs against a service that honours the script

    The theorems of the other files hold whatever the SDK answers.  This
    file is about the other direction: when the four variables are set and
    the service answers the handshake and each request of the script
    without error, with keys whose five fields are set, the process goes
    through the whole script, returns with status 0 having issued the eight
    requests, and has printed exactly the seven progress lines, the five
    lines of the keys, the prompt and the line of the deletion.

    [Reliable cred plan trusted good] is that assumption on an SDK.
    [cred] is the credential of the environment; [plan] is the list of
    requests the service is relied on for, the whole script or a prefix
    of it; [good rs r] says that [r] is a state of the service in which
    the requests [rs] have been served; [trusted] holds of the tokens the
    service honours.  From [good []] the handshake with [cred] succeeds
    and gives a trusted token; from [good rs] the next request of the
    plan, made through the client authorised with a trusted token,
    succeeds and leaves [good] of the longer list.  The proof follows the
    text of [init] and [main] with the rule of sequencing for [returns];
    [exits_perform] and [exits_listKeys] are the steps at which a run
    stops when the service is relied on for a prefix of the script
    only. *)

From S2P Require Import Prelude Monad GoFmt Sdk Runtime Mock Helpers Startup Provision.
From S2P Require Import Main.

(** ** The credential *)

(** The four identifiers the process is given. *)
Record Credential := {
  cred_subscription : string;
  cred_tenant : string;
  cred_client : string;
  cred_secret : string
}.

(** The credential an environment holds. *)
Definition credential (env : gmap string string) : Credential := {|
  cred_subscription := default "" (env !! "AZURE_SUBSCRIPTION_ID");
  cred_tenant := default "" (env !! "AZURE_TENANT_ID");
  cred_client := default "" (env !! "AZURE_CLIENT_ID");
  cred_secret := default "" (env !! "AZURE_CLIENT_SECRET")
|}.

(** The requests of the script, in order. *)
Definition script : list Request := step_request <$> script_steps.

(** ** The assumption *)

Class Reliable {R : Type} `{!Sdk R} (cred : Credential) (plan : list Request)
    (trusted : option ServicePrincipalToken → Prop)
    (good : list Request → R → Prop) : Prop := {
  reliable_handshake r :
    good [] r →
    ∃ config r1 spToken r2,
      sdk_OAuthConfigForTenant PublicCloud (cred_tenant cred) r
      = ((Some config, None), r1) ∧
      sdk_NewServicePrincipalToken config (cred_client cred) (cred_secret cred)
        (ResourceManagerEndpoint PublicCloud) r1
      = ((spToken, None), r2) ∧
      trusted spToken ∧ good [] r2;
  reliable_perform spToken request rs r :
    trusted spToken → good rs r → rs ++ [request] `prefix_of` plan →
    let c := authorized (cred_subscription cred) spToken (request_kind request) in
    reply_err (sdk_perform c request r).1 = None ∧
    (request = listKeys_request →
     keys_complete (reply_keys (sdk_perform c request r).1) = true) ∧
    good (rs ++ [request]) (sdk_perform c request r).2
}.

(** ** What a complete run prints *)

(** The lines on standard output after a complete run in which the keys
    had the given values. *)
Definition transcript (values : list string) : list string :=
  [step_line createResourceGroup_step; step_line createNamespace_step;
   step_line createAuthRule_step; step_line listKeys_step]
  ++ zip_with key_line key_labels values
  ++ [step_line createQueue_step; step_line createTopic_step;
      step_line createSubscription_step; prompt; step_line deleteResourceGroup_step].

Section success.
Context {R : Type} `{!Sdk R} (cred : Credential) (plan : list Request)
  (trusted : option ServicePrincipalToken → Prop) (good : list Request → R → Prop)
  `{!Reliable cred plan trusted good}.
Implicit Types (w : World R) (out : list string) (rs : list Request).

(** The worlds [main] passes through: the service has served [rs], the
    client variables hold the clients authorised with a trusted token,
    standard output holds [out] and the requests issued are [rs]. *)
Definition sound (spToken : option ServicePrincipalToken) out rs w : Prop :=
  good rs (w_remote w) ∧
  w_clients w = authorized_clients (cred_subscription cred) spToken ∧
  trusted spToken ∧ stdout w = out ∧ requests w = rs.

(** The world [init] starts in. *)
Definition ready w : Prop :=
  good [] (w_remote w) ∧
  Forall (λ name, env_value w name ≠ "") required_variables ∧
  credential (w_env w) = cred ∧ stdout w = [] ∧ requests w = [].

(** *** [init] *)

Lemma init_returns :
  returns ready (init (R := R)) (λ _ w, ∃ spToken, sound spToken [] [] w).
Proof.
  intros w (Hg & Hv & Hcred & Hout & Hrs).
  destruct (reliable_handshake _ Hg) as (config & r1 & spToken & r2 & Hc & Ht & Htr & Hg2).
  rewrite <- Hcred in Hc, Ht.
  destruct (init_succeeds w config r1 spToken r2 Hv Hc Ht) as (w' & Hrun & Hr & Hcs & Htrace).
  exists (), w'. split; [done|]. exists spToken.
  split_and!; [by rewrite Hr|by rewrite <- Hcred|done| |].
  - by rewrite (stdout_app _ _ _ Htrace), Hout.
  - by rewrite (requests_app _ _ _ Htrace), Hrs.
Qed.

(** *** The statements of [main] *)

(** From a sound world to a world with more events. *)
Lemma sound_grow spToken out rs rs' evs w w' :
  w_trace w' = w_trace w ++ evs → w_clients w' = w_clients w →
  good rs' (w_remote w') → rs' = rs ++ requests_in evs →
  sound spToken out rs w → sound spToken (out ++ omap printed_of evs) rs' w'.
Proof.
  intros Ht Hc Hg -> (_ & Hcs & Htr & <- & <-).
  split_and!; [done|congruence|done|by apply stdout_app|by apply requests_app].
Qed.

(** The world after the call of a step is sound, with the step's line and
    request added. *)
Lemma sound_after_step spToken out rs s w :
  rs ++ [step_request s] `prefix_of` plan →
  step_client s = request_kind (step_request s) →
  sound spToken out rs w →
  reply_err (step_reply s w) = None ∧
  (s = listKeys_step → keys_complete (reply_keys (step_reply s w)) = true) ∧
  sound spToken (out ++ [step_line s]) (rs ++ [step_request s])
    (after_step (step_line s) (client_of (step_client s) (w_clients w)) (step_request s) w).
Proof.
  intros Hrs Hkind Hw. pose proof Hw as (Hg & Hcs & Htr & _).
  destruct (reliable_perform spToken (step_request s) rs (w_remote w) Htr Hg Hrs)
    as (Herr & Hk & Hg'). unfold step_reply, reply_to.
  assert (client_of (step_client s) (w_clients w)
          = authorized (cred_subscription cred) spToken (request_kind (step_request s)))
    as -> by (rewrite Hcs, Hkind; by destruct (request_kind _)).
  split; [done|]. split; [by intros ->; apply Hk|].
  eapply (sound_grow spToken out rs _ [EvPrint _; EvCall _ _ _]);
    [apply after_step_trace|done..].
Qed.

Lemma returns_perform spToken out rs s :
  rs ++ [step_request s] `prefix_of` plan →
  step_client s = request_kind (step_request s) → s ≠ listKeys_step →
  returns (sound spToken out rs) (perform s)
    (λ _, sound spToken (out ++ [step_line s]) (rs ++ [step_request s])).
Proof.
  intros Hrs Hkind Hk w Hw.
  destruct (sound_after_step spToken out rs s w Hrs Hkind Hw) as (Herr & _ & Hw').
  eexists _, _. split; [by apply api_step_ok|done].
Qed.

(** Keys whose fields are all set give five values. *)
Lemma keys_complete_values keys :
  keys_complete keys = true → length (leading_values (key_values keys)) = 5.
Proof. by destruct keys as [[a|] [b|] [c|] [d|] [e|]]. Qed.

Lemma returns_listKeys spToken out rs :
  rs ++ [listKeys_request] `prefix_of` plan →
  returns (sound spToken out rs) (listKeys (R := R))
    (λ _ w, ∃ values, length values = 5 ∧
       sound spToken (out ++ step_line listKeys_step :: zip_with key_line key_labels values)
         (rs ++ [listKeys_request]) w).
Proof.
  intros Hrs w Hw.
  destruct (sound_after_step spToken out rs listKeys_step w Hrs eq_refl Hw)
    as (Herr & Hk & Hw').
  specialize (Hk eq_refl). rewrite listKeys_eq. cbv zeta.
  change (reply_to _ listKeys_request w) with (step_reply listKeys_step w).
  rewrite Herr, Hk. eexists _, _. split; [done|].
  eexists. split; [by apply keys_complete_values|].
  set (lines := key_lines (reply_keys (step_reply listKeys_step w))).
  eapply (sound_grow _ _ _ _ (EvPrint <$> lines)) in Hw';
    [|apply add_events_trace|apply add_events_clients
     |rewrite add_events_remote; exact (proj1 Hw')
     |by rewrite requests_in_prints, app_nil_r].
  by rewrite printed_prints, <- app_assoc in Hw'.
Qed.

Lemma returns_gate spToken out rs :
  returns (sound spToken out rs) (Print prompt;; Scanln (R := R))
    (λ _, sound spToken (out ++ [prompt]) rs).
Proof.
  intros w Hw. rewrite run_Print, Scanln_eq. eexists _, _. split; [done|].
  apply (sound_grow spToken out rs rs [EvPrint prompt; EvScanln (head (w_stdin w))] w);
    [|done|exact (proj1 Hw)|by rewrite app_nil_r|done].
  cbn [w_trace add_event set_stdin]. by rewrite <- app_assoc.
Qed.

(** *** The script *)

Lemma main_returns spToken :
  script `prefix_of` plan →
  returns (sound spToken [] []) (main (R := R))
    (λ _ w, ∃ values, length values = 5 ∧ sound spToken (transcript values) script w).
Proof.
  intros Hplan. unfold main.
  rewrite createResourceGroup_shape, createNamespace_shape, createAuthRule_shape,
    createQueue_shape, createTopic_shape, createSubscription_shape,
    deleteResourceGroup_shape.
  assert (∀ rs, rs `prefix_of` script → rs `prefix_of` plan) as Hrs
    by (intros rs ?; by etrans).
  do 3 (eapply returns_bind;
          [apply returns_perform; [apply Hrs; compute_done|done..]|intros ?]).
  eapply returns_bind; [apply returns_listKeys, Hrs; compute_done|intros ?].
  apply returns_exists. intros values. apply returns_pure. intros Hlen.
  do 3 (eapply returns_bind;
          [apply returns_perform; [apply Hrs; compute_done|done..]|intros ?]).
  eapply returns_bind_seq; [apply returns_gate|intros ?].
  eapply returns_consequence;
    [done| |apply returns_perform; [apply Hrs; compute_done|done..]].
  intros ? w Hw. exists values. split; [done|].
  unfold transcript. by rewrite <- !app_assoc in Hw.
Qed.

Lemma program_returns :
  script `prefix_of` plan →
  returns ready (program (R := R))
    (λ _ w, ∃ spToken values,
       length values = 5 ∧ sound spToken (transcript values) script w).
Proof.
  intros Hplan. eapply returns_bind; [apply init_returns|intros ?].
  apply returns_exists. intros spToken.
  eapply returns_consequence; [done| |by apply main_returns].
  intros ? w (values & Hlen & Hw). by exists spToken, values.
Qed.

(** *** A step that the service refuses *)

(** From a sound world, a step whose call the service answers with an
    error, leaving its state as it is, ends the process with status 1
    after the progress line and the failure line. *)
Definition stopped (out : list string) (rs : list Request) w : Prop :=
  good (removelast rs) (w_remote w) ∧ stdout w = out ∧ requests w = rs.

Lemma exits_perform spToken out rs s e :
  step_client s = request_kind (step_request s) →
  (∀ r, good rs r →
        sdk_perform (authorized (cred_subscription cred) spToken
                       (request_kind (step_request s))) (step_request s) r
        = (reply_error e, r)) →
  exits (sound spToken out rs) (perform s) 1
    (stopped (out ++ [step_line s; failure_line (step_message s) e])
       (rs ++ [step_request s])).
Proof.
  intros Hkind Hfail w (Hg & Hcs & Htr & Hout & Hrs).
  assert (client_of (step_client s) (w_clients w)
          = authorized (cred_subscription cred) spToken (request_kind (step_request s)))
    as Hc by (rewrite Hcs, Hkind; by destruct (request_kind _)).
  eexists. split.
  - apply (api_step_error _ _ _ _ _ e). unfold reply_to.
    change (w_remote (add_event _ w)) with (w_remote w).
    by rewrite Hc, (Hfail _ Hg).
  - unfold stopped, after_step, after_call, stdout, requests.
    cbn [w_remote w_trace add_event set_remote].
    rewrite Hc, (Hfail _ Hg), removelast_last. cbn [fst snd].
    split_and!; [done| |].
    + rewrite !omap_app. fold (stdout w). rewrite Hout. simpl.
      by rewrite app_nil_r, <- app_assoc.
    + rewrite !requests_in_app. fold (requests w). rewrite Hrs. simpl.
      by rewrite !app_nil_r.
Qed.

Lemma exits_listKeys spToken out rs e :
  (∀ r, good rs r →
        sdk_perform (authorized (cred_subscription cred) spToken Namespaces)
          listKeys_request r
        = (reply_error e, r)) →
  exits (sound spToken out rs) (listKeys (R := R)) 1
    (stopped (out ++ [step_line listKeys_step; failure_line "List keys failed" e])
       (rs ++ [listKeys_request])).
Proof.
  intros Hfail w Hw. pose proof Hw as (Hg & Hcs & _).
  destruct (exits_perform spToken out rs listKeys_step e eq_refl Hfail w Hw)
    as (w' & Hrun & Hw').
  exists w'. split; [|done]. rewrite <- Hrun. unfold perform.
  rewrite listKeys_eq, api_step_eq. cbv zeta. unfold listKeys_line, reply_to.
  rewrite Hcs.
  change (namespaceClient (authorized_clients ?sub ?tok))
    with (authorized sub tok Namespaces).
  change (client_of (step_client listKeys_step) (authorized_clients ?sub ?tok))
    with (authorized sub tok Namespaces).
  change (step_request listKeys_step) with listKeys_request.
  by rewrite (Hfail _ Hg).
Qed.

End success.

(** C6. Against a service that honours the script, with the four
    variables set, the process runs the whole script: it returns with
    status 0, has issued the eight requests in order, the service has
    served them all, and standard output holds exactly the progress lines
    of the first four steps, the five lines of the keys, the progress
    lines of the next three steps, the prompt and the progress line of the
    deletion. *)
Theorem reliable_run `{Reliable R cred script trusted good} env stdin (remote : R) :
  credential env = cred → good [] remote →
  Forall (λ name, default "" (env !! name) ≠ "") required_variables →
  ∃ values, length values = 5 ∧
    (run env stdin remote).1 = Returned () ∧
    stdout (run env stdin remote).2 = transcript values ∧
    requests (run env stdin remote).2 = script ∧
    good script (w_remote (run env stdin remote).2).
Proof.
  intros Hcred Hg Hv.
  destruct (program_returns cred script trusted good (reflexivity _)
              (initial_world env stdin remote))
    as ([] & w & Hrun & Hw); [by split_and!|].
  destruct Hw as (spToken & values & Hlen & Hg' & _ & _ & Hout & Hrs).
  exists values. unfold run. by rewrite Hrun.
Qed.

(** ** A reliable service *)

#[export] Instance steady_reliable cred plan :
  Reliable cred plan (λ _, True) (λ _ (s : Steady), keys_complete (steady_keys s) = true).
Proof.
  split.
  - intros s Hs. by eexists _, _, _, _.
  - intros spToken request rs s _ Hs Hrs. split_and!; [by destruct request| |done].
    by intros ->.
Qed.

Lemma reliable_run_witness :
  ∃ values, length values = 5 ∧
    (run sample_env [""] {| steady_keys := sample_keys |}).1 = Returned () ∧
    stdout (run sample_env [""] {| steady_keys := sample_keys |}).2 = transcript values ∧
    requests (run sample_env [""] {| steady_keys := sample_keys |}).2 = script ∧
    keys_complete
      (steady_keys (w_remote (run sample_env [""] {| steady_keys := sample_keys |}).2))
    = true.
Proof.
  apply (reliable_run (cred := credential sample_env) (trusted := λ _, True)
           (good := λ _ (s : Steady), keys_complete (steady_keys s) = true));
    [reflexivity..|compute_done].
Defined.
