(* ===== verification/Cloud.v ===== *)
(** * A reference model of the management service

    The other side of the [Sdk] interface, written from the description of
    the service: a directory that knows one tenant, its service principals
    and the subscriptions they may manage, and a store of resources
    addressed by their path (resource group, namespace, and below a
    namespace its authorization rules, queues and topics, and below a topic
    its subscriptions).

    A request is served only for a client whose token the directory
    accepts.  A create-or-update needs the parent of the resource to exist
    and then writes the resource; [ListKeys] needs the rule to exist; the
    deletion of a resource group removes the group and everything below
    it.  A request that fails changes nothing.

    The theorems: every request keeps the store well scoped (each resource
    has its parent) and well typed; a deletion removes exactly the
    resources of the group; a failed or unauthorised request leaves the
    cloud as it was.  The cloud is an instance of [Sdk], and from a state
    in which the credential is registered it is [Reliable]: the script
    runs to its end on it, and leaves the resources of every other group
    as they were. *)

From S2P Require Import Prelude Monad GoFmt Sdk Runtime Mock Helpers Startup Provision.
From S2P Require Import Main Workflow Refinement Properties Transitions Success.

(** ** Resources *)

(** The path of a resource. *)
Inductive ResourceId :=
| GroupId (group : string)
| NamespaceId (group namespace : string)
| RuleId (group namespace rule : string)
| QueueId (group namespace queue : string)
| TopicId (group namespace topic : string)
| SubscriptionId (group namespace topic subscription : string).

#[export] Instance ResourceId_eq_dec : EqDecision ResourceId.
Proof. solve_decision. Defined.

Definition id_code (id : ResourceId) : nat * list string :=
  match id with
  | GroupId g => (0, [g])
  | NamespaceId g n => (1, [g; n])
  | RuleId g n r => (2, [g; n; r])
  | QueueId g n q => (3, [g; n; q])
  | TopicId g n t => (4, [g; n; t])
  | SubscriptionId g n t s => (5, [g; n; t; s])
  end.

Definition id_decode (code : nat * list string) : option ResourceId :=
  match code with
  | (0, [g]) => Some (GroupId g)
  | (1, [g; n]) => Some (NamespaceId g n)
  | (2, [g; n; r]) => Some (RuleId g n r)
  | (3, [g; n; q]) => Some (QueueId g n q)
  | (4, [g; n; t]) => Some (TopicId g n t)
  | (5, [g; n; t; s]) => Some (SubscriptionId g n t s)
  | _ => None
  end.

#[export] Instance ResourceId_countable : Countable ResourceId.
Proof. apply (inj_countable id_code id_decode). by intros []. Defined.

(** The resource a resource lives in. *)
Definition parent (id : ResourceId) : option ResourceId :=
  match id with
  | GroupId _ => None
  | NamespaceId g _ => Some (GroupId g)
  | RuleId g n _ | QueueId g n _ | TopicId g n _ => Some (NamespaceId g n)
  | SubscriptionId g n t _ => Some (TopicId g n t)
  end.

(** The resource group a resource belongs to. *)
Definition group_of (id : ResourceId) : string :=
  match id with
  | GroupId g | NamespaceId g _ | RuleId g _ _ | QueueId g _ _ | TopicId g _ _
  | SubscriptionId g _ _ _ => g
  end.

(** What the service keeps of a resource. *)
Inductive Resource :=
| AGroup (params : Group)
| ANamespace (params : NamespaceCreateOrUpdateParameters)
| ARule (params : SharedAccessAuthorizationRuleCreateOrUpdateParameters)
| AQueue (params : QueueCreateOrUpdateParameters)
| ATopic (params : TopicCreateOrUpdateParameters)
| ASubscription (params : SubscriptionCreateOrUpdateParameters).

#[export] Instance Resource_eq_dec : EqDecision Resource.
Proof. solve_decision. Defined.

Abbreviation Store := (gmap ResourceId Resource).

(** A resource is of the type its path says. *)
Definition fits (id : ResourceId) (resource : Resource) : bool :=
  match id, resource with
  | GroupId _, AGroup _ | NamespaceId _ _, ANamespace _ | RuleId _ _ _, ARule _
  | QueueId _ _ _, AQueue _ | TopicId _ _ _, ATopic _
  | SubscriptionId _ _ _ _, ASubscription _ => true
  | _, _ => false
  end.

(** ** Requests *)

(** The resource a request addresses. *)
Definition target (request : Request) : ResourceId :=
  match request with
  | GroupsCreateOrUpdate g _ | GroupsDelete g => GroupId g
  | NamespacesCreateOrUpdate g n _ => NamespaceId g n
  | NamespacesCreateOrUpdateAuthorizationRule g n r _ | NamespacesListKeys g n r =>
      RuleId g n r
  | QueuesCreateOrUpdate g n q _ => QueueId g n q
  | TopicsCreateOrUpdate g n t _ => TopicId g n t
  | SubscriptionsCreateOrUpdate g n t s _ => SubscriptionId g n t s
  end.

(** What a request asks for. *)
Inductive Verb :=
| Put (resource : Resource)
| Remove
| ReadKeys.

Definition verb (request : Request) : Verb :=
  match request with
  | GroupsCreateOrUpdate _ params => Put (AGroup params)
  | GroupsDelete _ => Remove
  | NamespacesCreateOrUpdate _ _ params => Put (ANamespace params)
  | NamespacesCreateOrUpdateAuthorizationRule _ _ _ params => Put (ARule params)
  | NamespacesListKeys _ _ _ => ReadKeys
  | QueuesCreateOrUpdate _ _ _ params => Put (AQueue params)
  | TopicsCreateOrUpdate _ _ _ params => Put (ATopic params)
  | SubscriptionsCreateOrUpdate _ _ _ _ params => Put (ASubscription params)
  end.

(** The errors of the service. *)
Definition parent_not_found : goerror := mkError "ParentResourceNotFound".
Definition not_found : goerror := mkError "ResourceNotFound".
Definition forbidden : goerror := mkError "AuthorizationFailed".
Definition invalid_client : goerror := mkError "invalid_client".

(** The keys of a rule: the service derives them from the namespace and
    the name of the rule; all five fields are set. *)
Definition key_of (which namespace rule : string) : string :=
  which +:+ "-key-of-" +:+ rule +:+ "@" +:+ namespace.

Definition connection_string (namespace rule key : string) : string :=
  "Endpoint=sb://" +:+ namespace +:+ ".servicebus.windows.net/;SharedAccessKeyName="
  +:+ rule +:+ ";SharedAccessKey=" +:+ key.

Definition keys_of (id : ResourceId) : ResourceListKeys :=
  match id with
  | RuleId _ n r =>
      {| KeyName := Some r;
         PrimaryKey := Some (key_of "primary" n r);
         SecondaryKey := Some (key_of "secondary" n r);
         PrimaryConnectionString :=
           Some (connection_string n r (key_of "primary" n r));
         SecondaryConnectionString :=
           Some (connection_string n r (key_of "secondary" n r)) |}
  | _ => no_keys
  end.

(** A resource can be written when its parent exists. *)
Definition admitted (store : Store) (id : ResourceId) : Prop :=
  match parent id with
  | None => True
  | Some p => is_Some (store !! p)
  end.

#[export] Instance admitted_dec store id : Decision (admitted store id).
Proof. unfold admitted. destruct (parent id); apply _. Defined.

(** The store without a resource group and what is below it. *)
Definition without (g : string) (store : Store) : Store :=
  filter (λ entry, group_of entry.1 ≠ g) store.

(** A request served on a store: the reply and the store it leaves. *)
Definition serve (request : Request) (store : Store) : Reply * Store :=
  let id := target request in
  match verb request with
  | Put resource =>
      if decide (admitted store id)
      then (reply_ok, <[id := resource]> store)
      else (reply_error parent_not_found, store)
  | Remove =>
      if decide (is_Some (store !! id))
      then (reply_ok, without (group_of id) store)
      else (reply_error not_found, store)
  | ReadKeys =>
      if decide (is_Some (store !! id))
      then (reply_with_keys (keys_of id), store)
      else (reply_error not_found, store)
  end.

(** ** The directory *)

Record Directory := {
  dir_tenant : string;
  dir_principals : gmap string string;
  dir_subscriptions : gset string
}.

(** A token the directory accepts: issued for its tenant, to a registered
    client with that client's secret. *)
Definition valid_token (dir : Directory) (token : option ServicePrincipalToken) : Prop :=
  match token with
  | Some t =>
      spt_oauthConfig t = tenant_config PublicCloud (dir_tenant dir) ∧
      dir_principals dir !! spt_clientID t = Some (spt_secret t)
  | None => False
  end.

#[export] Instance valid_token_dec dir token : Decision (valid_token dir token).
Proof. destruct token; apply _. Defined.

(** A client the service serves: its token is valid and its subscription
    is one of the directory's. *)
Definition permitted (dir : Directory) (c : ManagementClient) : Prop :=
  valid_token dir (Authorizer c) ∧ SubscriptionID c ∈ dir_subscriptions dir.

#[export] Instance permitted_dec dir c : Decision (permitted dir c).
Proof. apply _. Defined.

(** ** The cloud *)

Record Cloud := {
  cloud_directory : Directory;
  cloud_resources : Store
}.

Definition with_resources (store : Store) (c : Cloud) : Cloud :=
  {| cloud_directory := cloud_directory c; cloud_resources := store |}.

(** The token the SDK builds from a configuration and a secret. *)
Definition token_for (config : OAuthConfig) (clientID secret resource : string)
    : ServicePrincipalToken :=
  {| spt_oauthConfig := config; spt_clientID := clientID; spt_secret := secret;
     spt_resource := resource |}.

Definition cloud_token (config : OAuthConfig) (clientID secret resource : string)
    (c : Cloud) : (option ServicePrincipalToken * option goerror) * Cloud :=
  if decide (valid_token (cloud_directory c)
               (Some (token_for config clientID secret resource)))
  then ((Some (token_for config clientID secret resource), None), c)
  else ((None, Some invalid_client), c).

Definition cloud_perform (client : ManagementClient) (request : Request) (c : Cloud)
    : Reply * Cloud :=
  if decide (permitted (cloud_directory c) client)
  then (let served := serve request (cloud_resources c) in
        (served.1, with_resources served.2 c))
  else (reply_error forbidden, c).

#[export] Instance cloud_sdk : Sdk Cloud := {|
  sdk_OAuthConfigForTenant env tenantID c := ((Some (tenant_config env tenantID), None), c);
  sdk_NewServicePrincipalToken := cloud_token;
  sdk_perform := cloud_perform
|}.

(** ** Well-formed stores *)

(** Every resource has its parent, and is of the type its path says. *)
Definition scoped (store : Store) : Prop :=
  ∀ id resource, store !! id = Some resource → admitted store id.

Definition typed (store : Store) : Prop :=
  ∀ id resource, store !! id = Some resource → fits id resource = true.

Definition well_formed (c : Cloud) : Prop :=
  scoped (cloud_resources c) ∧ typed (cloud_resources c).

#[export] Instance scoped_dec store : Decision (scoped store).
Proof. refine (map_Forall_dec (λ id _, admitted store id) store). Defined.
#[export] Instance typed_dec store : Decision (typed store).
Proof.
  refine (@map_Forall_dec _ _ _ _ _ _ _ _ _ _ _ _ (λ id resource, fits id resource = true)
            (λ id resource, decide (fits id resource = true)) store).
Defined.
#[export] Instance well_formed_dec c : Decision (well_formed c).
Proof. apply _. Defined.

(** ** The store under the requests *)

Section store.
Implicit Types (store : Store) (id : ResourceId) (request : Request).

Lemma parent_group id p : parent id = Some p → group_of p = group_of id.
Proof. destruct id; intros [= <-]; done. Qed.

Lemma verb_fits request resource :
  verb request = Put resource → fits (target request) resource = true.
Proof. destruct request; intros [= <-]; done. Qed.

(** Writing a resource keeps what was admitted admitted. *)
Lemma admitted_insert store id id' resource :
  admitted store id' → admitted (<[id := resource]> store) id'.
Proof.
  unfold admitted. destruct (parent id') as [p|]; [|done].
  intros Hp. by apply lookup_insert_is_Some'; right.
Qed.

(** What is left after the removal of a group. *)
Lemma without_lookup g store id :
  without g store !! id = if decide (group_of id = g) then None else store !! id.
Proof.
  unfold without. case_decide as Hg.
  - apply map_lookup_filter_None. right. intros resource _. simpl. by intros [].
  - destruct (store !! id) as [resource|] eqn:Hid.
    + by apply map_lookup_filter_Some.
    + apply map_lookup_filter_None. by left.
Qed.

Lemma admitted_without g store id :
  group_of id ≠ g → admitted store id → admitted (without g store) id.
Proof.
  unfold admitted. intros Hg. destruct (parent id) as [p|] eqn:Hp; [|done].
  rewrite without_lookup, decide_False; [done|].
  by rewrite (parent_group _ _ Hp).
Qed.

(** The three ways a request is served. *)
Lemma serve_put request resource store :
  verb request = Put resource →
  serve request store =
  if decide (admitted store (target request))
  then (reply_ok, <[target request := resource]> store)
  else (reply_error parent_not_found, store).
Proof. unfold serve. by intros ->. Qed.

Lemma serve_remove g store :
  serve (GroupsDelete g) store =
  if decide (is_Some (store !! GroupId g))
  then (reply_ok, without g store)
  else (reply_error not_found, store).
Proof. done. Qed.

Lemma serve_keys g n r store :
  serve (NamespacesListKeys g n r) store =
  if decide (is_Some (store !! RuleId g n r))
  then (reply_with_keys (keys_of (RuleId g n r)), store)
  else (reply_error not_found, store).
Proof. done. Qed.

(** A view of [serve] by cases, for the proofs below. *)
Lemma serve_cases request store :
  (∃ resource, verb request = Put resource ∧ admitted store (target request) ∧
     serve request store = (reply_ok, <[target request := resource]> store)) ∨
  (∃ g, request = GroupsDelete g ∧ is_Some (store !! GroupId g) ∧
     serve request store = (reply_ok, without g store)) ∨
  (∃ keys, serve request store = (reply_with_keys keys, store)) ∨
  (∃ e, serve request store = (reply_error e, store)).
Proof.
  destruct (verb request) as [resource| |] eqn:Hv.
  - rewrite (serve_put _ _ _ Hv). case_decide; [left; by exists resource|].
    do 3 right. by eexists.
  - destruct request; try done. rewrite serve_remove.
    case_decide; [right; left; by eexists|]. do 3 right. by eexists.
  - destruct request; try done. rewrite serve_keys.
    case_decide; [right; right; left; by eexists|]. do 3 right. by eexists.
Qed.

End store.

(** ** Every request keeps the store well formed *)

Section invariant.
Implicit Types (store : Store) (id : ResourceId) (request : Request).

Lemma serve_scoped request store : scoped store → scoped (serve request store).2.
Proof.
  intros Hs.
  destruct (serve_cases request store)
    as [(resource & Hv & Ha & ->)|[(g & -> & Hg & ->)|[[keys ->]|[e ->]]]];
    cbn [snd]; [| |done..].
  - intros id res [[<- _]|[_ Hid]]%lookup_insert_Some;
      apply admitted_insert; [done|by eapply Hs].
  - intros id res. rewrite without_lookup. case_decide; [done|].
    intros Hid. apply admitted_without; [done|by eapply Hs].
Qed.

Lemma serve_typed request store : typed store → typed (serve request store).2.
Proof.
  intros Ht.
  destruct (serve_cases request store)
    as [(resource & Hv & Ha & ->)|[(g & -> & Hg & ->)|[[keys ->]|[e ->]]]];
    cbn [snd]; [| |done..].
  - intros id res [[<- <-]|[_ Hid]]%lookup_insert_Some;
      [by apply verb_fits|by eapply Ht].
  - intros id res. rewrite without_lookup. case_decide; [done|]. apply Ht.
Qed.

(** A request that fails changes nothing. *)
Lemma serve_failed request store :
  reply_err (serve request store).1 ≠ None → (serve request store).2 = store.
Proof.
  destruct (serve_cases request store)
    as [(resource & Hv & Ha & ->)|[(g & -> & Hg & ->)|[[keys ->]|[e ->]]]]; done.
Qed.

(** The removal of a group takes the group and everything below it, and
    nothing else. *)
Lemma remove_cascades g store id :
  is_Some (store !! GroupId g) →
  (serve (GroupsDelete g) store).2 !! id
  = if decide (group_of id = g) then None else store !! id.
Proof. intros Hg. rewrite serve_remove, decide_True by done. apply without_lookup. Qed.

End invariant.

(** ** The cloud under the SDK's calls *)

Section cloud.
Implicit Types (c : Cloud) (client : ManagementClient) (request : Request).

Lemma cloud_perform_permitted client request c :
  permitted (cloud_directory c) client →
  cloud_perform client request c
  = ((serve request (cloud_resources c)).1,
     with_resources (serve request (cloud_resources c)).2 c).
Proof. intros Hp. unfold cloud_perform. by rewrite decide_True. Qed.

Lemma cloud_perform_refused client request c :
  ¬ permitted (cloud_directory c) client →
  cloud_perform client request c = (reply_error forbidden, c).
Proof. intros Hp. unfold cloud_perform. by rewrite decide_False. Qed.

(** No call changes the directory. *)
Lemma cloud_perform_directory client request c :
  cloud_directory (cloud_perform client request c).2 = cloud_directory c.
Proof. unfold cloud_perform. by case_decide. Qed.

Lemma cloud_token_same config clientID secret resource c :
  (cloud_token config clientID secret resource c).2 = c.
Proof. unfold cloud_token. by case_decide. Qed.

Lemma cloud_perform_well_formed client request c :
  well_formed c → well_formed (cloud_perform client request c).2.
Proof.
  intros [Hs Ht]. unfold cloud_perform. case_decide; [|done].
  split; [by apply serve_scoped|by apply serve_typed].
Qed.

(** A call that fails, or that is refused, leaves the cloud as it was. *)
Lemma cloud_perform_failed client request c :
  reply_err (cloud_perform client request c).1 ≠ None →
  (cloud_perform client request c).2 = c.
Proof.
  unfold cloud_perform. case_decide; [|done]. simpl. intros Herr.
  rewrite serve_failed by done. by destruct c.
Qed.

End cloud.

(** ** Sequences of requests *)

(** The store after a sequence of requests, served one after the other. *)
Definition replay (rs : list Request) (store : Store) : Store :=
  foldl (λ st request, (serve request st).2) store rs.

(** What a request needs to exist: the parent of the resource for a
    create-or-update, the resource itself otherwise. *)
Definition need (request : Request) : option ResourceId :=
  match verb request with
  | Put _ => parent (target request)
  | Remove | ReadKeys => Some (target request)
  end.

(** The resources known to exist after a request, given those known
    before: a create-or-update adds its target; after a removal nothing is
    taken for granted. *)
Definition known_after (request : Request) (known : list ResourceId) : list ResourceId :=
  match verb request with
  | Put _ => target request :: known
  | Remove => []
  | ReadKeys => known
  end.

(** [needs_met known rs]: in the sequence [rs] every request finds what
    it needs among the resources known to exist or created earlier in the
    sequence. *)
Fixpoint needs_met (known : list ResourceId) (rs : list Request) : bool :=
  match rs with
  | [] => true
  | request :: rs' =>
      match need request with
      | None => true
      | Some id => bool_decide (id ∈ known)
      end && needs_met (known_after request known) rs'
  end.

Section sequences.
Implicit Types (store : Store) (known : list ResourceId) (rs : list Request).

(** A request whose need exists is served without error. *)
Lemma serve_met request store :
  from_option (λ id, is_Some (store !! id)) True (need request) →
  reply_err (serve request store).1 = None.
Proof.
  unfold need, serve, admitted.
  destruct (verb request); simpl; intros Hn; by rewrite decide_True.
Qed.

(** After a request that was served, what was known and what the request
    created exist. *)
Lemma known_after_exists request known store :
  from_option (λ id, is_Some (store !! id)) True (need request) →
  Forall (λ id, is_Some (store !! id)) known →
  Forall (λ id, is_Some ((serve request store).2 !! id)) (known_after request known).
Proof.
  unfold need, known_after, serve, admitted.
  destruct (verb request) as [resource| |]; simpl; intros Hn Hk;
    rewrite decide_True by done; simpl; [|done..].
  apply Forall_cons. split; [simpl; by rewrite lookup_insert_eq|].
  eapply Forall_impl; [exact Hk|]. intros id Hid. simpl.
  by apply lookup_insert_is_Some'; right.
Qed.

Lemma need_known request known store :
  match need request with None => true | Some id => bool_decide (id ∈ known) end = true →
  Forall (λ id, is_Some (store !! id)) known →
  from_option (λ id, is_Some (store !! id)) True (need request).
Proof.
  destruct (need request) as [id|]; [|done]. simpl.
  intros Hin%bool_decide_eq_true Hk. rewrite Forall_forall in Hk. by apply Hk.
Qed.

(** In a sequence whose needs are met, the last request is served without
    error after the others. *)
Lemma replay_last known rs request store :
  needs_met known (rs ++ [request]) = true →
  Forall (λ id, is_Some (store !! id)) known →
  reply_err (serve request (replay rs store)).1 = None.
Proof.
  revert known store. induction rs as [|r rs IH]; intros known store; simpl.
  - intros [Hn _]%andb_true_iff Hk. by eapply serve_met, need_known.
  - intros [Hn Hrs]%andb_true_iff Hk. apply (IH _ _ Hrs).
    by eapply known_after_exists; [eapply need_known|].
Qed.

Lemma needs_met_app known rs1 rs2 :
  needs_met known (rs1 ++ rs2) = true → needs_met known rs1 = true.
Proof.
  revert known. induction rs1 as [|r rs1 IH]; intros known; [done|]. simpl.
  intros [Hn Hrs]%andb_true_iff. rewrite Hn. by eapply IH.
Qed.

Lemma replay_snoc rs request store :
  replay (rs ++ [request]) store = (serve request (replay rs store)).2.
Proof. unfold replay. by rewrite foldl_app. Qed.

(** Writing a resource of a group and then removing the group is the
    same as removing the group. *)
Lemma without_insert g id resource store :
  group_of id = g → without g (<[id := resource]> store) = without g store.
Proof. intros Hg. unfold without. apply map_filter_insert_not. simpl. by intros ? []. Qed.

(** Serving requests that address one group and then removing the group
    leaves the store without the group. *)
Lemma without_serve g request store :
  group_of (target request) = g →
  without g (serve request store).2 = without g store.
Proof.
  intros Hg.
  destruct (serve_cases request store)
    as [(resource & Hv & Ha & ->)|[(g' & -> & Hg' & ->)|[[keys ->]|[e ->]]]];
    cbn [snd]; [by apply without_insert| |done..].
  simpl in Hg. subst g'. apply map_eq. intros id.
  rewrite !without_lookup. by case_decide.
Qed.

Lemma without_replay g rs store :
  Forall (λ request, group_of (target request) = g) rs →
  without g (replay rs store) = without g store.
Proof.
  intros Hrs. revert store. induction Hrs as [|r rs Hr _ IH]; intros store; [done|].
  simpl. by rewrite IH, without_serve.
Qed.

(** A store that has nothing of a group is the same without the group. *)
Lemma without_fresh g store :
  (∀ id, group_of id = g → store !! id = None) → without g store = store.
Proof.
  intros Hf. apply map_eq. intros id. rewrite without_lookup.
  case_decide; [by rewrite Hf|done].
Qed.

End sequences.

(** ** The script on the cloud *)

(** The directory knows the credential: its tenant is the credential's,
    the client is registered with the secret, and the subscription is one
    the directory manages. *)
Definition registered (cred : Credential) (dir : Directory) : Prop :=
  dir_tenant dir = cred_tenant cred ∧
  dir_principals dir !! cred_client cred = Some (cred_secret cred) ∧
  cred_subscription cred ∈ dir_subscriptions dir.

#[export] Instance registered_dec cred dir : Decision (registered cred dir).
Proof. apply _. Defined.

(** The cloud [c0] after it has served the requests [rs]. *)
Definition served (c0 : Cloud) (rs : list Request) (c : Cloud) : Prop :=
  c = with_resources (replay rs (cloud_resources c0)) c0.

Lemma with_resources_same c : with_resources (cloud_resources c) c = c.
Proof. by destruct c. Qed.

(** The script asks for every resource after its parent, and all of its
    requests address the one resource group. *)
Lemma script_needs_met : needs_met [] script = true.
Proof. vm_compute. reflexivity. Qed.

Lemma script_group :
  Forall (λ request, group_of (target request) = resourceGroupName) script.
Proof. by repeat constructor. Qed.

Lemma prefix_needs_met rs : rs `prefix_of` script → needs_met [] rs = true.
Proof. intros [k Hk]. eapply needs_met_app. rewrite <- Hk. apply script_needs_met. Qed.

(** The token a registered credential obtains. *)
Definition token_of (cred : Credential) : ServicePrincipalToken :=
  token_for (tenant_config PublicCloud (cred_tenant cred)) (cred_client cred)
    (cred_secret cred) (ResourceManagerEndpoint PublicCloud).

Lemma registered_token cred c :
  registered cred (cloud_directory c) →
  valid_token (cloud_directory c) (Some (token_of cred)) ∧
  cloud_token (tenant_config PublicCloud (cred_tenant cred)) (cred_client cred)
    (cred_secret cred) (ResourceManagerEndpoint PublicCloud) c
  = ((Some (token_of cred), None), c).
Proof.
  intros (Ht & Hp & Hs).
  assert (valid_token (cloud_directory c) (Some (token_of cred))) as Hv
    by (split; [by simpl; rewrite Ht|done]).
  split; [done|]. unfold cloud_token. fold (token_of cred). by rewrite decide_True.
Qed.

(** A permitted request of the script, after the requests of the script
    before it, succeeds; [ListKeys] answers with complete keys. *)
Lemma serve_script rs request store :
  rs ++ [request] `prefix_of` script →
  reply_err (serve request (replay rs store)).1 = None ∧
  (request = listKeys_request →
   keys_complete (reply_keys (serve request (replay rs store)).1) = true).
Proof.
  intros Hrs.
  pose proof (replay_last [] rs request store (prefix_needs_met _ Hrs) (Forall_nil_2 _))
    as Herr.
  split; [done|]. intros ->. revert Herr. unfold listKeys_request. rewrite serve_keys.
  by case_decide.
Qed.

(** A cloud that knows the credential honours the script. *)
Lemma cloud_reliable cred plan c0 :
  registered cred (cloud_directory c0) → plan `prefix_of` script →
  Reliable cred plan (valid_token (cloud_directory c0)) (served c0).
Proof.
  intros Hreg Hplan. destruct (registered_token cred c0 Hreg) as [Hv Htok]. split.
  - intros c ->. simpl. rewrite with_resources_same.
    exists (tenant_config PublicCloud (cred_tenant cred)), c0, (Some (token_of cred)), c0.
    split_and!; [done..|]. unfold served. simpl. by rewrite with_resources_same.
  - intros spToken request rs c Htoken -> Hrs. cbv zeta.
    change (sdk_perform ?c ?r ?s) with (cloud_perform c r s).
    rewrite cloud_perform_permitted by (split; [done|apply Hreg]).
    cbn [fst snd cloud_resources with_resources].
    destruct (serve_script rs request (cloud_resources c0) (transitivity Hrs Hplan)).
    split_and!; [done..|]. unfold served. by rewrite replay_snoc.
Qed.

(** The whole script, replayed on a store, leaves the store without the
    resource group of the script. *)
Lemma replay_script store : replay script store = without resourceGroupName store.
Proof.
  change script with (take 7 script ++ [GroupsDelete resourceGroupName]).
  rewrite replay_snoc.
  pose proof (replay_last [] (take 7 script) (GroupsDelete resourceGroupName) store
                script_needs_met (Forall_nil_2 _)) as Herr.
  revert Herr. rewrite serve_remove. case_decide; [intros _|done].
  apply without_replay. by repeat constructor.
Qed.

(** The cloud a run leaves. *)
Definition final_cloud (env : gmap string string) (stdin : list string) (c0 : Cloud)
    : Cloud :=
  w_remote (run env stdin c0).2.

(** A store that has nothing of the script's resource group. *)
Definition fresh (store : Store) : Prop :=
  ∀ id, group_of id = resourceGroupName → store !! id = None.

(** A run on a cloud that knows the credential returns after the whole
    script and leaves the store without the script's resource group. *)
Lemma cloud_run_served env stdin (c0 : Cloud) :
  registered (credential env) (cloud_directory c0) →
  Forall (λ name, default "" (env !! name) ≠ "") required_variables →
  (run env stdin c0).1 = Returned () ∧
  requests (run env stdin c0).2 = script ∧
  final_cloud env stdin c0
  = with_resources (without resourceGroupName (cloud_resources c0)) c0.
Proof.
  intros Hreg Hv. pose proof (cloud_reliable _ script c0 Hreg (reflexivity _)) as Hrel.
  destruct (program_returns _ script _ _ (reflexivity _) (initial_world env stdin c0))
    as ([] & w & Hrun & spToken & values & _ & Hg & _ & _ & _ & Hrs).
  { split_and!; [|done..]. unfold served. simpl. by rewrite with_resources_same. }
  unfold final_cloud, run. rewrite Hrun. simpl.
  by rewrite Hg, replay_script.
Qed.

(** C7. On a cloud whose directory knows the credential of the
    environment, the process runs the whole script and returns with
    status 0 after the eight requests.  Afterwards the cloud holds nothing
    of the resource group of the script, whether the script created it or
    it was there before, and every resource of another group is as it
    was. *)
Theorem cloud_run_tears_down env stdin (c0 : Cloud) :
  registered (credential env) (cloud_directory c0) →
  Forall (λ name, default "" (env !! name) ≠ "") required_variables →
  (run env stdin c0).1 = Returned () ∧
  requests (run env stdin c0).2 = script ∧
  cloud_directory (final_cloud env stdin c0) = cloud_directory c0 ∧
  ∀ id, cloud_resources (final_cloud env stdin c0) !! id
        = if decide (group_of id = resourceGroupName) then None
          else cloud_resources c0 !! id.
Proof.
  intros Hreg Hv. destruct (cloud_run_served env stdin c0 Hreg Hv) as (Hrun & Hrs & ->).
  split_and!; [done..|]. intros id. apply without_lookup.
Qed.

(** C11. When the cloud has nothing of the script's resource group to
    begin with, a run on it leaves the cloud exactly as it found it: what
    the seven steps create, the deletion removes. *)
Theorem cloud_run_restores env stdin (c0 : Cloud) :
  registered (credential env) (cloud_directory c0) →
  Forall (λ name, default "" (env !! name) ≠ "") required_variables →
  fresh (cloud_resources c0) →
  final_cloud env stdin c0 = c0.
Proof.
  intros Hreg Hv Hf. destruct (cloud_run_served env stdin c0 Hreg Hv) as (_ & _ & ->).
  rewrite without_fresh by done. apply with_resources_same.
Qed.

(** ** Every run *)

(** What any call does to the cloud: nothing, or the service of a
    request. *)
Lemma cloud_effect (c : Cloud) (e : Event) :
  effect c e = c ∨ ∃ client request, effect c e = (cloud_perform client request c).2.
Proof.
  destruct e; simpl; [by left..| |by right; eauto]. left. apply cloud_token_same.
Qed.

(** The service looks after itself: whatever a client program asks of
    it, a well-formed cloud stays well formed, every resource with its
    parent and of the type of its path, and the directory is never
    changed.  This holds of the script as of any other program. *)
Lemma cloud_keeps_well_formed env stdin (c0 : Cloud) :
  well_formed c0 →
  well_formed (final_cloud env stdin c0) ∧
  cloud_directory (final_cloud env stdin c0) = cloud_directory c0.
Proof.
  intros Hwf. unfold final_cloud.
  apply (run_remote_invariant env stdin c0
           (λ c, well_formed c ∧ cloud_directory c = cloud_directory c0)); [|done].
  intros e c [Hc Hd]. destruct (cloud_effect c e) as [->|(client & request & ->)]; [done|].
  split; [by apply cloud_perform_well_formed|by rewrite cloud_perform_directory].
Qed.

(** *** A credential the directory does not know *)

(** The directory knows who the credential is: the tenant is the
    directory's and the client is registered with the secret. *)
Definition known (cred : Credential) (dir : Directory) : Prop :=
  dir_tenant dir = cred_tenant cred ∧
  dir_principals dir !! cred_client cred = Some (cred_secret cred).

#[export] Instance known_dec cred dir : Decision (known cred dir).
Proof. apply _. Defined.

(** The token built from a credential is valid when the directory knows
    the credential, and only then. *)
Lemma known_valid cred dir resource :
  valid_token dir
    (Some (token_for (tenant_config PublicCloud (cred_tenant cred)) (cred_client cred)
             (cred_secret cred) resource))
  ↔ known cred dir.
Proof.
  unfold valid_token, known. simpl.
  split; intros [H ?]; (split; [|done]); [by apply (inj _) in H|by rewrite H].
Qed.

(** C20. With the four variables set but a credential the directory does
    not know, the token is refused: the process prints the failure of the
    token construction and exits with status 1 without a single
    management request, and the cloud is as it was. *)
Theorem cloud_run_refused env stdin (c0 : Cloud) :
  Forall (λ name, default "" (env !! name) ≠ "") required_variables →
  ¬ known (credential env) (cloud_directory c0) →
  status env stdin c0 = 1%Z ∧ issued env stdin c0 = [] ∧
  stdout (run env stdin c0).2
  = [failure_line "NewServicePrincipalToken failed" invalid_client] ∧
  final_cloud env stdin c0 = c0.
Proof.
  intros Hv Hk.
  destruct (init_token_fails (initial_world env stdin c0)
              (tenant_config PublicCloud (cred_tenant (credential env))) c0
              None invalid_client c0 Hv) as (w' & Hinit & Hr & Htr); [done| |].
  { simpl. unfold cloud_token. rewrite decide_False; [done|].
    by rewrite (known_valid (credential env)). }
  unfold status, issued, final_cloud, run, program, requests, stdout.
  rewrite (bind_exited _ _ _ _ _ Hinit). simpl. by rewrite Htr, Hr.
Qed.

(** *** A subscription the directory does not manage *)

(** C21. With a credential the directory knows but a subscription it
    does not manage, the token is built and the first request is refused:
    the process halts at the creation of the resource group, exits with
    status 1 having issued that one request, and the cloud is as it
    was. *)
Theorem cloud_run_forbidden env stdin (c0 : Cloud) :
  Forall (λ name, default "" (env !! name) ≠ "") required_variables →
  known (credential env) (cloud_directory c0) →
  cred_subscription (credential env) ∉ dir_subscriptions (cloud_directory c0) →
  status env stdin c0 = 1%Z ∧
  issued env stdin c0 = [createResourceGroup_request] ∧
  stdout (run env stdin c0).2
  = [step_line createResourceGroup_step;
     failure_line (step_message createResourceGroup_step) forbidden] ∧
  final_cloud env stdin c0 = c0.
Proof.
  intros Hv Hk Hs.
  destruct (init_succeeds (initial_world env stdin c0)
              (tenant_config PublicCloud (cred_tenant (credential env))) c0
              (Some (token_for (tenant_config PublicCloud (cred_tenant (credential env)))
                       (cred_client (credential env)) (cred_secret (credential env))
                       (ResourceManagerEndpoint PublicCloud))) c0 Hv)
    as (w' & Hinit & Hr & Hcs & Htr); [done| |].
  { simpl. unfold cloud_token. rewrite decide_True; [done|].
    by rewrite (known_valid (credential env)). }
  unfold status, issued, final_cloud, run, program, requests, stdout.
  rewrite (bind_returned _ _ _ _ _ Hinit). unfold main.
  rewrite createResourceGroup_shape. unfold perform. rewrite run_api_step. cbv zeta.
  unfold reply_to, after_step, after_call. cbn [w_remote add_event set_remote w_trace].
  rewrite Hr, Hcs. change (sdk_perform ?c ?r ?s) with (cloud_perform c r s).
  rewrite cloud_perform_refused by (by intros [_ ?]).
  cbn [reply_err reply_error fst snd exit_status w_remote w_trace add_event set_remote].
  by rewrite ?Hr, Htr.
Qed.

(** ** Sample clouds *)

Definition sample_directory : Directory := {|
  dir_tenant := "contoso";
  dir_principals := {["client" := "secret"]};
  dir_subscriptions := {["sub-0001"]}
|}.

(** A cloud with another resource group and nothing of the script's. *)
Definition sample_cloud : Cloud := {|
  cloud_directory := sample_directory;
  cloud_resources :=
    <[GroupId "other" := AGroup groupParams]>
    (<[NamespaceId "other" "ns" := ANamespace namespaceParams]> ∅)
|}.

(** A cloud in which the script's resource group exists already and holds
    a namespace with a queue. *)
Definition occupied_cloud : Cloud := {|
  cloud_directory := sample_directory;
  cloud_resources :=
    <[GroupId "azure-sample" := AGroup groupParams]>
    (<[NamespaceId "azure-sample" "precious" := ANamespace namespaceParams]>
    (<[QueueId "azure-sample" "precious" "orders" := AQueue queueParams]>
    (<[GroupId "other" := AGroup groupParams]> ∅)))
|}.

Lemma cloud_run_tears_down_witness :
  (run sample_env [""] occupied_cloud).1 = Returned () ∧
  requests (run sample_env [""] occupied_cloud).2 = script ∧
  cloud_directory (final_cloud sample_env [""] occupied_cloud)
  = cloud_directory occupied_cloud ∧
  ∀ id, cloud_resources (final_cloud sample_env [""] occupied_cloud) !! id
        = if decide (group_of id = resourceGroupName) then None
          else cloud_resources occupied_cloud !! id.
Proof. apply cloud_run_tears_down; compute_done. Defined.

Lemma cloud_run_restores_witness : final_cloud sample_env [""] sample_cloud = sample_cloud.
Proof.
  apply cloud_run_restores; [compute_done..|].
  intros id Hid. unfold sample_cloud. simpl.
  rewrite !lookup_insert_ne, lookup_empty; [done|by intros <-..].
Defined.

(** The same environment with another secret. *)
Definition wrong_secret_env : gmap string string :=
  <["AZURE_CLIENT_SECRET" := "guess"]> sample_env.

Lemma cloud_run_refused_witness :
  status wrong_secret_env [""] sample_cloud = 1%Z ∧
  issued wrong_secret_env [""] sample_cloud = [] ∧
  stdout (run wrong_secret_env [""] sample_cloud).2
  = [failure_line "NewServicePrincipalToken failed" invalid_client] ∧
  final_cloud wrong_secret_env [""] sample_cloud = sample_cloud.
Proof. apply cloud_run_refused; compute_done. Defined.

(** The same environment with a subscription of somebody else. *)
Definition other_subscription_env : gmap string string :=
  <["AZURE_SUBSCRIPTION_ID" := "sub-9999"]> sample_env.

Lemma cloud_run_forbidden_witness :
  status other_subscription_env [""] sample_cloud = 1%Z ∧
  issued other_subscription_env [""] sample_cloud = [createResourceGroup_request] ∧
  stdout (run other_subscription_env [""] sample_cloud).2
  = [step_line createResourceGroup_step;
     failure_line (step_message createResourceGroup_step) forbidden] ∧
  final_cloud other_subscription_env [""] sample_cloud = sample_cloud.
Proof. apply cloud_run_forbidden; compute_done. Defined.
