(* ===== verification/Outage.v ===== *)
(** * A service that gives out in the middle of the script

    The script has no cleanup on error: when a step fails the process
    prints the failure and exits, and what the earlier steps created stays
    in the cloud.  This file follows such a run to its end on the
    reference service of Cloud.v, put behind a front that serves a given
    number of management calls and answers every later one with an error,
    touching nothing.

    The front is an instance of [Sdk]; for a registered credential it is
    [Reliable] for the first [k] requests of the script.  The run then
    returns from the first [k] steps and stops at the next: it exits with
    status 1 having issued [k + 1] requests, and the cloud holds what the
    first [k] requests have made of it. *)

From S2P Require Import Prelude Monad GoFmt Sdk Runtime Mock Helpers Startup Provision.
From S2P Require Import Main Workflow Refinement Properties Transitions Success Cloud.

(** ** The front *)

Record Limited := {
  limited_cloud : Cloud;
  calls_left : nat
}.

Definition unavailable : goerror := mkError "ServiceUnavailable".

Definition limited_perform (client : ManagementClient) (request : Request) (l : Limited)
    : Reply * Limited :=
  match calls_left l with
  | 0 => (reply_error unavailable, l)
  | S n =>
      let served := cloud_perform client request (limited_cloud l) in
      (served.1, {| limited_cloud := served.2; calls_left := n |})
  end.

#[export] Instance limited_sdk : Sdk Limited := {|
  sdk_OAuthConfigForTenant env tenantID l := ((Some (tenant_config env tenantID), None), l);
  sdk_NewServicePrincipalToken config clientID secret resource l :=
    ((cloud_token config clientID secret resource (limited_cloud l)).1, l);
  sdk_perform := limited_perform
|}.

(** ** The front honours the script as long as it lasts *)

Section lasting.
Context (cred : Credential) (c0 : Cloud) (k : nat).
Context (Hreg : registered cred (cloud_directory c0)).

(** The state of the front after it has served [rs], out of [k] calls. *)
Definition lasting (rs : list Request) (l : Limited) : Prop :=
  calls_left l + length rs = k ∧ served c0 rs (limited_cloud l).

Lemma limited_reliable :
  Reliable cred (take k script) (valid_token (cloud_directory c0)) lasting.
Proof.
  destruct (registered_token cred c0 Hreg) as [Hv Htok]. split.
  - intros [c n] [Hn Hc]. cbn [limited_cloud calls_left] in *.
    unfold served in Hc. simpl in Hc. rewrite with_resources_same in Hc. subst c.
    exists (tenant_config PublicCloud (cred_tenant cred)), {| limited_cloud := c0; calls_left := n |},
      (Some (token_of cred)), {| limited_cloud := c0; calls_left := n |}.
    split_and!; [done| |done|].
    { cbn [sdk_NewServicePrincipalToken limited_sdk limited_cloud]. by rewrite Htok. }
    split; [done|]. unfold served. simpl. by rewrite with_resources_same.
  - intros spToken request rs [c n] Htoken [Hn Hc] Hrs. simpl in Hn, Hc. cbv zeta.
    change (sdk_perform ?c ?r ?s) with (limited_perform c r s).
    assert (length rs < k) as Hlt.
    { apply prefix_length in Hrs. rewrite length_app, length_take in Hrs. simpl in Hrs. lia. }
    destruct n as [|n]; [lia|]. unfold limited_perform. cbn [calls_left limited_cloud].
    rewrite Hc, cloud_perform_permitted by (split; [done|apply Hreg]).
    cbn [fst snd cloud_resources with_resources].
    destruct (serve_script rs request (cloud_resources c0)
                (transitivity Hrs (prefix_take _ _))).
    split_and!; [done..|].
    split; [rewrite length_app; simpl; lia|]. unfold served. simpl. by rewrite replay_snoc.
Qed.

(** Once the [k] calls are spent every call is refused and nothing
    changes. *)
Lemma limited_out rs client request l :
  lasting rs l → length rs = k →
  sdk_perform client request l = (reply_error unavailable, l).
Proof.
  intros [Hn _] Hk. change (sdk_perform ?c ?r ?s) with (limited_perform c r s).
  unfold limited_perform. by replace (calls_left l) with 0 by lia.
Qed.

End lasting.

(** ** The interrupted run *)

(** The next statement of [main] returns, the front having served its
    request. *)
Ltac advance :=
  lazymatch goal with
  | H : Reliable ?cred ?plan ?trusted ?good |- _ =>
      first
        [ eapply exits_bind;
            [apply (returns_perform cred plan trusted good); [compute_done|done..]
            |intros ?]
        | eapply exits_bind;
            [apply (returns_listKeys cred plan trusted good); compute_done|intros ?];
          apply exits_exists; intros ?; apply exits_pure; intros ?
        | eapply exits_bind_seq; [apply (returns_gate cred trusted good)|intros ?] ]
  end.

(** The next step is the one the front refuses. *)
Ltac refused :=
  eapply exits_consequence;
    [ first [ eapply exits_here; first [eapply exits_perform|eapply exits_listKeys]
            | eapply exits_perform ];
      [try done..|];
      (let Hr := fresh in intros ? Hr; eapply limited_out; [exact Hr|reflexivity])
    | (let Hw := fresh in intros ? Hw; eexists; exact Hw) ].

Section interrupted.
Context (cred : Credential) (c0 : Cloud).
Context (Hreg : registered cred (cloud_directory c0)).

Lemma removelast_script k : k < 8 → removelast (take (S k) script) = take k script.
Proof. intros Hk. do 8 (destruct k as [|k]; [done|]). lia. Qed.

Lemma main_stops k spToken :
  k < 8 →
  exits (sound cred (valid_token (cloud_directory c0)) (lasting c0 k) spToken [] [])
    main 1
    (λ w, ∃ out, stopped (lasting c0 k) out (take (S k) script) w).
Proof.
  intros Hk. unfold main.
  rewrite createResourceGroup_shape, createNamespace_shape, createAuthRule_shape,
    createQueue_shape, createTopic_shape, createSubscription_shape,
    deleteResourceGroup_shape.
  destruct k as [|[|[|[|[|[|[|[|k]]]]]]]]; [..|lia];
    (match goal with
     | |- exits (sound _ _ (lasting _ ?n) _ _ _) _ _ _ =>
         pose proof (limited_reliable cred c0 n Hreg)
     end);
    repeat first [solve [refused] | advance].
Qed.

End interrupted.

(** C15. The script does not clean up after a failure.  On the reference
    service behind a front that gives out after [k] management calls,
    with a registered credential and [k] less than eight, the process
    exits with status 1 at step [k + 1], having issued the first [k + 1]
    requests of the script, and the cloud is left with all that the first
    [k] requests created. *)
Theorem interrupted_run env stdin (c0 : Cloud) (k : nat) :
  registered (credential env) (cloud_directory c0) →
  Forall (λ name, default "" (env !! name) ≠ "") required_variables →
  k < 8 →
  let l0 := {| limited_cloud := c0; calls_left := k |} in
  status env stdin l0 = 1%Z ∧
  issued env stdin l0 = take (S k) script ∧
  limited_cloud (w_remote (run env stdin l0).2)
  = with_resources (replay (take k script) (cloud_resources c0)) c0 ∧
  calls_left (w_remote (run env stdin l0).2) = 0.
Proof.
  intros Hreg Hv Hk l0.
  pose proof (limited_reliable (credential env) c0 k Hreg) as Hrel.
  assert (exits (ready (credential env) (lasting c0 k)) program 1
            (λ w, ∃ out, stopped (lasting c0 k) out (take (S k) script) w)) as Hrun.
  { eapply exits_bind;
      [apply (init_returns (credential env) (take k script)
                (valid_token (cloud_directory c0)) (lasting c0 k))|intros ?].
    apply exits_exists. intros spToken. by apply main_stops. }
  destruct (Hrun (initial_world env stdin l0)) as (w & Hw & out & [Hn Hc] & _ & Hrs).
  { split_and!; [split; [simpl; lia|]|done..]. unfold served. simpl.
    by rewrite with_resources_same. }
  unfold status, issued, run. rewrite Hw. rewrite removelast_script in Hn, Hc by done.
  rewrite length_take in Hn. change (length script) with 8 in Hn.
  split_and!; [done..|simpl; lia].
Qed.

(** ** The theorem at a concrete run *)

(** The front gives out after the authorization rule: the listing of the
    keys is refused. *)
Lemma interrupted_run_witness :
  let l0 := {| limited_cloud := sample_cloud; calls_left := 3 |} in
  status sample_env [""] l0 = 1%Z ∧
  issued sample_env [""] l0 = take 4 script ∧
  limited_cloud (w_remote (run sample_env [""] l0).2)
  = with_resources (replay (take 3 script) (cloud_resources sample_cloud)) sample_cloud ∧
  calls_left (w_remote (run sample_env [""] l0).2) = 0.
Proof.
  apply (interrupted_run sample_env [""] sample_cloud 3); [compute_done..|lia].
Defined.
